(** * Compute Engine: boxed expressions, hold policies, canonical forms,
      evaluation and the univariate solver

    A shallow embedding of the core of the compute engine together with
    the properties of its specification that can be stated on it.  The
    modelled sources are [BoxedFunction] with [makeCanonicalFunction],
    [holdMap], [shouldHold] and [cheapest] ([boxed-function.ts]),
    [BoxedTensor] (after the solver in [solve.ts]), the scope stack, the
    cache and the arithmetic shortcuts of [ComputeEngine]
    ([compute-engine.ts]), [canonicalAdd] (after the engine in
    [compute-engine.ts]), [canonicalPower] ([arithmetic-power.ts]) and the
    univariate solver ([solve.ts]).

    Conventions.
    - A JavaScript [number] is an IEEE double.  Its finite values are
      idealised as exact rationals; the two infinities and [NaN] are kept.
    - [undefined]/[null] results are [option]s, exceptions are an explicit
      outcome, engine state is passed explicitly.
    - Functions of the repository whose source is not part of the modelled
      files (the number kernel, the pattern matcher, the flattening
      helpers ...) are fields of the interface records below, so every
      theorem holds for any implementation of them; a concrete interface is
      given for evaluating the code on examples. *)

From Stdlib Require Import ZArith QArith Qround Bool List Ascii String Lia.
From stdpp Require Import base option list strings gmap.
Import ListNotations.

#[local] Set Warnings "-register-all".
#[local] Open Scope string_scope.
#[local] Open Scope list_scope.
#[local] Open Scope Z_scope.

(* ================================================================== *)
(** * Part I: the embedding *)
(* ================================================================== *)

(** ** Numbers *)

(** A JavaScript [number]. *)
Inductive JSNumber :=
| Finite (q : Q)
| PosInfinity
| NegInfinity
| NaN.

(** [numericValue]: [number | Decimal | Complex | Rational]. *)
Inductive NumericValue :=
| NMachine (x : JSNumber)
| NDecimal (x : JSNumber)
| NComplex (re im : JSNumber)
| NRational (numer denom : Z).

(** [a === b] on numbers ([NaN] differs from itself). *)
Definition js_eqb (a b : JSNumber) : bool :=
  match a, b with
  | Finite x, Finite y => Qeq_bool x y
  | PosInfinity, PosInfinity => true
  | NegInfinity, NegInfinity => true
  | _, _ => false
  end.

(** [a < b] on numbers. *)
Definition js_ltb (a b : JSNumber) : bool :=
  match a, b with
  | NaN, _ | _, NaN => false
  | Finite x, Finite y => negb (Qle_bool y x)
  | NegInfinity, NegInfinity => false
  | NegInfinity, _ => true
  | _, NegInfinity => false
  | PosInfinity, _ => false
  | _, PosInfinity => true
  end.

Definition js_of_Z (z : Z) : JSNumber := Finite (inject_Z z).

(** ** Boxed expressions *)

(** [AbstractTensor<'expression'>]: a shape and a contiguous data vector. *)
Record AbstractTensor (E : Type) := mkTensor {
  shape : list nat;
  data : list E }.
Arguments mkTensor {E} _ _.
Arguments shape {E} _.
Arguments data {E} _.

(** The variants of [BoxedExpression].  A function application records its
    head (a name or an expression), its operands and whether it is the
    canonical representative ([_canonical === this]).  A tensor records its
    [_tensor] field (present once the tensor form is materialised) and the
    value of its [expression] getter. *)
Inductive Expr :=
| BoxedNumber (value : NumericValue)
| BoxedSymbol (name : string)
| BoxedString (s : string)
| BoxedFunction (head : Head) (ops : list Expr) (canonical : bool)
| BoxedTensor (_tensor : option (AbstractTensor Expr)) (expression : Expr)
with Head :=
| HName (name : string)
| HExpr (e : Expr).

Coercion HName : string >-> Head.

(** [ce._fn(head, ops)]: a canonical function expression. *)
Definition _fn (h : Head) (ops : list Expr) : Expr :=
  BoxedFunction h ops true.

(** [ce.Nothing]. *)
Definition Nothing : Expr := BoxedSymbol "Nothing".

Definition num (z : Z) : Expr := BoxedNumber (NMachine (js_of_Z z)).
Definition sym (s : string) : Expr := BoxedSymbol s.

(** [x.head]. *)
Definition head (e : Expr) : Head :=
  match e with
  | BoxedNumber _ => HName "Number"
  | BoxedSymbol _ => HName "Symbol"
  | BoxedString _ => HName "String"
  | BoxedFunction h _ _ => h
  | BoxedTensor (Some _) _ => HName "List"
  | BoxedTensor None (BoxedFunction h _ _) => h
  | BoxedTensor None _ => HName "List"
  end.

(** [x.head === name]. *)
Definition headIs (e : Expr) (name : string) : bool :=
  match head e with
  | HName n => String.eqb n name
  | HExpr _ => false
  end.

(** [x.ops] ([null] for a leaf). *)
Definition ops (e : Expr) : option (list Expr) :=
  match e with
  | BoxedFunction _ xs _ => Some xs
  | BoxedTensor _ (BoxedFunction _ xs _) => Some xs
  | _ => None
  end.

Definition nops (e : Expr) : nat :=
  match e with
  | BoxedFunction _ xs _ => length xs
  | BoxedTensor (Some t) _ => hd 0%nat (shape t)
  | BoxedTensor None (BoxedFunction _ xs _) => length xs
  | _ => 0%nat
  end.

(** [x.op1], [x.op2]: [this._ops[i] ?? this.engine.Nothing]. *)
Definition op1 (e : Expr) : Expr :=
  match e with
  | BoxedFunction _ xs _ => nth 0 xs Nothing
  | BoxedTensor (Some t) _ => nth 0 (data t) Nothing
  | BoxedTensor None (BoxedFunction _ xs _) => nth 0 xs Nothing
  | _ => Nothing
  end.

Definition op2 (e : Expr) : Expr :=
  match e with
  | BoxedFunction _ xs _ => nth 1 xs Nothing
  | BoxedTensor (Some t) _ => nth 1 (data t) Nothing
  | BoxedTensor None (BoxedFunction _ xs _) => nth 1 xs Nothing
  | _ => Nothing
  end.

(** [x.symbol]. *)
Definition symbol (e : Expr) : option string :=
  match e with BoxedSymbol s => Some s | _ => None end.

(** [x.numericValue]: the kernel number of a numeric leaf, else [null]. *)
Definition numericValue (e : Expr) : option NumericValue :=
  match e with BoxedNumber v => Some v | _ => None end.

(** ** Effects *)

(** The callbacks of the engine ([x => x.evaluate(options)], handlers) may
    have effects; the code that takes them is written once, over a monad. *)
Record Monad (M : Type -> Type) := mkMonad {
  ret : forall {A : Type}, A -> M A;
  bind : forall {A B : Type}, M A -> (A -> M B) -> M B }.
Arguments ret {M} _ {A} _.
Arguments bind {M} _ {A B} _ _.

(** Pure callbacks. *)
Definition Pure (A : Type) : Type := A.
Definition PureM : Monad Pure :=
  {| ret := fun _ a => a; bind := fun _ _ a k => k a |}.

(** ** Hold policies ([boxed-function.ts]) *)

Inductive Hold :=
| hold_all
| hold_none
| hold_first
| hold_rest
| hold_last
| hold_most.

(** [shouldHold(skip, count, index)]; callers pass [count = length - 1]. *)
Definition shouldHold (skip : Hold) (count index : Z) : bool :=
  match skip with
  | hold_all => true
  | hold_none => false
  | hold_first => index =? 0
  | hold_rest => negb (index =? 0)
  | hold_last => index =? count
  | hold_most => negb (index =? count)
  end.

(** [result.push(y)] guarded by [y !== null]. *)
Definition push_unless_null (result : list Expr) (y : option Expr) : list Expr :=
  match y with
  | Some y' => result ++ [y']
  | None => result
  end.

Section HoldMap.
Context {M : Type -> Type} (MM : Monad M).
(** [flattenOps] of [symbolic/flatten]. *)
Context (flattenOps : list Expr -> string -> list Expr).

(** The loop of the [skip === 'none'] fast path. *)
Fixpoint holdMap_none (xs : list Expr) (f : Expr -> M (option Expr))
    (result : list Expr) : M (list Expr) :=
  match xs with
  | [] => ret MM result
  | x :: rest =>
      if headIs x "Hold" then holdMap_none rest f (result ++ [x])
      else
        let op := if headIs x "ReleaseHold" then op1 x else x in
        bind MM (f op) (fun y =>
        holdMap_none rest f (push_unless_null result y))
  end.

(** The general loop, [i] being the index of the head of [xs]. *)
Fixpoint holdMap_loop (skip : Hold) (count i : Z) (xs : list Expr)
    (f : Expr -> M (option Expr)) (result : list Expr) : M (list Expr) :=
  match xs with
  | [] => ret MM result
  | x :: rest =>
      if headIs x "Hold" then
        holdMap_loop skip count (i + 1) rest f (result ++ [x])
      else if headIs x "ReleaseHold" then
        bind MM (f (op1 x)) (fun y =>
        holdMap_loop skip count (i + 1) rest f (push_unless_null result y))
      else if negb (shouldHold skip count i) then
        bind MM (f x) (fun y =>
        holdMap_loop skip count (i + 1) rest f (push_unless_null result y))
      else holdMap_loop skip count (i + 1) rest f (result ++ [x])
  end.

(** [holdMap(xs, skip, associativeHead, f)]. *)
Definition holdMap (xs : list Expr) (skip : Hold) (associativeHead : string)
    (f : Expr -> M (option Expr)) : M (list Expr) :=
  if (length xs =? 0)%nat then ret MM []
  else
    let xs := flattenOps xs associativeHead in
    match skip with
    | hold_all => ret MM xs
    | hold_none =>
        bind MM (holdMap_none xs f [])
          (fun result => ret MM (flattenOps result associativeHead))
    | _ =>
        bind MM (holdMap_loop skip (Z.of_nat (length xs) - 1) 0 xs f [])
          (fun result => ret MM (flattenOps result associativeHead))
    end.

End HoldMap.

(** The operand loop of [makeCanonicalFunction]: operand [i] is boxed
    canonically unless position [i] is held; a held operand is boxed as it
    is, except that a held [ReleaseHold] gives the canonical form of its
    operand.  [canonical] is [ce.box(x)] / [x.canonical]; the operands are
    boxed expressions already, so [ce.box(x, {canonical: false})] is [x]. *)
Fixpoint canonicalOperands (canonical : Expr -> Expr) (hold : Hold)
    (count i : Z) (ops : list Expr) : list Expr :=
  match ops with
  | [] => []
  | x :: rest =>
      (if negb (shouldHold hold count i) then canonical x
       else if headIs x "ReleaseHold" then canonical (op1 x)
       else x)
      :: canonicalOperands canonical hold count (i + 1) rest
  end.

(** The table of the specification: the positions of an operand list of
    length [n] that policy [p] shields from processing. *)
Definition held_position (p : Hold) (n i : nat) : bool :=
  match p with
  | hold_all => true
  | hold_none => false
  | hold_first => (i =? 0)%nat
  | hold_rest => (1 <=? i)%nat && (i <=? n - 1)%nat
  | hold_last => (i =? n - 1)%nat
  | hold_most => (i <=? n - 2)%nat && (2 <=? n)%nat
  end.

(** What [holdMap] leaves at a slot, for a callback that never returns
    [null]. *)
Definition holdMap_slot (f : Expr -> Expr) (p : Hold) (n i : nat)
    (x : Expr) : Expr :=
  if headIs x "Hold" then x
  else if headIs x "ReleaseHold" then f (op1 x)
  else if held_position p n i then x
  else f x.

(** Modelled from the spec: [flattenOps] ([symbolic/flatten]) is not part of
    the modelled sources.  Following section 4.3 ("if associative, flatten
    same-headed children"), the operands of every operand whose head is
    [head] are spliced in its place, recursively; with the empty head that
    [holdMap] passes for a function that is not associative nothing is
    flattened. *)
Fixpoint flattenOp (h : string) (e : Expr) : list Expr :=
  match e with
  | BoxedFunction (HName n) xs _ =>
      if String.eqb n h then flat_map (flattenOp h) xs else [e]
  | _ => [e]
  end.

Definition flattenOps_model (xs : list Expr) (h : string) : list Expr :=
  if String.eqb h "" then xs else flat_map (flattenOp h) xs.

(** ** Validity, canonicity ([boxed-function.ts], [boxed-tensor.ts]) *)

(** [x.isValid]. *)
Fixpoint isValid (e : Expr) : bool :=
  match e with
  | BoxedFunction h xs _ =>
      match h with
      | HName n => negb (String.eqb n "Error")
      | HExpr he => isValid he
      end && forallb isValid xs
  | BoxedTensor (Some _) _ => true
  | BoxedTensor None ex => isValid ex
  | _ => true
  end.

(** [x.isCanonical]. *)
Fixpoint isCanonical (e : Expr) : bool :=
  match e with
  | BoxedFunction _ _ c => c
  | BoxedTensor (Some _) _ => true
  | BoxedTensor None ex => isCanonical ex
  | _ => true
  end.

(** ** Scopes and engine state ([compute-engine.ts]) *)

(** A rule [{ match, replace, condition?, id? }]; a substitution is the
    insertion-ordered map from capture names to expressions. *)
Definition Substitution := list (string * Expr).

Record Rule := mkRule {
  rule_match : Expr;
  rule_replace : Expr;
  rule_condition : option (Substitution -> bool);
  rule_id : option string }.

Definition BoxedRuleSet := list Rule.

(** A scope of the scope stack.  Identifier definitions are kept in the
    definition table of the engine interface below. *)
Inductive RuntimeScope := mkScope {
  timeLimit : option Q;
  memoryLimit : option Q;
  recursionLimit : option nat;
  iterationLimit : option nat;
  assumptions : list Expr;
  parentScope : option RuntimeScope }.

(** The mutable part of [ComputeEngine]: the current scope and the named
    caches. *)
Record Engine := mkEngine {
  context : option RuntimeScope;
  _cache : gmap string BoxedRuleSet }.

(** The outcome of a call: a value, an exception that propagates to the
    caller, or the exhaustion of the recursion budget of the model. *)
Inductive Outcome (A : Type) :=
| Returned (a : A)
| Thrown (error : string)
| OutOfFuel.
Arguments Returned {A} _.
Arguments Thrown {A} _.
Arguments OutOfFuel {A}.

Definition Eval (A : Type) : Type := Engine -> Outcome A * Engine.

Definition EvalM : Monad Eval :=
  {| ret := fun _ a eng => (Returned a, eng);
     bind := fun _ _ m k eng =>
       match m eng with
       | (Returned a, eng') => k a eng'
       | (Thrown err, eng') => (Thrown err, eng')
       | (OutOfFuel, eng') => (OutOfFuel, eng')
       end |}.

Definition throw {A : Type} (err : string) : Eval A :=
  fun eng => (Thrown err, eng).

Definition out_of_fuel {A : Type} : Eval A :=
  fun eng => (OutOfFuel, eng).

(** [ce.pushScope()]. *)
Definition pushScope : Eval unit :=
  fun eng =>
    match context eng with
    | None => (Thrown "No parent scope available", eng)
    | Some ctx =>
        (Returned tt,
         {| context := Some {| timeLimit := timeLimit ctx;
                               memoryLimit := memoryLimit ctx;
                               recursionLimit := recursionLimit ctx;
                               iterationLimit := iterationLimit ctx;
                               assumptions := assumptions ctx;
                               parentScope := Some ctx |};
            _cache := _cache eng |})
    end.

(** [ce.popScope()]. *)
Definition popScope : Eval unit :=
  fun eng =>
    match context eng with
    | None => (Thrown "No scope available", eng)
    | Some ctx =>
        (Returned tt, {| context := parentScope ctx; _cache := _cache eng |})
    end.

(** [ce.swapScope(scope)]: set the current scope, return the previous one. *)
Definition swapScope (scope : option RuntimeScope)
  : Eval (option RuntimeScope) :=
  fun eng =>
    (Returned (context eng), {| context := scope; _cache := _cache eng |}).

(** [ce.iterationLimit]. *)
Fixpoint scope_iterationLimit (scope : RuntimeScope) : nat :=
  match iterationLimit scope with
  | Some n => n
  | None =>
      match parentScope scope with
      | Some parent => scope_iterationLimit parent
      | None => 1024%nat
      end
  end.

Definition engine_iterationLimit (eng : Engine) : nat :=
  match context eng with
  | Some scope => scope_iterationLimit scope
  | None => 1024%nat
  end.

(** [ce.cache(cacheName, build)]: the value is built on the first request
    for the name and returned as it is afterwards. *)
Definition cache (cacheName : string) (build : unit -> BoxedRuleSet)
  : Eval BoxedRuleSet :=
  fun eng =>
    match _cache eng !! cacheName with
    | None =>
        let value := build tt in
        (Returned value,
         {| context := context eng;
            _cache := <[cacheName := value]> (_cache eng) |})
    | Some value => (Returned value, eng)
    end.

(** [xs.map(f)] for an effectful [f], left to right. *)
Fixpoint mapM {M : Type -> Type} (MM : Monad M) {A B : Type}
    (f : A -> M B) (xs : list A) : M (list B) :=
  match xs with
  | [] => ret MM []
  | x :: rest =>
      bind MM (f x) (fun y =>
      bind MM (mapM MM f rest) (fun ys => ret MM (y :: ys)))
  end.

(** [xs.map(f)] for an [f] that may fail to return. *)
Fixpoint mapM_option {A B : Type} (f : A -> option B) (xs : list A)
  : option (list B) :=
  match xs with
  | [] => Some []
  | x :: rest =>
      match f x, mapM_option f rest with
      | Some y, Some ys => Some (y :: ys)
      | _, _ => None
      end
  end.

(** ** Function definitions *)

(** A handler of a signature: it receives the engine and the operands, may
    return [undefined], may throw. *)
Definition Handler := list Expr -> Eval (option Expr).

Record FunctionSignature := mkSignature {
  sig_canonical : option Handler;
  sig_simplify : option Handler;
  sig_evaluate : option Handler;
  sig_N : option Handler }.

Record FunctionDefinition := mkDefinition {
  def_name : string;
  def_hold : Hold;
  def_pure : bool;
  def_associative : bool;
  def_commutative : bool;
  def_idempotent : bool;
  def_involution : bool;
  def_threadable : bool;
  def_inert : bool;
  def_complexity : nat;
  def_size : option (Expr -> nat);
  def_signature : FunctionSignature }.

(** ** The engine interface *)

(** The parts of the engine that the modelled files import or call and whose
    source is outside them. *)
Record EngineOps := mkOps {
  (** [ce.lookupFunction(head)]: the table of function definitions *)
  lookupFunction : string -> option FunctionDefinition;
  (** [x.scope]: the scope recorded when [x] was bound *)
  scopeOf : Expr -> option RuntimeScope;
  (** [flattenOps], [flattenSequence] ([symbolic/flatten]) *)
  flattenOps : list Expr -> string -> list Expr;
  flattenSequence : list Expr -> list Expr;
  (** [isFiniteIndexableCollection], [at] ([collection-utils]) *)
  isFiniteIndexableCollection : Expr -> bool;
  at_ : Expr -> Z -> option Expr;
  (** [apply] ([function-utils]) *)
  apply : Expr -> list Expr -> Expr;
  (** [x.canonical], [ce.box(x)] *)
  canonicalOf : Expr -> Expr;
  (** [ce.fn(head, ops)] *)
  fn : Head -> list Expr -> Expr;
  (** [evaluate]/[simplify] of numbers, strings and symbols *)
  evaluateAtom : bool -> Expr -> Expr;
  simplifyAtom : Expr -> Expr;
  (** [complexAllowed(ce)], [bignumPreferred(ce)] *)
  complexAllowed : bool;
  bignumPreferred : bool;
  (** [expand] ([symbolic/expand]) *)
  expand : Expr -> option Expr;
  (** [replace], [boxRules], [matchRules] ([rules]) *)
  replace : Expr -> BoxedRuleSet -> option Expr;
  boxRules : list Rule -> BoxedRuleSet;
  matchRules : Expr -> BoxedRuleSet -> Substitution -> list Expr;
  (** [SIMPLIFY_RULES] ([simplify-rules]) *)
  SIMPLIFY_RULES : list Rule;
  (** [ce.costFunction] *)
  costFunction : Expr -> Q;
  (** [a === b] on boxed expressions: identity of objects, which implies
      that the two expressions are the same *)
  sameObject : Expr -> Expr -> bool }.

Section Evaluation.
Context (ce : EngineOps).

(** [x.functionDefinition]: bound when a canonical expression is built. *)
Definition functionDefinition (e : Expr) : option FunctionDefinition :=
  match e with
  | BoxedFunction (HName n) _ true => lookupFunction ce n
  | BoxedTensor _ (BoxedFunction (HName n) _ true) => lookupFunction ce n
  | _ => None
  end.

(** [def?.hold ?? 'none'] and [def?.associative ? def.name : '']. *)
Definition hold_of (def : option FunctionDefinition) : Hold :=
  match def with Some d => def_hold d | None => hold_none end.

Definition associativeHead_of (def : option FunctionDefinition) : string :=
  match def with
  | Some d => if def_associative d then def_name d else ""
  | None => ""
  end.

(** The filter applied to the result of a handler. *)
Definition numeric_postfilter (result : Expr) : Expr :=
  match numericValue result with
  | Some (NComplex _ _) =>
      if negb (complexAllowed ce) then BoxedNumber (NMachine NaN) else result
  | Some (NDecimal x) =>
      if negb (bignumPreferred ce) then BoxedNumber (NMachine x) else result
  | _ => result
  end.

(** The operands of the [i]-th application of a threaded function. *)
Definition thread_args (xs : list Expr) (length : nat) (i : nat) : list Expr :=
  map (fun x =>
         if isFiniteIndexableCollection ce x
         then match at_ ce x (Z.of_nat i mod Z.of_nat length + 1) with
              | Some y => y
              | None => Nothing
              end
         else x) xs.

(** [Math.max(...this._ops.map((x) => x.functionDefinition?.size?.(x) ?? 0))]. *)
Definition thread_length (xs : list Expr) : nat :=
  list_max (map (fun x =>
                   match functionDefinition x with
                   | Some d => match def_size d with
                               | Some size => size x
                               | None => 0%nat
                               end
                   | None => 0%nat
                   end) xs).

(** [results.length === 0 ? ce.box(['Sequence']) : results.length === 1 ?
    results[0] : ce._fn('List', results)]. *)
Definition thread_result (results : list Expr) : Expr :=
  match results with
  | [] => canonicalOf ce (BoxedFunction "Sequence" [] false)
  | [r] => r
  | _ => _fn "List" results
  end.

(** The call of the [N] and [evaluate] handlers of a signature, between the
    two [swapScope]. *)
Definition call_handlers (numericMode : bool) (scope : option RuntimeScope)
    (sig : FunctionSignature) (tail : list Expr) : Eval (option Expr) :=
  bind EvalM (swapScope scope) (fun context =>
  bind EvalM (match numericMode, sig_N sig with
              | true, Some handler => handler tail
              | _, _ => ret EvalM None
              end) (fun result =>
  bind EvalM (match result, sig_evaluate sig with
              | None, Some handler => handler tail
              | _, _ => ret EvalM result
              end) (fun result =>
  bind EvalM (swapScope context) (fun _ =>
  ret EvalM result)))).

(** [BoxedFunction.evaluate(options)] for [this = BoxedFunction h xs c];
    [evaluate] stands for the method [evaluate] of the expressions it is
    called on. *)
Definition BoxedFunction_evaluate (evaluate : bool -> Expr -> Eval Expr)
    (numericMode : bool) (h : Head) (xs : list Expr) (c : bool)
  : Eval Expr :=
  let this := BoxedFunction h xs c in
  if negb (isValid this) then ret EvalM this
  else if numericMode && (headIs this "Integrate" || headIs this "Limit")
  then evaluate numericMode
         (canonicalOf ce (BoxedFunction "N" [this] false))
  else if negb (isCanonical this) then
    bind EvalM pushScope (fun _ =>
    let canonical := canonicalOf ce this in
    bind EvalM popScope (fun _ =>
    if negb (isCanonical canonical) || negb (isValid canonical)
    then ret EvalM this
    else evaluate numericMode canonical))
  else
    let def := functionDefinition this in
    if match def with Some d => def_threadable d | None => false end
       && existsb (isFiniteIndexableCollection ce) xs
    then
      let length := thread_length xs in
      bind EvalM
        (mapM EvalM
           (fun i => evaluate numericMode (_fn h (thread_args xs length i)))
           (seq 0 length))
        (fun results => ret EvalM (thread_result results))
    else
      bind EvalM
        (holdMap EvalM (flattenOps ce) xs (hold_of def)
           (associativeHead_of def)
           (fun x => bind EvalM (evaluate numericMode x)
                       (fun y => ret EvalM (Some y))))
        (fun tail =>
      if match def with Some d => def_inert d | None => false end
      then ret EvalM (hd this tail)
      else
        let applied :=
          match h with
          | HExpr f => Some (apply ce f tail)
          | HName _ => None
          end in
        bind EvalM
          (match applied, def with
           | None, Some d =>
               call_handlers numericMode (scopeOf ce this)
                 (def_signature d) tail
           | _, _ => ret EvalM applied
           end)
          (fun result =>
        ret EvalM
          (match result with
           | Some r => numeric_postfilter r
           | None => fn ce h tail
           end))).

(** [BoxedTensor.evaluate], [.simplify], [.N]: the receiver once the tensor
    form is materialised, else the method of its expression. *)
Definition BoxedTensor_method {R : Type} (_tensor : option (AbstractTensor Expr))
    (this : R) (expression_method : R) : R :=
  match _tensor with
  | Some _ => this
  | None => expression_method
  end.

(** [x.evaluate(options)], with a bound on the depth of the calls. *)
Fixpoint evaluate (fuel : nat) (numericMode : bool) (e : Expr) : Eval Expr :=
  match fuel with
  | O => out_of_fuel
  | S fuel' =>
      match e with
      | BoxedFunction h xs c =>
          BoxedFunction_evaluate (evaluate fuel') numericMode h xs c
      | BoxedTensor t ex =>
          BoxedTensor_method t (ret EvalM e) (evaluate fuel' numericMode ex)
      | _ => ret EvalM (evaluateAtom ce numericMode e)
      end
  end.

(** [x.N(options)] is [x.evaluate({ ...options, numericMode: true })]. *)
Definition N (fuel : nat) (e : Expr) : Eval Expr := evaluate fuel true e.

End Evaluation.

(** ** Simplification ([boxed-function.ts]) *)

Record SimplifyOptions := mkSimplifyOptions {
  opt_recursive : option bool;
  opt_rules : option BoxedRuleSet }.

Section Simplification.
Context (ce : EngineOps).

(** [cheapest(oldExpr, newExpr)]: the new expression unless it costs more
    than 1.2 times the old one. *)
Definition cheapest (oldExpr : Expr) (newExpr : option Expr) : Expr :=
  match newExpr with
  | None => oldExpr
  | Some newExpr =>
      if sameObject ce oldExpr newExpr then oldExpr
      else
        let boxedNewExpr := canonicalOf ce newExpr in
        if Qle_bool (costFunction ce boxedNewExpr)
                    (1.2 * costFunction ce oldExpr)
        then boxedNewExpr
        else oldExpr
  end.

(** One pass of the body of the [do ... while] loop of [simplify]: the
    expression after the pass and the flag [done]. *)
Definition rule_pass (rules : BoxedRuleSet) (expr : Expr) : Expr * bool :=
  match replace ce expr rules with
  | Some newExpr =>
      let expr' := cheapest expr (Some newExpr) in
      (expr', sameObject ce expr' newExpr)
  | None => (expr, true)
  end.

(** The loop [do { ... } while (!done && iterationCount < iterationLimit)];
    [remaining] is [iterationLimit - 1 - iterationCount] at the start of a
    pass. *)
Fixpoint rule_loop (rules : BoxedRuleSet) (remaining : nat) (expr : Expr)
  : Expr :=
  let (expr', done) := rule_pass rules expr in
  match remaining with
  | O => expr'
  | S remaining' => if done then expr' else rule_loop rules remaining' expr'
  end.

Definition get_iterationLimit : Eval nat :=
  fun eng => (Returned (engine_iterationLimit eng), eng).

(** [BoxedFunction.simplify(options)] for [this = BoxedFunction h xs c]. *)
Definition BoxedFunction_simplify
    (simplify : SimplifyOptions -> Expr -> Eval Expr)
    (options : SimplifyOptions) (h : Head) (xs : list Expr) (c : bool)
  : Eval Expr :=
  let this := BoxedFunction h xs c in
  if negb (isValid this) then ret EvalM this
  else if negb (isCanonical this) then
    let canonical := canonicalOf ce this in
    if negb (isCanonical canonical) || negb (isValid canonical)
    then ret EvalM this
    else simplify options canonical
  else
    let recursive :=
      match opt_recursive options with Some b => b | None => true end in
    match (if recursive then expand ce this else None) with
    | Some expr =>
        bind EvalM
          (simplify {| opt_recursive := Some false;
                       opt_rules := opt_rules options |} expr)
          (fun expr => ret EvalM (cheapest this (Some expr)))
    | None =>
        let def := functionDefinition ce this in
        bind EvalM
          (if recursive
           then holdMap EvalM (flattenOps ce) xs (hold_of def)
                  (associativeHead_of def)
                  (fun x => bind EvalM (simplify options x)
                              (fun y => ret EvalM (Some y)))
           else ret EvalM xs)
          (fun tail =>
        match h with
        | HExpr f =>
            let expr := apply ce f tail in
            match head expr with
            | HExpr _ => ret EvalM expr
            | HName _ => simplify options expr
            end
        | HName _ =>
            bind EvalM
              (match def with
               | Some d =>
                   if def_inert d
                   then ret EvalM
                          (Some (match tail with
                                 | t0 :: _ => canonicalOf ce t0
                                 | [] => this
                                 end))
                   else match sig_simplify (def_signature d) with
                        | Some handler => handler tail
                        | None => ret EvalM None
                        end
               | None => ret EvalM None
               end)
              (fun handled =>
            let expr :=
              match handled with
              | None => fn ce h tail
              | Some e => cheapest (fn ce h tail) (Some e)
              end in
            let expr := cheapest this (Some expr) in
            bind EvalM
              (match opt_rules options with
               | Some rules => ret EvalM rules
               | None =>
                   cache "standard-simplification-rules"
                     (fun _ => boxRules ce (SIMPLIFY_RULES ce))
               end)
              (fun rules =>
            bind EvalM get_iterationLimit (fun limit =>
            let expr := rule_loop rules (limit - 1) expr in
            ret EvalM (cheapest this (Some expr)))))
        end)
    end.

(** [x.simplify(options)], with a bound on the depth of the calls. *)
Fixpoint simplify (fuel : nat) (options : SimplifyOptions) (e : Expr)
  : Eval Expr :=
  match fuel with
  | O => out_of_fuel
  | S fuel' =>
      match e with
      | BoxedFunction h xs c =>
          BoxedFunction_simplify (simplify fuel') options h xs c
      | BoxedTensor t ex =>
          BoxedTensor_method t (ret EvalM e) (simplify fuel' options ex)
      | _ => ret EvalM (simplifyAtom ce e)
      end
  end.

(** [BoxedTensor.isPure]; [BoxedFunction.isPure]. *)
Fixpoint isPure (e : Expr) : bool :=
  match e with
  | BoxedFunction h xs c =>
      if negb c then false
      else
        match functionDefinition ce (BoxedFunction h xs c) with
        | Some d => def_pure d && forallb isPure xs
        | None => false
        end
  | BoxedTensor (Some _) _ => true
  | BoxedTensor None ex => isPure ex
  | _ => true
  end.

End Simplification.

(** ** The numeric interface *)

(** The predicates of boxed expressions and the helpers of the number
    kernel ([numerics/], [boxed-expression/utils], [collection-utils],
    [boxed-expression/order], the canonical forms of the other arithmetic
    heads) that the canonical forms below call.  A predicate returns
    [boolean | undefined]. *)
Record NumericOps := mkNumericOps {
  isZero : Expr -> option bool;
  isOne : Expr -> option bool;
  isNegativeOne : Expr -> option bool;
  isPositive : Expr -> option bool;
  isNegative : Expr -> option bool;
  isNonNegative : Expr -> option bool;
  isInfinity : Expr -> option bool;
  isReal : Expr -> option bool;
  asFloat : Expr -> option JSNumber;
  asSmallInteger : Expr -> option Z;
  asRational : Expr -> option (Z * Z);
  factorPower : Z -> Z -> Z * Z;
  getImaginaryCoef : Expr -> option JSNumber;
  isIndexableCollection : Expr -> bool;
  sortAdd : list Expr -> list Expr;
  boxNumber : NumericValue -> Expr;
  canonicalNegate : Expr -> Expr;
  canonicalMultiply : list Expr -> Expr;
  canonicalDivide : Expr -> Expr -> Expr }.

(** Truthiness of a [boolean | undefined]. *)
Definition truthy (b : option bool) : bool :=
  match b with Some true => true | _ => false end.

(** The shared numeric constants of the engine. *)
Definition Zero : Expr := BoxedNumber (NMachine (Finite 0)).
Definition One : Expr := BoxedNumber (NMachine (Finite 1)).
Definition NegativeOne : Expr := BoxedNumber (NMachine (Finite (-1))).
Definition Half : Expr := BoxedNumber (NRational 1 2).
Definition ce_NaN : Expr := BoxedNumber (NMachine NaN).
Definition PositiveInfinity : Expr := BoxedNumber (NMachine PosInfinity).
Definition NegativeInfinity : Expr := BoxedNumber (NMachine NegInfinity).
Definition ComplexInfinity : Expr :=
  BoxedNumber (NComplex PosInfinity PosInfinity).

Definition js_isInteger (x : JSNumber) : bool :=
  match x with
  | Finite q => Qeq_bool q (inject_Z (Qfloor q))
  | _ => false
  end.

Definition js_toZ (x : JSNumber) : Z :=
  match x with Finite q => Qfloor q | _ => 0 end.

Section CanonicalForms.
Context (k : NumericOps).

(** [ce.number(value)]: the shared instance of 1, 0, -1, NaN and the
    infinities, else [boxNumber(value)]. *)
Definition number (value : NumericValue) : Expr :=
  match value with
  | NMachine n =>
      if js_eqb n (Finite 1) then One
      else if js_eqb n (Finite 0) then Zero
      else if js_eqb n (Finite (-1)) then NegativeOne
      else match n with
           | Finite _ => boxNumber k value
           | NaN => ce_NaN
           | NegInfinity => NegativeInfinity
           | PosInfinity => PositiveInfinity
           end
  | _ => boxNumber k value
  end.

(** *** [canonicalAdd] ([arithmetic-add.ts]) *)

(** The attempt to read two operands as [a + ib] or [ai + b]. *)
Definition add_complex (x y : Expr) : option Expr :=
  let re := asFloat k x in
  let '(re, im) :=
    match re with
    | Some r =>
        if negb (js_eqb r (Finite 0)) then (re, getImaginaryCoef k y)
        else
          let im := getImaginaryCoef k x in
          (if match im with Some i => negb (js_eqb i (Finite 0)) | None => true end
              && match numericValue y with Some _ => true | None => false end
           then asFloat k y else re, im)
    | None =>
        let im := getImaginaryCoef k x in
        (if match im with Some i => negb (js_eqb i (Finite 0)) | None => true end
            && match numericValue y with Some _ => true | None => false end
         then asFloat k y else re, im)
    end in
  match re, im with
  | Some r, Some i =>
      if negb (js_eqb i (Finite 0)) then Some (number (NComplex r i)) else None
  | _, _ => None
  end.

(** The operands that [canonicalAdd] keeps: all but the literal zeros. *)
Definition add_operands (ops : list Expr) : list Expr :=
  List.filter
    (fun x => match numericValue x with
              | None => true
              | Some _ => negb (truthy (isZero k x))
              end) ops.

(** [canonicalAdd(ce, ops)]. *)
Definition canonicalAdd (ops : list Expr) : Expr :=
  let ops := add_operands ops in
  match ops with
  | [] => Zero
  | x :: rest =>
      if (length ops =? 1)%nat && negb (isIndexableCollection k x) then x
      else
        match match ops with
              | [a; b] => add_complex a b
              | _ => None
              end with
        | Some z => z
        | None =>
            let ops := if (1 <? length ops)%nat then sortAdd k ops else ops in
            _fn "Add" ops
        end
  end.

(** *** [ce.inv], [ce.pow] ([compute-engine.ts]) and [canonicalPower]
        ([arithmetic-power.ts]) *)

(** [ce.inv(expr)]. *)
Fixpoint inv (fuel : nat) (expr : Expr) : option Expr :=
  match fuel with
  | O => None
  | S fuel' =>
      if truthy (isOne k expr) then Some One
      else if truthy (isNegativeOne k expr) then Some NegativeOne
      else if truthy (isInfinity k expr) then Some Zero
      else
        match numericValue expr with
        | Some n =>
            match n with
            | NRational a b => Some (number (NRational b a))
            | NMachine x =>
                if js_isInteger x then Some (number (NRational 1 (js_toZ x)))
                else Some (_fn "Divide" [One; expr])
            | NDecimal x =>
                if js_isInteger x then Some (number (NRational 1 (js_toZ x)))
                else Some (_fn "Divide" [One; expr])
            | NComplex _ _ => Some (_fn "Divide" [One; expr])
            end
        | None =>
            if headIs expr "Sqrt" then
              match inv fuel' (op1 expr) with
              | Some y => Some (_fn "Sqrt" [y])
              | None => None
              end
            else if headIs expr "Divide" then
              Some (_fn "Divide" [op1 expr; op2 expr])
            else if headIs expr "Power" then
              if truthy (isNegativeOne k (op2 expr)) then Some (op1 expr)
              else
                let e := canonicalNegate k (op2 expr) in
                if truthy (isNegativeOne k e)
                then Some (_fn "Divide" [One; op1 expr])
                else Some (_fn "Power" [op1 expr; e])
            else
              (* [e] is [ce.NegativeOne] *)
              if truthy (isNegativeOne k NegativeOne)
              then Some (_fn "Divide" [One; expr])
              else Some (_fn "Power" [expr; NegativeOne])
        end
  end.

(** The exponent of [ce.pow]: [number | Rational | BoxedExpression]. *)
Inductive Exponent :=
| ExpNumber (x : JSNumber)
| ExpRational (numer denom : Z)
| ExpBoxed (e : Expr).

(** The end of [ce.pow], from the test [e === 0] on: [exponent] is the
    exponent after its numeric value has been taken, [e] the number that it
    is, if any. *)
Definition pow_finish (canonicalPower : Expr -> Expr -> option Expr)
    (base : Expr) (exponent : Exponent) (e : option JSNumber) : option Expr :=
  if match e with Some x => js_eqb x (Finite 0) | None => false end
  then Some One
  else if match e with Some x => js_eqb x (Finite 1) | None => false end
  then Some base
  else
    match (if match e with Some x => js_eqb x (Finite (-1)) | None => false end
           then match numericValue base with
                | Some (NMachine r) =>
                    if js_isInteger r
                    then Some (number (NRational 1 (js_toZ r)))
                    else None
                | Some (NDecimal r) =>
                    if js_isInteger r
                    then Some (number (NRational 1 (js_toZ r)))
                    else None
                | Some (NRational a b) => Some (number (NRational b a))
                | _ => None
                end
           else None) with
    | Some r => Some r
    | None =>
        canonicalPower base
          match exponent with
          | ExpNumber x => number (NMachine x)
          | ExpRational a b => number (NRational a b)
          | ExpBoxed x => x
          end
    end.

(** [ce.pow(base, exponent)], [canonicalPower] being the function it ends
    with.  (The branch for a [Complex] exponent is outside the declared
    type of [exponent].) *)
Definition pow_with (canonicalPower : Expr -> Expr -> option Expr)
    (base : Expr) (exponent : Exponent) : option Expr :=
  let exponent :=
    match exponent with
    | ExpBoxed x =>
        match numericValue x with
        | Some (NMachine n) => ExpNumber n
        | Some (NRational a b) => ExpRational a b
        | _ => exponent
        end
    | _ => exponent
    end in
  match exponent with
  | ExpNumber x => pow_finish canonicalPower base exponent (Some x)
  | ExpRational a b =>
      if a =? 0 then Some One
      else if a =? b then Some base
      else if b =? 1
      then pow_finish canonicalPower base exponent (Some (js_of_Z a))
      else pow_finish canonicalPower base exponent None
  | ExpBoxed _ => pow_finish canonicalPower base exponent None
  end.

(** The block of [canonicalPower] for a numeric base and a numeric
    exponent; [None] when it falls through. *)
Definition power_numeric (inv : Expr -> option Expr) (base exponent : Expr)
  : option (option Expr) :=
  let numBase := asFloat k base in
  if match numBase with Some x => js_eqb x (Finite 1) | None => false end
  then Some (Some One)
  else
  match (if match numBase with Some x => js_eqb x (Finite 0) | None => false end
         then if truthy (isPositive k exponent) then Some Zero
              else if truthy (isNegative k exponent) then Some ComplexInfinity
              else None
         else None) with
  | Some r => Some (Some r)
  | None =>
  if truthy (isNegativeOne k exponent) then Some (inv base)
  else
  let e := asFloat k exponent in
  let e_is (q : Q) := match e with Some x => js_eqb x (Finite q) | None => false end in
  if e_is 0.5%Q || e_is (-0.5)%Q then
    match asSmallInteger k base with
    | Some b =>
        if 0 <? b then
          let '(coef, radicand) := factorPower k b 2 in
          if (radicand =? 1) && (coef =? 1) then Some (Some One)
          else if negb (coef =? 1) then
            if radicand =? 1
            then Some (Some (if e_is 0.5%Q
                             then number (NMachine (js_of_Z coef))
                             else number (NRational 1 coef)))
            else Some (Some (canonicalMultiply k
                               [number (NMachine (js_of_Z coef));
                                _fn "Sqrt" [number (NMachine (js_of_Z radicand))]]))
          else if e_is 0.5%Q then Some (Some (_fn "Sqrt" [base]))
          else Some (inv (_fn "Sqrt" [base]))
        else if e_is 0.5%Q then Some (Some (_fn "Power" [base; Half]))
        else Some (Some (_fn "Power" [base; number (NRational (-1) 2)]))
    | None =>
        if e_is 0.5%Q then Some (Some (_fn "Power" [base; Half]))
        else Some (Some (_fn "Power" [base; number (NRational (-1) 2)]))
    end
  else
  match (if truthy (isInfinity k base) then
           match (match numericValue exponent with
                  | Some (NComplex re _) =>
                      if js_eqb re (Finite 0) then Some ce_NaN
                      else if js_ltb re (Finite 0) then Some Zero
                      else if js_ltb (Finite 0) re then Some ComplexInfinity
                      else None
                  | _ => None
                  end) with
           | Some r => Some r
           | None =>
               if truthy (isNegative k base) then
                 if truthy (isInfinity k exponent) then Some ce_NaN else None
               else if truthy (isPositive k base) then
                 if truthy (isNegativeOne k exponent) then Some Zero
                 else if truthy (isInfinity k exponent)
                 then Some (if truthy (isNegative k exponent)
                            then Zero else PositiveInfinity)
                 else None
               else None
           end
         else None) with
  | Some r => Some (Some r)
  | None =>
      if truthy (isInfinity k exponent)
         && (truthy (isOne k base) || truthy (isNegativeOne k base))
      then Some (Some ce_NaN)
      else None
  end
  end.

(** [canonicalPower(ce, base, exponent)]; the fuel bounds the depth of the
    calls through [ce.pow] and [ce.inv]. *)
Fixpoint canonicalPower (fuel : nat) (base exponent : Expr) : option Expr :=
  match fuel with
  | O => None
  | S fuel' =>
      let pow := pow_with (canonicalPower fuel') in
      if match symbol exponent with
         | Some s => String.eqb s "ComplexInfinity"
         | None => false
         end then Some ce_NaN
      else if truthy (isZero k exponent) then Some One
      else if truthy (isOne k exponent) then Some base
      else if truthy (isNegativeOne k exponent) then inv fuel' base
      else
        match (match numericValue exponent, numericValue base with
               | Some _, Some _ => power_numeric (inv fuel') base exponent
               | _, _ => None
               end) with
        | Some r => r
        | None =>
            match (if headIs base "Power" && truthy (isReal k (op1 base)) then
                     match asSmallInteger k exponent, asSmallInteger k (op2 base) with
                     | Some a, Some b =>
                         Some (pow (op1 base)
                                 (ExpBoxed (number (NMachine (js_of_Z (a * b))))))
                     | _, _ =>
                         if truthy (isNonNegative k (op1 base)) then
                           match asRational k exponent, asRational k (op2 base) with
                           | Some (an, ad), Some (bn, bd) =>
                               Some (pow (op1 base)
                                       (ExpBoxed (number (NRational (an * bn) (ad * bd)))))
                           | _, _ => None
                           end
                         else None
                     end
                   else None) with
            | Some r => r
            | None =>
                match (if headIs base "Multiply"
                       then asSmallInteger k exponent else None) with
                | Some _ =>
                    match mapM_option
                            (fun x => pow x (ExpBoxed exponent))
                            (match ops base with Some xs => xs | None => [] end) with
                    | Some ys => Some (_fn "Multiply" ys)
                    | None => None
                    end
                | None => Some (_fn "Power" [base; exponent])
                end
            end
        end
  end.

(** [ce.pow]. *)
Definition pow (fuel : nat) (base : Expr) (exponent : Exponent) : option Expr :=
  pow_with (canonicalPower fuel) base exponent.

End CanonicalForms.

(** ** Structural equality and hashes ([boxed-function.ts],
       [boxed-tensor.ts]) *)

(** [x | 0]: the signed 32-bit integer of a number. *)
Definition to_int32 (z : Z) : Z := (z + 2 ^ 31) mod 2 ^ 32 - 2 ^ 31.

(** [a ^ b] and [a << 1] on JavaScript numbers. *)
Definition js_xor (a b : Z) : Z := to_int32 (Z.lxor (to_int32 a) (to_int32 b)).
Definition js_shl1 (a : Z) : Z := to_int32 (Z.shiftl (to_int32 a) 1).

Definition jsnumber_eqb (a b : JSNumber) : bool :=
  match a, b with
  | Finite x, Finite y => Qeq_bool x y
  | PosInfinity, PosInfinity => true
  | NegInfinity, NegInfinity => true
  | NaN, NaN => true
  | _, _ => false
  end.

(** The same kernel number. *)
Definition numeric_eqb (v w : NumericValue) : bool :=
  match v, w with
  | NMachine x, NMachine y => jsnumber_eqb x y
  | NDecimal x, NDecimal y => jsnumber_eqb x y
  | NComplex a b, NComplex c d => jsnumber_eqb a c && jsnumber_eqb b d
  | NRational a b, NRational c d => (a =? c) && (b =? d)
  | _, _ => false
  end.

Section Identity.
(** [hashCode] ([boxed-expression/utils]), the hash of a boxed number,
    [this.tensor.equals(rhs.tensor)] on two tensors, and the comparison of
    two heads that are expressions,
    [ce.box(this.head).isSame(ce.box(rhs.head))]. *)
Context (hashCode : string -> Z).
Context (hashNumber : NumericValue -> Z).
Context (tensor_equals : Expr -> Expr -> bool).
Context (head_isSame : Expr -> Expr -> bool).

(** [x.hash].  A function combines the hashes of its operands, in order,
    and of its head; a tensor has the hash of the name of its class;
    a symbol and a string have the hash of their characters. *)
Fixpoint hash (e : Expr) : Z :=
  match e with
  | BoxedNumber v => hashNumber v
  | BoxedSymbol name => hashCode name
  | BoxedString s => hashCode s
  | BoxedFunction h xs _ =>
      let h0 := fold_left (fun acc op => to_int32 (js_xor (js_shl1 acc) (hash op)))
                  xs 0 in
      match h with
      | HName n => to_int32 (js_xor h0 (hashCode n))
      | HExpr he => to_int32 (js_xor h0 (hash he))
      end
  | BoxedTensor _ _ => hashCode "BoxedTensor"
  end.

(** [this.isSame(rhs)]: structural equality.  (The shortcut [this === rhs]
    answers [true] for one and the same object, whose hash is one number.) *)
Fixpoint isSame (this rhs : Expr) : bool :=
  match this with
  | BoxedNumber v =>
      match rhs with BoxedNumber w => numeric_eqb v w | _ => false end
  | BoxedSymbol a =>
      match rhs with BoxedSymbol b => String.eqb a b | _ => false end
  | BoxedString a =>
      match rhs with BoxedString b => String.eqb a b | _ => false end
  | BoxedFunction h xs _ =>
      match rhs with
      | BoxedFunction h' ys _ =>
          (length xs =? length ys)%nat
          && match h, h' with
             | HName a, HName b => String.eqb a b
             | HExpr a, HExpr b => head_isSame a b
             | _, _ => false
             end
          && (fix same_ops (xs ys : list Expr) : bool :=
                match xs, ys with
                | x :: xs', y :: ys' => isSame x y && same_ops xs' ys'
                | [], _ => true
                | _ :: _, [] => false
                end) xs ys
      | _ => false
      end
  | BoxedTensor _ ex =>
      match rhs with
      | BoxedTensor _ _ => tensor_equals this rhs
      | _ => isSame ex rhs
      end
  end.

End Identity.

(** ** Substitution and occurrence ([boxed-function.ts]) *)

(** [x.has(name)]. *)
Fixpoint has (e : Expr) (x : string) : bool :=
  match e with
  | BoxedSymbol n => String.eqb n x
  | BoxedFunction h xs _ =>
      match h with HName n => String.eqb n x | HExpr _ => false end
      || existsb (fun arg => has arg x) xs
  | BoxedTensor _ ex => has ex x
  | _ => false
  end.

Definition lookup_sub (sub : Substitution) (name : string) : option Expr :=
  match List.find (fun p => String.eqb (fst p) name) sub with
  | Some p => Some (snd p)
  | None => None
  end.

(** [x.subs(sub, { canonical: false })]. *)
Fixpoint subs_noncanonical (sub : Substitution) (e : Expr) : Expr :=
  match e with
  | BoxedSymbol n =>
      match lookup_sub sub n with Some v => v | None => e end
  | BoxedFunction h xs _ =>
      BoxedFunction h (map (subs_noncanonical sub) xs) false
  | _ => e
  end.

(** ** The univariate solver ([solve.ts]) *)

(** A pattern or replacement as it is written in a rule: a MathJSON
    expression, not canonical. *)
Definition pat (h : string) (xs : list Expr) : Expr :=
  BoxedFunction h xs false.

Section Solver.
Context (k : NumericOps) (ce : EngineOps).

(** [!name.has(x)], [name.has(x)] and [!name.isZero] on the capture [name]
    of a substitution (every condition reads captures that its pattern
    binds). *)
Definition lacks (sub : Substitution) (name x : string) : bool :=
  match lookup_sub sub name with
  | Some e => negb (has e x)
  | None => false
  end.

Definition contains (sub : Substitution) (name x : string) : bool :=
  match lookup_sub sub name with
  | Some e => has e x
  | None => false
  end.

Definition notZero (sub : Substitution) (name : string) : bool :=
  match lookup_sub sub name with
  | Some e => negb (truthy (isZero k e))
  | None => false
  end.

(** [(!__a.isZero && ce.div(__c, __a).isNegative) ?? false]. *)
Definition ratio_negative (sub : Substitution) (c a : string) : bool :=
  match lookup_sub sub c, lookup_sub sub a with
  | Some ec, Some ea =>
      negb (truthy (isZero k ea))
      && truthy (isNegative k (canonicalDivide k ec ea))
  | _, _ => false
  end.

Definition quadratic_match : Expr :=
  pat "Add" [pat "Multiply" [sym "__a"; pat "Power" [sym "_x"; num 2]];
             pat "Multiply" [sym "__b"; sym "_x"];
             sym "__c"].

Definition discriminant_root : Expr :=
  pat "Sqrt" [pat "Subtract" [pat "Square" [sym "__b"];
                              pat "Multiply" [num 4; sym "__a"; sym "__c"]]].

Definition quadratic_condition (sub : Substitution) : bool :=
  lacks sub "__a" "_x" && lacks sub "__b" "_x" && lacks sub "__c" "_x".

Definition exp_condition (sub : Substitution) : bool :=
  ratio_negative sub "__c" "__a"
  && lacks sub "__a" "_x" && lacks sub "__c" "_x".

(** [UNIVARIATE_ROOTS]. *)
Definition UNIVARIATE_ROOTS : list Rule :=
  [ (* ax = 0 *)
    mkRule (pat "Multiply" [sym "_x"; sym "__a"]) (num 0)
      (Some (fun sub => lacks sub "__a" "_x")) (Some "ax");
    (* a/x + b = 0 *)
    mkRule (pat "Add" [pat "Divide" [sym "_a"; sym "_x"]; sym "__b"])
      PositiveInfinity
      (Some (fun sub => lacks sub "_a" "_x" && lacks sub "__b" "_x")) None;
    (* ax + b = 0 *)
    mkRule (pat "Add" [pat "Multiply" [sym "_x"; sym "__a"]; sym "__b"])
      (pat "Divide" [pat "Negate" [sym "__b"]; sym "__a"])
      (Some (fun sub => lacks sub "__a" "_x" && lacks sub "__b" "_x")) None;
    (* ax^n + b = 0 *)
    mkRule
      (pat "Add" [pat "Multiply" [sym "_a"; pat "Power" [sym "_x"; sym "_n"]];
                  sym "__b"])
      (pat "Divide" [pat "Power" [pat "Negate" [sym "__b"];
                                  pat "Divide" [num 1; sym "_n"]];
                     sym "_a"])
      (Some (fun sub => lacks sub "_a" "_x" && lacks sub "__b" "_x"
                        && notZero sub "_n")) None;
    (* ax^2 + bx + c = 0, the two branches of the quadratic formula *)
    mkRule quadratic_match
      (pat "Divide" [pat "Add" [pat "Negate" [sym "__b"]; discriminant_root];
                     pat "Multiply" [num 2; sym "__a"]])
      (Some quadratic_condition) None;
    mkRule quadratic_match
      (pat "Divide" [pat "Subtract" [pat "Negate" [sym "__b"]; discriminant_root];
                     pat "Multiply" [num 2; sym "__a"]])
      (Some quadratic_condition) None;
    (* a * e^(bx) + c = 0 *)
    mkRule
      (pat "Add" [pat "Multiply" [sym "__a";
                                  pat "Exp" [pat "Multiply" [sym "__b"; sym "_x"]]];
                  sym "__c"])
      (pat "Divide" [pat "Ln" [pat "Negate" [pat "Divide" [sym "__c"; sym "__a"]]];
                     sym "__b"])
      (Some exp_condition) None;
    (* a * e^(x) + c = 0 *)
    mkRule
      (pat "Add" [pat "Multiply" [sym "__a"; pat "Exp" [sym "_x"]]; sym "__c"])
      (pat "Ln" [pat "Negate" [pat "Divide" [sym "__c"; sym "__a"]]])
      (Some exp_condition) None ].

Definition abs_match : Expr :=
  pat "Add" [pat "Abs" [pat "Add" [pat "Multiply" [sym "__a"; sym "_x"];
                                   sym "__b"]];
             sym "__c"].

(** [HARMONIZATION_RULES]. *)
Definition HARMONIZATION_RULES : list Rule :=
  [ (* |ax + b| + c -> ax+b+c, -ax-b+c *)
    mkRule abs_match
      (pat "Add" [pat "Multiply" [sym "__a"; sym "_x"]; sym "__b"; sym "__c"])
      None None;
    mkRule abs_match
      (pat "Add" [pat "Negate" [pat "Multiply" [sym "__a"; sym "_x"]];
                  pat "Negate" [sym "__b"]; sym "__c"])
      None None;
    (* a(b^n) -> a *)
    mkRule (pat "Multiply" [sym "__a"; pat "Power" [sym "_b"; sym "_n"]])
      (sym "_b")
      (Some (fun sub => lacks sub "__a" "_x" && contains sub "_b" "_x"
                        && notZero sub "_n")) None;
    (* a sqrt(b(x)) -> a^2 b(x) *)
    mkRule (pat "Multiply" [sym "__a"; pat "Sqrt" [sym "_b"]])
      (pat "Multiply" [pat "Square" [sym "_a"]; sym "__b"])
      (Some (fun sub => contains sub "_b" "_x")) None;
    (* a(x)/b -> a(x) *)
    mkRule (pat "Divide" [sym "_a"; sym "_b"]) (sym "_a")
      (Some (fun sub => contains sub "_a" "_x" && notZero sub "_b")) None;
    (* ab(x) -> b(x) *)
    mkRule (pat "Multiply" [sym "__a"; sym "_b"]) (sym "_b")
      (Some (fun sub => lacks sub "__a" "_x" && contains sub "_b" "_x")) None;
    (* ln(a(x)) + ln(b(x)) + c -> ln(a(x) b(x)) + c *)
    mkRule (pat "Add" [pat "Ln" [sym "_a"]; pat "Ln" [sym "_b"]; sym "__c"])
      (pat "Add" [pat "Ln" [pat "Multiply" [sym "_a"; sym "_b"]]; sym "__c"])
      None None;
    (* e^a * e^b -> e^(a+b) *)
    mkRule (pat "Multiply" [pat "Exp" [sym "__a"]; pat "Exp" [sym "__b"];
                            sym "__c"])
      (pat "Multiply" [pat "Exp" [pat "Add" [sym "_a"; sym "_b"]]; sym "__c"])
      None None;
    (* ln(f(x)) -> f(x) - 1 *)
    mkRule (pat "Ln" [sym "_a"]) (pat "Subtract" [sym "_a"; num 1])
      (Some (fun sub => contains sub "_a" "_x")) None;
    (* sin(f(x)) -> f(x) *)
    mkRule (pat "Sin" [sym "_a"]) (sym "_a")
      (Some (fun sub => contains sub "_a" "_x")) None;
    (* cos(f(x)) -> f(x) - pi/2 *)
    mkRule (pat "Cos" [sym "_a"])
      (pat "Subtract" [sym "_a"; pat "Divide" [sym "Pi"; num 2]])
      (Some (fun sub => contains sub "_a" "_x")) None;
    (* tan(f(x)) -> f(x) *)
    mkRule (pat "Tan" [sym "_a"]) (sym "_a")
      (Some (fun sub => contains sub "_a" "_x")) None;
    (* sin(a) + cos(a) -> 1 *)
    mkRule (pat "Add" [pat "Sin" [sym "_a"]; pat "Cos" [sym "_a"]]) (num 1)
      (Some (fun sub => contains sub "_a" "_x")) None;
    (* sin^2(a) - cos^2(a) -> sin(x) +/- sqrt(2)/2 *)
    mkRule (pat "Subtract" [pat "Square" [pat "Sin" [sym "_a"]];
                            pat "Square" [pat "Cos" [sym "_a"]]])
      (pat "PlusMinus" [pat "Sin" [sym "_a"];
                        pat "Divide" [pat "Sqrt" [num 2]; num 2]])
      (Some (fun sub => contains sub "_a" "_x")) None ].

(** [harmonize(expr)]. *)
Definition harmonize (expr : Expr) : Eval (list Expr) :=
  bind EvalM
    (cache "univariate-roots-rules"
       (fun _ => boxRules ce HARMONIZATION_RULES))
    (fun rules =>
  ret EvalM (matchRules ce expr rules [("_x", sym "_x")])).

(** [ce.add(ops)]. *)
Definition ce_add (xs : list Expr) : Expr :=
  canonicalAdd k (flattenOps ce (flattenSequence ce xs) "Add").

Definition no_options : SimplifyOptions :=
  {| opt_recursive := None; opt_rules := None |}.

(** [exprs.flatMap((expr) => harmonize(expr))]. *)
Definition harmonize_all (exprs : list Expr) : Eval (list Expr) :=
  bind EvalM (mapM EvalM harmonize exprs) (fun forms =>
  ret EvalM (concat forms)).

(** [findUnivariateRoots(expr, x)]. *)
Definition findUnivariateRoots (fuel : nat) (expr : Expr) (x : string)
  : Eval (list Expr) :=
  bind EvalM
    (if headIs expr "Equal"
     then simplify ce fuel no_options
            (ce_add [canonicalOf ce (op1 expr);
                     canonicalNegate k (canonicalOf ce (op2 expr))])
     else ret EvalM expr)
    (fun expr =>
  bind EvalM
    (cache "univariate-roots-rules" (fun _ => boxRules ce UNIVARIATE_ROOTS))
    (fun rules =>
  let exprs := [subs_noncanonical [(x, sym "_x")] expr] in
  let result :=
    flat_map (fun e => matchRules ce e rules [("_x", sym "_x")]) exprs in
  bind EvalM
    (if (length result =? 0)%nat then
       bind EvalM (harmonize_all exprs) (fun exprs =>
       ret EvalM
         (exprs,
          flat_map (fun e => matchRules ce e rules [("_x", sym x)]) exprs))
     else ret EvalM (exprs, result))
    (fun '(exprs, result) =>
  bind EvalM
    (if (length result =? 0)%nat then
       let exprs :=
         flat_map (fun e => match expand ce (canonicalOf ce e) with
                            | Some e' => [e']
                            | None => []
                            end) exprs in
       bind EvalM (harmonize_all exprs) (fun exprs =>
       ret EvalM
         (flat_map (fun e => matchRules ce e rules [("_x", sym x)]) exprs))
     else ret EvalM result)
    (fun result =>
  mapM EvalM (fun root => evaluate ce fuel false root) result)))).

(** [BoxedFunction.solve(vars)]. *)
Definition solve (fuel : nat) (this : Expr) (vars : list string)
  : Eval (option (list Expr)) :=
  match vars with
  | [x] =>
      bind EvalM (simplify ce fuel no_options this) (fun simplified =>
      bind EvalM (findUnivariateRoots fuel simplified x) (fun roots =>
      ret EvalM (Some roots)))
  | _ => ret EvalM None
  end.

End Solver.

(** ** Reference implementations of the interfaces

    The interfaces above leave open the parts of the engine that lie
    outside the modelled files.  To run the modelled code on concrete
    expressions they are filled in here, following the specification.  The
    theorems of Part II that quantify over an interface do not depend on
    these choices. *)

(** Modelled from the spec: [flattenSequence] ([symbolic/flatten]) is not
    part of the modelled sources.  Section 3, invariant 4: the operands of
    a [Sequence] operand are spliced in its place. *)
Definition flattenSequence_model (xs : list Expr) : list Expr :=
  flat_map (fun x => if headIs x "Sequence"
                     then match ops x with Some ys => ys | None => [x] end
                     else [x]) xs.

(** Modelled from the spec: canonicalisation ([ce.box], [x.canonical]) of
    an expression whose heads have no canonical handler and no short path
    (section 4.3, item 3): the operands are boxed canonically and the
    result is canonical. *)
Fixpoint mark_canonical (e : Expr) : Expr :=
  match e with
  | BoxedFunction h xs _ => BoxedFunction h (map mark_canonical xs) true
  | _ => e
  end.

(** Modelled from the spec: the structural equality of leaves and the
    pattern matcher ([boxed-patterns], [rules]) are not part of the
    modelled sources.  Section 4.4: a capture variable is a symbol whose
    name starts with an underscore; it binds the subject, and a later
    occurrence must meet a subject that is the same; a number matches an
    equal number, a symbol the symbol of the same name; a function matches
    a function with the same head and as many operands, the operands being
    matched in order. *)
Definition isSame_model : Expr -> Expr -> bool :=
  isSame (fun _ _ => false) (fun _ _ => false).

Definition is_capture (name : string) : bool :=
  match name with
  | String c _ => Ascii.eqb c "_"%char
  | EmptyString => false
  end.

Fixpoint match_pattern (pattern subject : Expr) (sub : Substitution)
  : option Substitution :=
  match pattern with
  | BoxedSymbol name =>
      if is_capture name then
        match lookup_sub sub name with
        | Some bound => if isSame_model bound subject then Some sub else None
        | None => Some (sub ++ [(name, subject)])
        end
      else if isSame_model pattern subject then Some sub else None
  | BoxedFunction (HName h) ps _ =>
      match subject with
      | BoxedFunction (HName h') ss _ =>
          if String.eqb h h' && (length ps =? length ss)%nat then
            (fix match_ops (ps ss : list Expr) (sub : Substitution)
               : option Substitution :=
               match ps, ss with
               | p :: ps', s :: ss' =>
                   match match_pattern p s sub with
                   | Some sub' => match_ops ps' ss' sub'
                   | None => None
                   end
               | _, _ => Some sub
               end) ps ss sub
          else None
      | _ => None
      end
  | _ => if isSame_model pattern subject then Some sub else None
  end.

(** Modelled from the spec: [matchRules] (section 4.6): every rule is tried
    in order; a rule that matches and whose condition holds gives the
    replacement with the captures substituted, made canonical. *)
Definition matchRules_model (expr : Expr) (rules : BoxedRuleSet)
    (sub : Substitution) : list Expr :=
  flat_map
    (fun rule =>
       match match_pattern (rule_match rule) expr sub with
       | Some sub' =>
           if match rule_condition rule with
              | Some condition => condition sub'
              | None => true
              end
           then [mark_canonical (subs_noncanonical sub' (rule_replace rule))]
           else []
       | None => []
       end) rules.

(** Modelled from the spec: the default cost function (section 4.6, "weights
    nodes by depth and per-head complexity") is not part of the modelled
    sources; the reference cost is the number of nodes. *)
Fixpoint node_count (e : Expr) : nat :=
  match e with
  | BoxedFunction _ xs _ => S (list_sum (map node_count xs))
  | BoxedTensor _ ex => S (node_count ex)
  | _ => 1%nat
  end.

(** Exact values of real numeric literals. *)
Definition asQ (e : Expr) : option Q :=
  match e with
  | BoxedNumber (NMachine (Finite q)) => Some q
  | BoxedNumber (NDecimal (Finite q)) => Some q
  | BoxedNumber (NRational n d) =>
      if 0 <? d then Some (n # Z.to_pos d) else None
  | _ => None
  end.

Definition ofQ (q : Q) : Expr :=
  let r := Qred q in
  if (Qden r =? 1)%positive then BoxedNumber (NMachine (Finite r))
  else BoxedNumber (NRational (Qnum r) (Zpos (Qden r))).

Definition literal_sign (e : Expr) : option comparison :=
  match e with
  | BoxedNumber (NMachine PosInfinity) | BoxedNumber (NDecimal PosInfinity) =>
      Some Gt
  | BoxedNumber (NMachine NegInfinity) | BoxedNumber (NDecimal NegInfinity) =>
      Some Lt
  | _ => match asQ e with Some q => Some (q ?= 0)%Q | None => None end
  end.

Definition literal_is (e : Expr) (q : Q) : option bool :=
  match e with
  | BoxedNumber (NComplex (Finite re) (Finite im)) =>
      Some (Qeq_bool re q && Qeq_bool im 0)
  | BoxedNumber _ =>
      Some match asQ e with Some x => Qeq_bool x q | None => false end
  | _ => None
  end.

Definition literal_integer (e : Expr) : option Z :=
  match asQ e with
  | Some q =>
      if Qeq_bool q (inject_Z (Qfloor q)) then Some (Qfloor q) else None
  | None => None
  end.

(** The largest [c <= n] whose square divides [b]. *)
Fixpoint square_factor (n : nat) (b : Z) : Z :=
  match n with
  | O => 1
  | S n' =>
      let c := Z.of_nat n in
      if (b mod (c * c) =? 0) then c else square_factor n' b
  end.

(** Modelled from the spec: the predicates of boxed expressions and the
    helpers of the number kernel are external collaborators (sections 1 and
    6).  The reference kernel answers for numeric literals, from their
    value, and for the symbols listed in [reals], which are assumed to be
    real; every other query is [undefined]. *)
Definition reference_kernel (reals : list string) : NumericOps :=
  {| isZero := fun e => literal_is e 0;
     isOne := fun e => literal_is e 1;
     isNegativeOne := fun e => literal_is e (-1);
     isPositive := fun e =>
       match literal_sign e with
       | Some c => Some match c with Gt => true | _ => false end
       | None => None
       end;
     isNegative := fun e =>
       match literal_sign e with
       | Some c => Some match c with Lt => true | _ => false end
       | None => None
       end;
     isNonNegative := fun e =>
       match literal_sign e with
       | Some c => Some match c with Lt => false | _ => true end
       | None => None
       end;
     isInfinity := fun e =>
       match e with
       | BoxedNumber (NMachine x) | BoxedNumber (NDecimal x) =>
           Some match x with PosInfinity | NegInfinity => true | _ => false end
       | BoxedNumber (NComplex re im) =>
           Some match re, im with
                | Finite _, Finite _ => false
                | NaN, _ | _, NaN => false
                | _, _ => true
                end
       | BoxedNumber (NRational _ _) => Some false
       | _ => None
       end;
     isReal := fun e =>
       match e with
       | BoxedNumber (NComplex _ _) => Some false
       | BoxedNumber _ =>
           Some match asQ e with Some _ => true | None => false end
       | BoxedSymbol s =>
           if existsb (String.eqb s) reals then Some true else None
       | _ => None
       end;
     asFloat := fun e =>
       match e with
       | BoxedNumber (NMachine x) | BoxedNumber (NDecimal x) => Some x
       | BoxedNumber (NRational n d) =>
           match asQ e with Some q => Some (Finite q) | None => Some NaN end
       | _ => None
       end;
     asSmallInteger := fun e =>
       match literal_integer e with
       | Some n => if Z.abs n <? 1000000 then Some n else None
       | None => None
       end;
     asRational := fun e =>
       match e with
       | BoxedNumber (NRational n d) => Some (n, d)
       | _ => match literal_integer e with
              | Some n => Some (n, 1)
              | None => None
              end
       end;
     factorPower := fun b _ =>
       let c := square_factor (Z.to_nat (Z.sqrt b)) b in (c, b / (c * c));
     getImaginaryCoef := fun e =>
       match e with
       | BoxedSymbol s =>
           Some (Finite (if String.eqb s "ImaginaryUnit" then 1 else 0))
       | BoxedNumber (NComplex (Finite re) im) =>
           if Qeq_bool re 0 then Some im else Some (Finite 0)
       | BoxedFunction (HName h) [a; b] _ =>
           if String.eqb h "Multiply" then
             if match symbol b with
                | Some s => String.eqb s "ImaginaryUnit"
                | None => false
                end
             then match asQ a with Some q => Some (Finite q) | None => None end
             else if match symbol a with
                     | Some s => String.eqb s "ImaginaryUnit"
                     | None => false
                     end
             then match asQ b with Some q => Some (Finite q) | None => None end
             else Some (Finite 0)
           else Some (Finite 0)
       | _ => Some (Finite 0)
       end;
     isIndexableCollection := fun e =>
       headIs e "List" || headIs e "Range" || headIs e "Set";
     sortAdd := fun xs => xs;
     boxNumber := BoxedNumber;
     canonicalNegate := fun e =>
       match asQ e with
       | Some q => ofQ (- q)
       | None => if headIs e "Negate" then op1 e else _fn "Negate" [e]
       end;
     canonicalMultiply := fun xs => _fn "Multiply" xs;
     canonicalDivide := fun a b =>
       match asQ a, asQ b with
       | Some x, Some y =>
           if Qeq_bool y 0 then _fn "Divide" [a; b] else ofQ (x / y)
       | _, _ => _fn "Divide" [a; b]
       end |}.

(** Modelled from the spec: the library of standard function definitions
    is outside the modelled files (section 1); section 6 lists the
    primitives of the number kernel.  The reference library gives the
    arithmetic heads an [evaluate] handler that computes exactly on real
    numeric literals and gives up ([undefined]) otherwise, and makes
    [List] a finite indexable collection. *)
Definition all_values (xs : list Expr) : option (list Q) :=
  mapM_option asQ xs.

Definition exact_sqrt (q : Q) : option Q :=
  let r := Qred q in
  let n := Qnum r in
  let d := Zpos (Qden r) in
  if (0 <=? n) && (Z.sqrt n * Z.sqrt n =? n) && (Z.sqrt d * Z.sqrt d =? d)
  then Some (Z.sqrt n # Z.to_pos (Z.sqrt d))
  else None.

Definition arithmetic_handler (h : string) : Handler :=
  fun tail =>
    ret EvalM
      match all_values tail with
      | None => None
      | Some vs =>
          if String.eqb h "Add" then Some (ofQ (fold_right Qplus 0%Q vs))
          else if String.eqb h "Multiply"
          then Some (ofQ (fold_right Qmult 1%Q vs))
          else
            match vs with
            | [a] =>
                if String.eqb h "Negate" then Some (ofQ (- a))
                else if String.eqb h "Square" then Some (ofQ (a * a))
                else if String.eqb h "Sqrt" then
                  match exact_sqrt a with
                  | Some r => Some (ofQ r)
                  | None => None
                  end
                else None
            | [a; b] =>
                if String.eqb h "Subtract" then Some (ofQ (a - b))
                else if String.eqb h "Divide" then
                  if Qeq_bool b 0 then None else Some (ofQ (a / b))
                else None
            | _ => None
            end
      end.

Definition plain_definition (name : string) (hold : Hold) (threadable : bool)
    (size : option (Expr -> nat)) (evaluate : option Handler)
  : FunctionDefinition :=
  {| def_name := name; def_hold := hold; def_pure := true;
     def_associative := false; def_commutative := false;
     def_idempotent := false; def_involution := false;
     def_threadable := threadable; def_inert := false;
     def_complexity := 1%nat; def_size := size;
     def_signature := {| sig_canonical := None; sig_simplify := None;
                         sig_evaluate := evaluate; sig_N := None |} |}.

Definition reference_library (name : string) : option FunctionDefinition :=
  if existsb (String.eqb name)
       ["Add"; "Multiply"; "Negate"; "Subtract"; "Divide"; "Square"; "Sqrt"]
  then Some (plain_definition name hold_none true None
               (Some (arithmetic_handler name)))
  else if String.eqb name "List"
  then Some (plain_definition name hold_none false (Some nops) None)
  else None.

(** The reference engine over a table of definitions; [scope] is the scope
    in which the expressions are bound. *)
Definition reference_engine
    (definitions : string -> option FunctionDefinition)
    (scope : option RuntimeScope) : EngineOps :=
  {| lookupFunction := definitions;
     scopeOf := fun _ => scope;
     flattenOps := flattenOps_model;
     flattenSequence := flattenSequence_model;
     isFiniteIndexableCollection := fun x => headIs x "List";
     at_ := fun x i =>
       if 1 <=? i
       then nth_error (match ops x with Some ys => ys | None => [] end)
              (Z.to_nat (i - 1))
       else None;
     apply := fun f args => BoxedFunction (HExpr f) args true;
     canonicalOf := mark_canonical;
     fn := fun h xs => BoxedFunction h xs true;
     evaluateAtom := fun _ x => x;
     simplifyAtom := fun x => x;
     complexAllowed := true;
     bignumPreferred := true;
     expand := fun _ => None;
     replace := fun _ _ => None;
     boxRules := fun rules => rules;
     matchRules := matchRules_model;
     SIMPLIFY_RULES := [];
     costFunction := fun e => inject_Z (Z.of_nat (node_count e));
     sameObject := fun _ _ => false |}.

Definition global_scope : RuntimeScope :=
  {| timeLimit := Some 2%Q; memoryLimit := None;
     recursionLimit := Some 1024%nat; iterationLimit := Some 1024%nat;
     assumptions := []; parentScope := None |}.

Definition engine0 : Engine :=
  {| context := Some global_scope; _cache := ∅ |}.


(** The lexical scope of the expressions of these examples: a child of the
    global scope with its own iteration limit. *)
Definition lexical_scope : RuntimeScope :=
  {| timeLimit := Some 2%Q; memoryLimit := None;
     recursionLimit := Some 1024%nat; iterationLimit := Some 16%nat;
     assumptions := []; parentScope := Some global_scope |}.

(** ** Notions used in the statements of Part II *)








(** Modelled from the spec: [hashCode] ([boxed-expression/utils]) is not
    part of the modelled sources.  Section 3 asks for a content hash of the
    name: the characters are folded into a 32-bit integer, [h = 31 h + c],
    whose absolute value is the hash. *)
Definition hashCode_model (s : string) : Z :=
  Z.abs (fold_left (fun h c => to_int32 (31 * h + Z.of_nat (nat_of_ascii c)))
           (list_ascii_of_string s) 0).

(** Modelled from the spec: the hash of a boxed number ([boxed-number]) is
    not part of the modelled sources; equal numbers have equal hashes
    (section 3): the hash of the class name stands for all of them. *)
Definition hashNumber_model (v : NumericValue) : Z :=
  hashCode_model "BoxedNumber".

(** An expression without tensors and without expressions as heads. *)
Fixpoint plain (e : Expr) : bool :=
  match e with
  | BoxedFunction (HName _) xs _ => forallb plain xs
  | BoxedFunction (HExpr _) _ _ => false
  | BoxedTensor _ _ => false
  | _ => true
  end.





Definition reference_kernel_x : NumericOps := reference_kernel ["x"].

Definition reference_engine_global : EngineOps :=
  reference_engine reference_library (Some global_scope).

(** The depth of an expression: 0 for a leaf. *)
Fixpoint depth (e : Expr) : nat :=
  match e with
  | BoxedFunction _ xs _ => S (list_max (map depth xs))
  | BoxedTensor _ ex => S (depth ex)
  | _ => 0%nat
  end.

(** ** The tensor form of an expression ([boxed-tensor.ts]) *)

(** Calls that raise without going through the engine state. *)
Definition OutcomeM : Monad Outcome :=
  {| ret := fun _ a => Returned a;
     bind := fun _ _ m k =>
       match m with
       | Returned a => k a
       | Thrown err => Thrown err
       | OutOfFuel => OutOfFuel
       end |}.

(** A JavaScript array of numbers is a list whose holes are [None].
    [shape[axis]]: [undefined] at a hole and past the end. *)
Definition sparse_at (shape : list (option nat)) (axis : nat) : option nat :=
  match shape !! axis with
  | Some (Some n) => Some n
  | _ => None
  end.

(** [shape[axis] = n]: an assignment past the end extends the array. *)
Definition sparse_set (shape : list (option nat)) (axis n : nat)
  : list (option nat) :=
  if (axis <? length shape)%nat then <[axis := Some n]> shape
  else shape ++ replicate (axis - length shape) None ++ [Some n].

(** The variables [shape], [dtype] and [valid] of [expressionTensorInfo]. *)
Record InfoState (D : Type) := mkInfoState {
  info_shape : list (option nat);
  info_dtype : option D;
  info_valid : bool }.
Arguments mkInfoState {D} _ _ _.
Arguments info_shape {D} _.
Arguments info_dtype {D} _.
Arguments info_valid {D} _.

(** [TensorData<T>]: [{ shape, data, dtype }]. *)
Record TensorData (D V : Type) := mkTensorData {
  td_shape : list (option nat);
  td_data : list V;
  td_dtype : D }.
Arguments mkTensorData {D V} _ _ _.
Arguments td_shape {D V} _.
Arguments td_data {D V} _.
Arguments td_dtype {D V} _.

Section TensorData.
(** The datatypes of tensors, [getExpressionDatatype], [getSupertype] and
    the [cast] of a tensor field ([symbolic/tensor-fields]). *)
Context {D V : Type}.
Context (getExpressionDatatype : Expr -> D).
Context (getSupertype : D -> D -> D).
Context (cast : Expr -> D -> option V).

(** The first statement of [visit(t, axis)] for a [t] of length [len]: the
    length is compared with [shape[axis]] when there are at least two items
    and a length is recorded for the axis, and recorded otherwise. *)
Definition visit_axis (len axis : nat) (st : InfoState D) : InfoState D :=
  match (1 <? len)%nat, sparse_at (info_shape st) axis with
  | true, Some n =>
      {| info_shape := info_shape st;
         info_dtype := info_dtype st;
         info_valid := info_valid st && (n =? len)%nat |}
  | _, recorded =>
      {| info_shape :=
           sparse_set (info_shape st) axis
             (Nat.max (match recorded with Some n => n | None => 0%nat end) len);
         info_dtype := info_dtype st;
         info_valid := info_valid st |}
  end.

Section Visit.
Context {S : Type}.
(** The body of a [for (const item of t)] loop and the test that leaves the
    loop after an item. *)
Context (visit_item : Expr -> S -> Outcome S) (leave : S -> bool).

Fixpoint visit_items (t : list Expr) (st : S) : Outcome S :=
  match t with
  | [] => Returned st
  | item :: rest =>
      match visit_item item st with
      | Returned st' => if leave st' then Returned st' else visit_items rest st'
      | failure => failure
      end
  end.

End Visit.

(** [visit(t, axis)] of [expressionTensorInfo], [info_item axis] being the
    body of its loop. *)
Definition info_visit
    (info_item : nat -> Expr -> InfoState D -> Outcome (InfoState D))
    (t : list Expr) (axis : nat) (st : InfoState D) : Outcome (InfoState D) :=
  match t with
  | [] => Returned st
  | _ =>
      visit_items (info_item axis) (fun st => negb (info_valid st)) t
        (visit_axis (length t) axis st)
  end.

(** [dtype] after an item that is not visited: its datatype, or the
    supertype of [dtype] and its datatype. *)
Definition widen (dtype : option D) (item : Expr) : option D :=
  Some match dtype with
       | None => getExpressionDatatype item
       | Some dtype => getSupertype dtype (getExpressionDatatype item)
       end.

(** The body of the loop of [visit(t, axis)]: an item whose head is [head]
    is visited on the next axis ([item.ops!] of an item without operands is
    [null], whose length cannot be read); any other item widens [dtype]. *)
Fixpoint info_item (head : string) (axis : nat) (item : Expr)
    (st : InfoState D) : Outcome (InfoState D) :=
  if headIs item head then
    match item with
    | BoxedFunction _ t _ | BoxedTensor _ (BoxedFunction _ t _) =>
        info_visit (info_item head) t (S axis) st
    | _ => Thrown "TypeError"
    end
  else
    Returned
      {| info_shape := info_shape st;
         info_dtype := widen (info_dtype st) item;
         info_valid := info_valid st |}.

(** [expressionTensorInfo(head, rows)]. *)
Definition expressionTensorInfo (head : string) (rows : list Expr)
  : Outcome (option (list (option nat) * option D)) :=
  bind OutcomeM
    (info_visit (info_item head) rows 0
       {| info_shape := []; info_dtype := None; info_valid := true |})
    (fun st =>
  ret OutcomeM
    (if negb (info_valid st) then None
     else Some (info_shape st, info_dtype st))).

(** The body of the loop of the [visit(t)] of [expressionAsTensor], on the
    variables [data] and [isValid]; the third component tells that the
    visit of the list that holds the item returns at once: an item that
    cannot be cast ends it. *)
Fixpoint data_item (head : string) (dtype : D) (item : Expr)
    (st : list V * bool * bool) : Outcome (list V * bool * bool) :=
  let '(data, isValid, _) := st in
  if headIs item head then
    match item with
    | BoxedFunction _ t _ | BoxedTensor _ (BoxedFunction _ t _) =>
        bind OutcomeM
          (visit_items (data_item head dtype) (fun st => snd st) t
             (data, isValid, false))
          (fun '(data, isValid, _) => ret OutcomeM (data, isValid, false))
    | _ => Thrown "TypeError"
    end
  else
    match cast item dtype with
    | None => Returned (data, false, true)
    | Some v => Returned (data ++ [v], isValid, false)
    end.

(** [expressionAsTensor(head, rows)]. *)
Definition expressionAsTensor (head : string) (rows : list Expr)
  : Outcome (option (TensorData D V)) :=
  bind OutcomeM (expressionTensorInfo head rows) (fun info =>
  let '(shape, dtype) :=
    match info with
    | Some found => found
    | None => ([], None)
    end in
  match dtype with
  | None => ret OutcomeM None
  | Some dtype =>
      match rows with
      | [] => Thrown "TypeError" (* [rows[0].engine] *)
      | _ =>
          bind OutcomeM
            (visit_items (data_item head dtype) (fun st => snd st) rows
               ([], true, false))
            (fun '(data, isValid, _) =>
          ret OutcomeM
            (if negb isValid then None
             else Some {| td_shape := shape; td_data := data;
                          td_dtype := dtype |}))
      end
  end).

End TensorData.

(** The getter [tensor] of [BoxedTensor]: the tensor form, made on demand
    from the head and the operands the tensor was built with and kept in
    [_tensor]; the result is the tensor and the receiver after the call.
    [makeTensor] is the constructor of [symbolic/tensors]. *)
Definition BoxedTensor_tensor {D : Type}
    (getExpressionDatatype : Expr -> D) (getSupertype : D -> D -> D)
    (cast : Expr -> D -> option Expr)
    (makeTensor : TensorData D Expr -> AbstractTensor Expr)
    (_tensor : option (AbstractTensor Expr)) (expression : Expr)
  : Outcome (AbstractTensor Expr * Expr) :=
  match _tensor with
  | Some tensor => Returned (tensor, BoxedTensor _tensor expression)
  | None =>
      match expression with
      | BoxedFunction (HName _head) _ops _ =>
          bind OutcomeM
            (expressionAsTensor getExpressionDatatype getSupertype cast
               _head _ops)
            (fun tensorData =>
          match tensorData with
          | None => Thrown "Invalid tensor"
          | Some tensorData =>
              let tensor := makeTensor tensorData in
              Returned (tensor, BoxedTensor (Some tensor) expression)
          end)
      | _ => Thrown "TypeError"
      end
  end.

(** Rows that hold a full array of dimensions [dims], all positive: on the
    last axis the items are not headed by [head]; on the other axes every
    item is a function headed by [head] whose operands hold a full array of
    the remaining dimensions. *)
Fixpoint rectangular (head : string) (dims : list nat) (t : list Expr) : bool :=
  match dims with
  | [] => false
  | d :: dims' =>
      (length t =? d)%nat && (0 <? d)%nat
      && forallb
           (fun item =>
              match dims' with
              | [] => negb (headIs item head)
              | _ =>
                  headIs item head
                  && match item with
                     | BoxedFunction _ xs _ => rectangular head dims' xs
                     | _ => false
                     end
              end) t
  end.

(** The items of the last axis of such rows, in row-major order. *)
Fixpoint leaves (dims : list nat) (t : list Expr) : list Expr :=
  match dims with
  | [] => []
  | _ :: dims' =>
      match dims' with
      | [] => t
      | _ =>
          flat_map (fun item =>
                      match item with
                      | BoxedFunction _ xs _ => leaves dims' xs
                      | _ => []
                      end) t
      end
  end.

(** The lengths recorded so far are those of the outer axes [pre] and of
    some of the axes [dims] that follow. *)
Definition recorded (pre dims : list nat) (shape : list (option nat)) : Prop :=
  exists ds1 ds2, dims = ds1 ++ ds2 /\ shape = map Some (pre ++ ds1).

(** Modelled from the spec: the tensor fields ([symbolic/tensor-fields])
    and the constructor of tensors ([symbolic/tensors]) are not part of the
    modelled sources.  Section 2 describes a tensor as a shape, a base
    datatype (expression, number, or narrower) and a contiguous data
    vector.  In the reference field a number has the datatype [float64] and
    every other item the datatype [expression], which is above [float64];
    an item is cast to [float64] when it is a number, and to [expression]
    always; the tensor of tensor data has its shape and its data. *)
Definition reference_datatype (item : Expr) : string :=
  match item with
  | BoxedNumber _ => "float64"
  | _ => "expression"
  end.

Definition reference_supertype (a b : string) : string :=
  if String.eqb a b then a else "expression".

Definition reference_cast (item : Expr) (dtype : string) : option Expr :=
  if String.eqb dtype "float64"
  then match item with BoxedNumber _ => Some item | _ => None end
  else Some item.

Definition reference_makeTensor (tensorData : TensorData string Expr)
  : AbstractTensor Expr :=
  {| shape := map (fun n => match n with Some n => n | None => 0%nat end)
                (td_shape tensorData);
     data := td_data tensorData |}.

(** ** Limits of the scope chain ([compute-engine.ts]) *)

(** [Partial<Scope>], the argument of [ce.pushScope(scope)]: the limits
    that the new scope sets. *)
Record Scope := mkLimits {
  scope_time : option Q;
  scope_memory : option Q;
  scope_recursion : option nat;
  scope_iteration : option nat }.

(** [ce.pushScope(scope)]: the limits of the current scope are copied, then
    overridden by the fields of [scope]. *)
Definition pushScope_with (scope : option Scope) : Eval unit :=
  fun eng =>
    match context eng with
    | None => (Thrown "No parent scope available", eng)
    | Some ctx =>
        let given {A : Type} (field : Scope -> option A) (inherited : option A) :=
          match scope with
          | Some s => match field s with Some v => Some v | None => inherited end
          | None => inherited
          end in
        (Returned tt,
         {| context :=
              Some {| timeLimit := given scope_time (timeLimit ctx);
                      memoryLimit := given scope_memory (memoryLimit ctx);
                      recursionLimit :=
                        given scope_recursion (recursionLimit ctx);
                      iterationLimit :=
                        given scope_iteration (iterationLimit ctx);
                      assumptions := assumptions ctx;
                      parentScope := Some ctx |};
            _cache := _cache eng |})
    end.

(** [ce.timeLimit] and [ce.recursionLimit]: the limit of the innermost
    scope that sets one, else 2 seconds and 1024. *)
Fixpoint scope_timeLimit (scope : RuntimeScope) : Q :=
  match timeLimit scope with
  | Some t => t
  | None =>
      match parentScope scope with
      | Some parent => scope_timeLimit parent
      | None => 2
      end
  end.

Definition engine_timeLimit (eng : Engine) : Q :=
  match context eng with
  | Some scope => scope_timeLimit scope
  | None => 2
  end.

Fixpoint scope_recursionLimit (scope : RuntimeScope) : nat :=
  match recursionLimit scope with
  | Some n => n
  | None =>
      match parentScope scope with
      | Some parent => scope_recursionLimit parent
      | None => 1024%nat
      end
  end.

Definition engine_recursionLimit (eng : Engine) : nat :=
  match context eng with
  | Some scope => scope_recursionLimit scope
  | None => 1024%nat
  end.

(** The limit that a scope argument asks for, if any. *)
Definition asked {A : Type} (scope : option Scope) (field : Scope -> option A)
  : option A :=
  match scope with
  | Some s => field s
  | None => None
  end.

(** ** Errors ([compute-engine.ts]) *)

(** [ce.error(message, where)].  A message is a string or a code followed
    by arguments; [where], when it is there, is boxed again from its raw
    JSON, which [reboxed] stands for.  The result is not canonical. *)
Definition ce_error (reboxed : Expr -> Expr)
    (message : string + string * list Expr) (where_ : option Expr) : Expr :=
  let msg :=
    match message with
    | inl text => BoxedString text
    | inr (code, arguments) =>
        BoxedFunction "ErrorCode" (BoxedString code :: arguments) false
    end in
  match where_ with
  | None => BoxedFunction "Error" [msg] false
  | Some w => BoxedFunction "Error" [msg; reboxed w] false
  end.

(** An expression in which an [Error] is met on a path that goes through
    operands of functions, heads that are expressions, and the expressions
    of tensors whose tensor form is not materialised. *)
Inductive Erroneous : Expr -> Prop :=
| erroneous_here (xs : list Expr) (c : bool) :
    Erroneous (BoxedFunction "Error" xs c)
| erroneous_head (he : Expr) (xs : list Expr) (c : bool) :
    Erroneous he -> Erroneous (BoxedFunction (HExpr he) xs c)
| erroneous_operand (h : Head) (xs : list Expr) (c : bool) (x : Expr) :
    In x xs -> Erroneous x -> Erroneous (BoxedFunction h xs c)
| erroneous_tensor (ex : Expr) :
    Erroneous ex -> Erroneous (BoxedTensor None ex).

(** ** Pattern matching of function expressions ([boxed-function.ts]) *)

(** [BoxedSubstitution]: an object from capture names to expressions. *)
Definition BoxedSubstitution := gmap string Expr.

Section Match.
(** [match] of numbers, symbols and strings ([boxed-number],
    [boxed-symbol], [boxed-string]); the subject is [undefined] when the
    pattern has more operands than the subject. *)
Context (leaf_match : Expr -> option Expr -> option BoxedSubstitution).

(** [this.match(rhs, options)]; [{ ...result, ...m }] keeps the bindings of
    [m] where both bind a name. *)
Fixpoint match_ (this : Expr) (rhs : option Expr) : option BoxedSubstitution :=
  match this with
  | BoxedFunction h lhsTail _ =>
      match rhs with
      | Some (BoxedFunction h' rhsTail _) =>
          match match h, h' with
                | HName a, HName b => if String.eqb a b then Some ∅ else None
                | HExpr a, HExpr b => match_ a (Some b)
                | _, _ => None
                end with
          | None => None
          | Some result =>
              (fix operands (xs : list Expr) (i : nat)
                   (result : BoxedSubstitution) : option BoxedSubstitution :=
                 match xs with
                 | [] => Some result
                 | x :: rest =>
                     match match_ x (rhsTail !! i) with
                     | None => None
                     | Some m => operands rest (S i) (m ∪ result)
                     end
                 end) lhsTail 0%nat result
          end
      | _ => None
      end
  | BoxedTensor _ expression => match_ expression rhs
  | _ => leaf_match this rhs
  end.

End Match.

(** Modelled from the spec: the [match] of the leaves is not part of the
    modelled sources.  Section 4.4: a symbol whose name starts with an
    underscore captures the subject; any other leaf matches a subject that
    is the same. *)
Definition leaf_match_model (this : Expr) (rhs : option Expr)
  : option BoxedSubstitution :=
  match rhs with
  | None => None
  | Some subject =>
      match this with
      | BoxedSymbol name =>
          if is_capture name then Some {[ name := subject ]}
          else if isSame_model this subject then Some ∅ else None
      | _ => if isSame_model this subject then Some ∅ else None
      end
  end.

(** ** Identifiers ([compute-engine.ts])

    The identifier tables of the scope chain: the fields [ids] and
    [assumptions] of the scopes, which the limits above leave out. *)

(** What the engine reads and writes in a [_BoxedSymbolDefinition]. *)
Record BoxedSymbolDefinition := mkSymbolDefinition {
  symbol_name : string;
  symbol_wikidata : option string;
  symbol_constant : bool;
  symbol_inferredDomain : bool;
  symbol_domain : option Expr;
  symbol_value : option Expr }.

(** A value of the map [ids]. *)
Inductive BoxedDefinition :=
| OfSymbol (def : BoxedSymbolDefinition)
| OfFunction (def : FunctionDefinition).

(** A JavaScript [Map] with string keys: its entries, in the order in which
    the keys were inserted. *)
Definition map_get {V : Type} (m : list (string * V)) (key : string)
  : option V :=
  match List.find (fun entry => String.eqb (fst entry) key) m with
  | Some entry => Some (snd entry)
  | None => None
  end.

Fixpoint map_set {V : Type} (m : list (string * V)) (key : string) (v : V)
  : list (string * V) :=
  match m with
  | [] => [(key, v)]
  | (k, w) :: rest =>
      if String.eqb k key then (k, v) :: rest
      else (k, w) :: map_set rest key v
  end.

Inductive IdentifierScope := mkIdentifierScope {
  ids : option (list (string * BoxedDefinition));
  scope_assumptions : list (Expr * bool);
  enclosing : option IdentifierScope }.

(** The engine, as far as identifiers go: the current scope and the flag
    [strict]. *)
Record Identifiers := mkIdentifiers {
  current : option IdentifierScope;
  strict : bool }.

Definition Ids (A : Type) : Type := Identifiers -> Outcome A * Identifiers.

Definition IdsM : Monad Ids :=
  {| ret := fun _ a st => (Returned a, st);
     bind := fun _ _ m k st =>
       match m st with
       | (Returned a, st') => k a st'
       | (Thrown err, st') => (Thrown err, st')
       | (OutOfFuel, st') => (OutOfFuel, st')
       end |}.

(** [scope.ids?.get(name)]. *)
Definition ids_get (scope : IdentifierScope) (name : string)
  : option BoxedDefinition :=
  match ids scope with
  | Some m => map_get m name
  | None => None
  end.

(** The loop of [lookupFunction]: up the scope chain, to the first scope
    whose table has a function definition for [head]. *)
Fixpoint lookupFunction_from (head : string) (scope : IdentifierScope)
  : option FunctionDefinition :=
  match ids_get scope head with
  | Some (OfFunction def) => Some def
  | _ =>
      match enclosing scope with
      | Some parent => lookupFunction_from head parent
      | None => None
      end
  end.

(** [ce.lookupFunction(head, scope)]. *)
Definition ce_lookupFunction (st : Identifiers) (head : Head)
    (scope : option IdentifierScope) : option FunctionDefinition :=
  match head with
  | HExpr _ => None
  | HName head =>
      match current st with
      | None => None
      | Some context =>
          lookupFunction_from head
            match scope with Some s => s | None => context end
      end
  end.

(** The loops of [lookupSymbol], by name and by wikidata. *)
Fixpoint lookupSymbol_from (symbol : string) (scope : IdentifierScope)
  : option BoxedSymbolDefinition :=
  match ids_get scope symbol with
  | Some (OfSymbol def) => Some def
  | _ =>
      match enclosing scope with
      | Some parent => lookupSymbol_from symbol parent
      | None => None
      end
  end.

Definition has_wikidata (wikidata : string) (entry : string * BoxedDefinition)
  : bool :=
  match snd entry with
  | OfSymbol def =>
      match symbol_wikidata def with
      | Some w => String.eqb w wikidata
      | None => false
      end
  | OfFunction _ => false
  end.

Fixpoint lookupWikidata_from (wikidata : string) (scope : IdentifierScope)
  : option BoxedSymbolDefinition :=
  match match ids scope with
        | Some m => List.find (has_wikidata wikidata) m
        | None => None
        end with
  | Some (_, OfSymbol def) => Some def
  | _ =>
      match enclosing scope with
      | Some parent => lookupWikidata_from wikidata parent
      | None => None
      end
  end.

(** [ce.lookupSymbol(symbol, wikidata, scope)]. *)
Definition ce_lookupSymbol (st : Identifiers) (symbol : string)
    (wikidata : option string) (scope : option IdentifierScope)
  : option BoxedSymbolDefinition :=
  if negb (strict st) then
    match match scope with Some s => Some s | None => current st end with
    | Some scope => lookupSymbol_from symbol scope
    | None => None
    end
  else
    match current st with
    | None => None
    | Some context =>
        if (String.length symbol =? 0)%nat then None
        else
          let rootScope := match scope with Some s => s | None => context end in
          match match wikidata with
                | Some w =>
                    if (String.length w =? 0)%nat then None
                    else lookupWikidata_from w rootScope
                | None => None
                end with
          | Some def => Some def
          | None => lookupSymbol_from symbol rootScope
          end
    end.

(** [this.context!.ids ??= new Map()] followed by
    [if (name) this.context!.ids.set(name, def)]. *)
Definition ids_define (context : IdentifierScope) (name : string)
    (def : BoxedDefinition) : IdentifierScope :=
  let table := match ids context with Some m => m | None => [] end in
  {| ids := Some (if (String.length name =? 0)%nat then table
                  else map_set table name def);
     scope_assumptions := scope_assumptions context;
     enclosing := enclosing context |}.

(** A name between double quotes. *)
Definition quoted (name : string) : string :=
  String (ascii_of_nat 34) (name ++ String (ascii_of_nat 34) EmptyString).

Section Definitions.
(** [SymbolDefinition] and [FunctionDefinition], the arguments of the
    definers, with the constructors of the boxed definitions
    ([boxed-symbol-definition], [boxed-function-definition]) and the test
    of identifiers ([math-json/utils]). *)
Context {SymbolDefinition FunctionDefinition' : Type}.
Context (boxSymbolDefinition : string -> SymbolDefinition -> BoxedSymbolDefinition).
Context (makeFunctionDefinition : string -> FunctionDefinition' -> FunctionDefinition).
Context (isValidIdentifier : string -> bool).
Context (validateIdentifier : string -> string).

(** [`Invalid identifier "${name}": ${validateIdentifier(name)}}`]. *)
Definition invalid_identifier (name : string) : string :=
  "Invalid identifier " ++ quoted name ++ ": " ++ validateIdentifier name
  ++ "}".

(** [ce._defineSymbol(name, def)] (reading [ids] of no scope raises). *)
Definition _defineSymbol (name : string) (def : SymbolDefinition)
  : Ids BoxedSymbolDefinition :=
  fun st =>
    match current st with
    | None => (Thrown "TypeError", st)
    | Some context =>
        let boxedDef := boxSymbolDefinition name def in
        (Returned boxedDef,
         {| current :=
              Some (ids_define context (symbol_name boxedDef)
                      (OfSymbol boxedDef));
            strict := strict st |})
    end.

(** [ce._defineFunction(name, def)]. *)
Definition _defineFunction (name : string) (def : FunctionDefinition')
  : Ids FunctionDefinition :=
  fun st =>
    match current st with
    | None => (Thrown "TypeError", st)
    | Some context =>
        let boxedDef := makeFunctionDefinition name def in
        (Returned boxedDef,
         {| current :=
              Some (ids_define context (def_name boxedDef)
                      (OfFunction boxedDef));
            strict := strict st |})
    end.

(** [ce.defineSymbol(name, def)] and [ce.defineFunction(name, def)]. *)
Definition defineSymbol (name : string) (def : SymbolDefinition)
  : Ids BoxedSymbolDefinition :=
  fun st =>
    match current st with
    | None => (Thrown "Symbol cannot be defined: no scope available", st)
    | Some _ =>
        if (String.length name =? 0)%nat || negb (isValidIdentifier name)
        then (Thrown (invalid_identifier name), st)
        else _defineSymbol name def st
    end.

Definition defineFunction (name : string) (def : FunctionDefinition')
  : Ids FunctionDefinition :=
  fun st =>
    match current st with
    | None => (Thrown "Function cannot be defined: no scope available", st)
    | Some _ =>
        if (String.length name =? 0)%nat || negb (isValidIdentifier name)
        then (Thrown (invalid_identifier name), st)
        else _defineFunction name def st
    end.

End Definitions.

(** [ce.pushScope()] and [ce.popScope()] on the identifier tables: the new
    scope has no table of its own and a copy of the assumptions. *)
Definition pushScope_ids : Ids unit :=
  fun st =>
    match current st with
    | None => (Thrown "No parent scope available", st)
    | Some context =>
        (Returned tt,
         {| current :=
              Some {| ids := None;
                      scope_assumptions := scope_assumptions context;
                      enclosing := Some context |};
            strict := strict st |})
    end.

Definition popScope_ids : Ids unit :=
  fun st =>
    match current st with
    | None => (Thrown "No scope available", st)
    | Some context =>
        (Returned tt, {| current := enclosing context; strict := strict st |})
    end.

(** What [resetContext] and [forget] do to a definition: the value of a
    symbol is dropped ([resetContext] keeps the value of a constant), the
    handlers of a function are dropped. *)
Definition without_handlers (def : FunctionDefinition) : FunctionDefinition :=
  {| def_name := def_name def; def_hold := def_hold def;
     def_pure := def_pure def; def_associative := def_associative def;
     def_commutative := def_commutative def;
     def_idempotent := def_idempotent def;
     def_involution := def_involution def;
     def_threadable := def_threadable def; def_inert := def_inert def;
     def_complexity := def_complexity def; def_size := def_size def;
     def_signature := {| sig_canonical := None; sig_simplify := None;
                         sig_evaluate := None; sig_N := None |} |}.

Definition without_value (def : BoxedSymbolDefinition) : BoxedSymbolDefinition :=
  {| symbol_name := symbol_name def; symbol_wikidata := symbol_wikidata def;
     symbol_constant := symbol_constant def;
     symbol_inferredDomain := symbol_inferredDomain def;
     symbol_domain := symbol_domain def; symbol_value := None |}.

Definition reset_definition (def : BoxedDefinition) : BoxedDefinition :=
  match def with
  | OfSymbol d => OfSymbol (if negb (symbol_constant d) then without_value d else d)
  | OfFunction d => OfFunction (without_handlers d)
  end.

Definition forget_definition (def : BoxedDefinition) : BoxedDefinition :=
  match def with
  | OfSymbol d => OfSymbol (without_value d)
  | OfFunction d => OfFunction (without_handlers d)
  end.

(** [ce.resetContext()]. *)
Definition resetContext : Ids unit :=
  fun st =>
    match current st with
    | None => (Returned tt, st)
    | Some context =>
        (Returned tt,
         {| current :=
              Some {| ids :=
                        match ids context with
                        | Some m =>
                            Some (map (fun entry =>
                                         (fst entry, reset_definition (snd entry)))
                                    m)
                        | None => None
                        end;
                      scope_assumptions := scope_assumptions context;
                      enclosing := enclosing context |};
            strict := strict st |})
    end.

Section Forget.
(** [assumption.symbols] ([abstract-boxed-expression]). *)
Context (symbols : Expr -> list string).

(** [ce.forget(symbol)] for a string, on the current scope [context]. *)
Definition forget_name (context : IdentifierScope) (symbol : string)
  : IdentifierScope :=
  {| ids :=
       match ids context with
       | Some m =>
           Some (map (fun entry =>
                        if String.eqb (fst entry) symbol
                        then (fst entry, forget_definition (snd entry))
                        else entry) m)
       | None => None
       end;
     scope_assumptions :=
       List.filter
         (fun assumption =>
            negb (existsb (String.eqb symbol) (symbols (fst assumption))))
         (scope_assumptions context);
     enclosing := enclosing context |}.

(** The argument of [forget]: [undefined], a string or an array. *)
Inductive Forgotten :=
| ForgetAll
| ForgetName (symbol : string)
| ForgetNames (symbols : list string).

(** [ce.forget(symbol)]. *)
Definition forget (symbol : Forgotten) : Ids unit :=
  fun st =>
    match current st with
    | None => (Thrown "No scope available", st)
    | Some context =>
        let context :=
          match symbol with
          | ForgetAll =>
              let context :=
                match ids context with
                | Some m => fold_left forget_name (map fst m) context
                | None => context
                end in
              {| ids := ids context; scope_assumptions := [];
                 enclosing := enclosing context |}
          | ForgetName s => forget_name context s
          | ForgetNames names => fold_left forget_name names context
          end in
        (Returned tt, {| current := Some context; strict := strict st |})
    end.

End Forget.

(** The messages of the errors that [declare] raises. *)
Definition unexpected_arguments (arg1 : string) : string :=
  "Unexpected arguments with " ++ arg1
  ++ ". Use 'ce.assign()' instead to assign a value, "
  ++ "or a use a function definition with 'ce.declare()'.".

Definition already_declared (id : string) : string :=
  "Symbol " ++ quoted id ++ " has already been declared in the current scope".

Definition invalid_argument (id : string) : string :=
  "Invalid argument for " ++ quoted id
  ++ ": use a domain, a FunctionDefinition or a SymbolDefinition".

Section Declare.
(** The second argument of [declare] is a symbol definition, a function
    definition or a domain: [isSymbolDefinition], [isFunctionDefinition]
    and [ce.domain] tell; [update] is the method of a boxed symbol
    definition, [parseFunctionSignature] splits [f(x, y)] into [f] and its
    arguments; [definition_of_signature dom] is
    [{ signature: domainToSignature(dom) }] and [definition_of_domain dom]
    is [{ domain: dom }]. *)
Context {Argument SymbolDefinition FunctionDefinition' : Type}.
Context (boxSymbolDefinition : string -> SymbolDefinition -> BoxedSymbolDefinition).
Context (makeFunctionDefinition : string -> FunctionDefinition' -> FunctionDefinition).
Context (isValidIdentifier : string -> bool).
Context (validateIdentifier : string -> string).
Context (parseFunctionSignature : string -> string * option (list string)).
Context (isSymbolDefinition : Argument -> option SymbolDefinition).
Context (isFunctionDefinition : Argument -> option FunctionDefinition').
Context (ce_domain : Argument -> Outcome Expr).
Context (dom_isValid dom_isFunction : Expr -> bool).
Context (definition_of_signature : Expr -> FunctionDefinition').
Context (definition_of_domain : Expr -> SymbolDefinition).
Context (update : BoxedSymbolDefinition -> SymbolDefinition -> BoxedSymbolDefinition).

(** The definition [def] of [id] in the current scope is replaced by
    [def'], the same object after it has been changed. *)
Definition changed_in_place (st : Identifiers) (id : string)
    (def' : BoxedSymbolDefinition) : Identifiers :=
  {| current :=
       match current st with
       | Some context =>
           Some {| ids := match ids context with
                          | Some m => Some (map_set m id (OfSymbol def'))
                          | None => None
                          end;
                   scope_assumptions := scope_assumptions context;
                   enclosing := enclosing context |}
       | None => None
       end;
     strict := strict st |}.

(** [ce.declare(id, def)] for one identifier. *)
Definition declare (arg1 : string) (arg2 : Argument) : Ids unit :=
  fun st =>
    let '(id, args) := parseFunctionSignature arg1 in
    match args with
    | Some _ => (Thrown (unexpected_arguments arg1), st)
    | None =>
        if String.eqb id "Nothing" then (Returned tt, st)
        else
          match match current st with
                | Some context => ids_get context id
                | None => None
                end with
          | Some (OfSymbol def) =>
              if symbol_inferredDomain def then
                match isSymbolDefinition arg2 with
                | Some symbolDefinition =>
                    (Returned tt,
                     changed_in_place st id (update def symbolDefinition))
                | None =>
                    match ce_domain arg2 with
                    | Returned dom =>
                        (Returned tt,
                         changed_in_place st id
                           {| symbol_name := symbol_name def;
                              symbol_wikidata := symbol_wikidata def;
                              symbol_constant := symbol_constant def;
                              symbol_inferredDomain := false;
                              symbol_domain := Some dom;
                              symbol_value := symbol_value def |})
                    | Thrown err => (Thrown err, st)
                    | OutOfFuel => (OutOfFuel, st)
                    end
                end
              else (Thrown (already_declared id), st)
          | Some (OfFunction _) => (Thrown (already_declared id), st)
          | None =>
              match isSymbolDefinition arg2 with
              | Some def =>
                  bind IdsM
                    (defineSymbol boxSymbolDefinition isValidIdentifier
                       validateIdentifier id def)
                    (fun _ => ret IdsM tt) st
              | None =>
                  match isFunctionDefinition arg2 with
                  | Some def =>
                      bind IdsM
                        (defineFunction makeFunctionDefinition
                           isValidIdentifier validateIdentifier id def)
                        (fun _ => ret IdsM tt) st
                  | None =>
                      match ce_domain arg2 with
                      | Returned dom =>
                          if dom_isValid dom then
                            if dom_isFunction dom then
                              bind IdsM
                                (defineFunction makeFunctionDefinition
                                   isValidIdentifier validateIdentifier id
                                   (definition_of_signature dom))
                                (fun _ => ret IdsM tt) st
                            else
                              bind IdsM
                                (defineSymbol boxSymbolDefinition
                                   isValidIdentifier validateIdentifier id
                                   (definition_of_domain dom))
                                (fun _ => ret IdsM tt) st
                          else (Thrown (invalid_argument id), st)
                      | Thrown err => (Thrown err, st)
                      | OutOfFuel => (OutOfFuel, st)
                      end
                  end
              end
          end
    end.

(** [ce.declare(identifiers)] for an object of definitions: the entries
    are declared in order. *)
Fixpoint declare_entries (identifiers : list (string * Argument)) : Ids unit :=
  match identifiers with
  | [] => ret IdsM tt
  | (id, def) :: rest =>
      bind IdsM (declare id def) (fun _ => declare_entries rest)
  end.

End Declare.

(** Modelled from the spec: the constructors of the boxed definitions are
    not part of the modelled sources.  Section 4.2: a symbol definition
    has a value, a domain and a constant flag; a function definition has a
    signature with its handlers.  In the examples a symbol is defined by
    its value and a function by its [evaluate] handler; the definitions
    keep the name they are made for. *)
Definition reference_symbol (name : string) (value : option Expr)
  : BoxedSymbolDefinition :=
  {| symbol_name := name; symbol_wikidata := None; symbol_constant := false;
     symbol_inferredDomain := false; symbol_domain := None;
     symbol_value := value |}.

Definition reference_function (name : string) (evaluate : option Handler)
  : FunctionDefinition :=
  plain_definition name hold_none false None evaluate.

(** An engine in the scope of the examples: [f] is a function of the
    global scope. *)
Definition identifiers0 : Identifiers :=
  {| current :=
       Some {| ids := Some [("f", OfFunction (reference_function "f" None))];
               scope_assumptions := []; enclosing := None |};
     strict := true |}.

(** ** Canonical function expressions ([boxed-function.ts],
       [compute-engine.ts]) *)

(** The heads that [makeNumericFunction] canonicalises on a short path. *)
Definition numeric_head (head : string) : bool :=
  existsb (String.eqb head)
    ["Add"; "Multiply"; "Negate"; "Square"; "Sqrt"; "Exp"; "Ln"; "Divide";
     "Power"].

Section Canonicalization.
Context (k : NumericOps) (ce : EngineOps).
(** [checkNumericArgs] and [adjustArguments] ([boxed-expression/validate]):
    the first is told to flatten for a head or to expect a number of
    operands; the second reads the hold policy, the threadable flag and
    the parameters of the signature of a definition.  [order]
    ([boxed-expression/order]) sorts the operands of a commutative
    function. *)
Context (checkNumericArgs : list Expr -> string + nat -> list Expr).
Context (adjustArguments : FunctionDefinition -> list Expr -> option (list Expr)).
Context (sort_by_order : list Expr -> list Expr).

(** [ce.canonical(xs)] on boxed expressions. *)
Definition ce_canonical (xs : list Expr) : list Expr :=
  if forallb isCanonical xs then xs else map (canonicalOf ce) xs.

(** [ce.neg], [ce.mul], [ce.div], [ce.sqrt]. *)
Definition ce_neg (expr : Expr) : Expr := canonicalNegate k expr.

Definition ce_mul (xs : list Expr) : Expr :=
  canonicalMultiply k (flattenOps ce (flattenSequence ce xs) " Multiply").

Definition ce_div (num denom : Expr) : Expr := canonicalDivide k num denom.

Definition ce_sqrt (fuel : nat) (base : Expr) : option Expr :=
  canonicalPower k fuel base Half.

(** A call that needs [fuel] nested calls at most. *)
Definition within_fuel (r : option Expr) : Outcome (option Expr) :=
  match r with
  | Some e => Returned (Some e)
  | None => OutOfFuel
  end.

(** [makeNumericFunction(ce, head, semiOps)].  An operand that is not there
    is [undefined], whose properties the shortcuts cannot read. *)
Definition makeNumericFunction (fuel : nat) (head : string)
    (semiOps : list Expr) : Outcome (option Expr) :=
  let headed (name : string) := String.eqb head name in
  match (if headed "Add" || headed "Multiply" then Some (inl head)
         else if headed "Negate" || headed "Square" || headed "Sqrt"
                 || headed "Exp" || headed "Ln"
         then Some (inr 1%nat)
         else if headed "Divide" || headed "Power" then Some (inr 2%nat)
         else None) with
  | None => Returned None
  | Some expected =>
      let ops := checkNumericArgs (ce_canonical semiOps) expected in
      if negb (forallb isValid ops) then Returned (Some (_fn head ops))
      else if headed "Add" then Returned (Some (ce_add k ce ops))
      else if headed "Negate" then
        match ops with
        | x :: _ => Returned (Some (ce_neg x))
        | [] => Thrown "TypeError"
        end
      else if headed "Multiply" then Returned (Some (ce_mul ops))
      else if headed "Divide" then
        match ops with
        | x :: y :: _ => Returned (Some (ce_div x y))
        | _ => Thrown "TypeError"
        end
      else if headed "Exp" then
        match ops with
        | x :: _ => within_fuel (pow k fuel (sym "ExponentialE") (ExpBoxed x))
        | [] => Thrown "TypeError"
        end
      else if headed "Power" then
        match ops with
        | x :: y :: _ => within_fuel (pow k fuel x (ExpBoxed y))
        | _ => Thrown "TypeError"
        end
      else if headed "Square" then
        match ops with
        | x :: _ => within_fuel (pow k fuel x (ExpNumber (Finite 2)))
        | [] => Thrown "TypeError"
        end
      else if headed "Sqrt" then
        match ops with
        | x :: _ =>
            let op := canonicalOf ce x in
            match numericValue op with
            | Some (NRational _ _) => Returned (Some (_fn "Sqrt" [op]))
            | _ => within_fuel (pow k fuel op (ExpBoxed Half))
            end
        | [] => Thrown "TypeError"
        end
      else if headed "Ln" then Returned (Some (_fn "Ln" ops))
      else Returned None
  end.

(** The call of the [canonical] handler of a signature, in its [try]
    block: a handler that raises is taken to have given up. *)
Definition call_canonical (handler : Handler) (xs : list Expr)
  : Eval (option Expr) :=
  fun eng =>
    match handler xs eng with
    | (Thrown _, eng') => (Returned None, eng')
    | returned => returned
    end.

(** [makeCanonicalFunction(ce, head, ops)], [operands] being its [ops];
    [evaluate] is the method [evaluate] of the head, when it is an
    expression. *)
Definition makeCanonicalFunction (evaluate : Expr -> Eval Expr) (fuel : nat)
    (head : Head) (operands : list Expr) : Eval Expr :=
  bind EvalM
    match head with
    | HExpr h =>
        bind EvalM pushScope (fun _ =>
        bind EvalM (evaluate h) (fun value =>
        bind EvalM popScope (fun _ =>
        ret EvalM match symbol value with
                  | Some name => HName name
                  | None => head
                  end)))
    | HName _ => ret EvalM head
    end (fun head =>
  bind EvalM
    match head with
    | HName name => fun eng => (makeNumericFunction fuel name operands, eng)
    | HExpr _ => ret EvalM None
    end (fun numeric =>
  match numeric with
  | Some result => ret EvalM result
  | None =>
      if match head with
         | HExpr h => negb (isValid h)
         | HName _ => false
         end
      then ret EvalM (BoxedFunction head operands false)
      else
        match match head with
              | HName name => lookupFunction ce name
              | HExpr _ => None
              end with
        | None =>
            ret EvalM
              (BoxedFunction head
                 (flattenSequence ce (map (canonicalOf ce) operands)) true)
        | Some def =>
            let xs :=
              canonicalOperands (canonicalOf ce) (def_hold def)
                (Z.of_nat (length operands) - 1) 0 operands in
            match sig_canonical (def_signature def) with
            | Some handler =>
                bind EvalM (call_canonical handler xs) (fun result =>
                ret EvalM match result with
                          | Some result => result
                          | None => BoxedFunction head xs false
                          end)
            | None =>
                let xs := flattenSequence ce xs in
                let xs :=
                  if def_associative def
                  then flattenOps ce xs
                         match head with
                         | HName name => name
                         | HExpr _ => EmptyString
                         end
                  else xs in
                match adjustArguments def xs with
                | Some adjustedArgs => ret EvalM (_fn head adjustedArgs)
                | None =>
                    let nested :=
                      match xs, head with
                      | [x], HName name => if headIs x name then Some x else None
                      | _, _ => None
                      end in
                    match nested with
                    | Some x =>
                        if def_involution def then ret EvalM (op1 x)
                        else if def_idempotent def then
                          match ops x with
                          | Some xs =>
                              ret EvalM
                                (_fn head
                                   (if (1 <? length xs)%nat
                                       && def_commutative def
                                    then sort_by_order xs else xs))
                          | None => throw "TypeError"
                          end
                        else ret EvalM (_fn head xs)
                    | None =>
                        ret EvalM
                          (_fn head
                             (if (1 <? length xs)%nat && def_commutative def
                              then sort_by_order xs else xs))
                    end
                end
            end
        end
  end)).

(** The getter [canonical] of a function expression: the expression when it
    is canonical or not valid, else its canonical form, which is made
    once. *)
Definition BoxedFunction_canonical (evaluate : Expr -> Eval Expr) (fuel : nat)
    (h : Head) (xs : list Expr) (c : bool) : Eval Expr :=
  if c then ret EvalM (BoxedFunction h xs c)
  else if isValid (BoxedFunction h xs c)
  then makeCanonicalFunction evaluate fuel h xs
  else ret EvalM (BoxedFunction h xs c).

End Canonicalization.

(** A definition table for the examples on canonical forms: [Inv] is an
    involution, [Flat] is idempotent, and the [canonical] handler of
    [Guard] raises. *)
Definition canonical_library (name : string) : option FunctionDefinition :=
  let base := plain_definition name hold_none false None None in
  if String.eqb name "Inv"
  then Some {| def_name := name; def_hold := hold_none; def_pure := true;
               def_associative := false; def_commutative := false;
               def_idempotent := false; def_involution := true;
               def_threadable := false; def_inert := false;
               def_complexity := 1%nat; def_size := None;
               def_signature := def_signature base |}
  else if String.eqb name "Flat"
  then Some {| def_name := name; def_hold := hold_none; def_pure := true;
               def_associative := false; def_commutative := false;
               def_idempotent := true; def_involution := false;
               def_threadable := false; def_inert := false;
               def_complexity := 1%nat; def_size := None;
               def_signature := def_signature base |}
  else if String.eqb name "Guard"
  then Some {| def_name := name; def_hold := hold_none; def_pure := true;
               def_associative := false; def_commutative := false;
               def_idempotent := false; def_involution := false;
               def_threadable := false; def_inert := false;
               def_complexity := 1%nat; def_size := None;
               def_signature :=
                 {| sig_canonical := Some (fun _ => throw "unexpected");
                    sig_simplify := None; sig_evaluate := None;
                    sig_N := None |} |}
  else None.


(** ** Indexing sets ([library/utils.ts]) and [canonicalSummation]
       ([arithmetic-add.ts], at the end of [compute-engine.ts]) *)

(** [x.op3]. *)
Definition op3 (e : Expr) : Expr :=
  match e with
  | BoxedFunction _ xs _ => nth 2 xs Nothing
  | BoxedTensor (Some t) _ => nth 2 (data t) Nothing
  | BoxedTensor None (BoxedFunction _ xs _) => nth 2 xs Nothing
  | _ => Nothing
  end.

(** [x.isNothing]: the symbol [Nothing]. *)
Definition isNothing (e : Expr) : bool :=
  match symbol e with
  | Some name => String.eqb name "Nothing"
  | None => false
  end.

(** The heads of an indexing set with bounds. *)
Definition tuple_head (e : Expr) : bool :=
  headIs e "Tuple" || headIs e "Triple" || headIs e "Pair"
  || headIs e "Single".

(** [(x.head === 'Hold' ? x.op1.symbol : x.symbol) ?? 'Nothing']. *)
Definition index_name (e : Expr) : string :=
  match (if headIs e "Hold" then symbol (op1 e) else symbol e) with
  | Some name => name
  | None => "Nothing"
  end.

Section IndexingSet.
Context (k : NumericOps).
(** [MAX_ITERATION] ([numerics/numeric]). *)
Context (MAX_ITERATION : Z).

(** [normalizeIndexingSet(limits)]: the index, the bounds and the flag
    [isFinite].  ([asSmallInteger] gives an integer or [null]: the bounds
    are finite numbers.) *)
Definition normalizeIndexingSet (limits : option Expr)
  : option string * Z * Z * bool :=
  match limits with
  | None => (None, 1, 1 + MAX_ITERATION, true)%Z
  | Some limits =>
      if tuple_head limits then
        let index := index_name (op1 limits) in
        let lower :=
          match asSmallInteger k (op2 limits) with
          | Some n => n
          | None => 1%Z
          end in
        let '(upper, isFinite) :=
          if isNothing (op3 limits) || truthy (isInfinity k (op3 limits))
          then (1 + MAX_ITERATION, false)%Z
          else
            match asSmallInteger k (op3 limits) with
            | None => (1 + MAX_ITERATION, false)%Z
            | Some u => (u, true)
            end in
        (Some index, lower,
         if negb isFinite then (lower + MAX_ITERATION)%Z else upper, isFinite)
      else (Some (index_name limits), 1, 1 + MAX_ITERATION, true)%Z
  end.

End IndexingSet.


Section Summation.
Context {Argument : Type}.
(** [ce.declare], as far as the identifier tables go, and the definition
    [{ domain: 'Integers' }]. *)
Context (ce_declare : string -> Argument -> Ids unit).
Context (integers : Argument).
(** [canonical(xs)] ([symbolic/utils]); [x.canonical]; [x.isFinite];
    [x.domain]; [checkDomain(ce, x, 'Integers')]
    ([boxed-expression/validate]); the domain [Symbols]; an expression boxed
    again from its raw JSON. *)
Context (canonical_list : list Expr -> list Expr).
Context (canonical : Expr -> Expr).
Context (isFinite : Expr -> option bool).
Context (domain_of : Expr -> option Expr).
Context (checkIntegers : Expr -> Expr).
Context (Symbols : Expr).
Context (reboxed : Expr -> Expr).






End Summation.

(** ** Numeric settings ([compute-engine.ts]) *)

(** [a <= b], [Math.max(a, b)], [Math.abs(a)] and [Number.isFinite(a)]. *)
Definition js_leb (a b : JSNumber) : bool := js_ltb a b || js_eqb a b.

Definition js_max (a b : JSNumber) : JSNumber :=
  match a, b with
  | NaN, _ | _, NaN => NaN
  | _, _ => if js_ltb a b then b else a
  end.

Definition js_abs (a : JSNumber) : JSNumber :=
  match a with
  | Finite q => Finite (if Qle_bool 0 q then q else Qopp q)
  | NegInfinity => PosInfinity
  | _ => a
  end.

Definition js_isFinite (a : JSNumber) : bool :=
  match a with Finite _ => true | _ => false end.

Inductive NumericMode := ModeAuto | ModeMachine | ModeBignum | ModeComplex.

(** The options of the LaTeX syntax that the setters update. *)
Record LatexOptions := mkLatexOptions {
  latex_precision : JSNumber;
  avoidExponentsInRange : option (JSNumber * JSNumber) }.

(** The fields of the engine that the setters of [precision] and
    [numericMode] read and write: the numeric mode, the precision, the
    precision of the JSON serialization (['max'] is [None]), the LaTeX
    syntax when there is one, the bignum constructor, and the rest of the
    engine, which [reset()] works on. *)
Record NumericSettings (Bignum Rest : Type) := mkSettings {
  _numericMode : NumericMode;
  _precision : JSNumber;
  json_precision : option JSNumber;
  _latexSyntax : option LatexOptions;
  _bignum : Bignum;
  rest : Rest }.
Arguments mkSettings {Bignum Rest} _ _ _ _ _ _.
Arguments _numericMode {Bignum Rest} _.
Arguments _precision {Bignum Rest} _.
Arguments json_precision {Bignum Rest} _.
Arguments _latexSyntax {Bignum Rest} _.
Arguments _bignum {Bignum Rest} _.
Arguments rest {Bignum Rest} _.

Section NumericSettings.
Context {Bignum Rest : Type}.
(** [Math.floor(MACHINE_PRECISION)] ([numerics/numeric]);
    [this._bignum.config({ precision })] (of the bignum library), which can
    raise; [reset()], which needs the bignum constructor. *)
Context (machine_digits : Z).
Context (config : Bignum -> JSNumber -> Outcome Bignum).
Context (reset : Bignum -> Rest -> Rest).

Definition machine : JSNumber := js_of_Z machine_digits.

(** [get precision()]. *)
Definition get_precision (s : NumericSettings Bignum Rest) : JSNumber :=
  match _numericMode s with
  | ModeMachine | ModeComplex => machine
  | _ => _precision s
  end.

(** [if (jsonSerializationOptions.precision > this._precision)
    this.jsonSerializationOptions = { precision: this._precision }]: the
    setter takes a positive number (outside [rawJson], where the raw
    options are read). *)
Definition clamp_json (json : option JSNumber) (precision : JSNumber)
  : option JSNumber :=
  match json with
  | Some j =>
      if js_ltb precision j && js_ltb (js_of_Z 0) precision
      then Some precision else json
  | None => None
  end.

(** [set precision(p)]; [inl tt] is ['machine'].  The argument has the
    type of the signature, [number | 'machine']; the fields are changed in
    the order of the source, so that a bignum constructor that refuses the
    precision leaves the mode and the precision changed. *)
Definition set_precision (p : unit + JSNumber)
    (s : NumericSettings Bignum Rest)
  : Outcome unit * NumericSettings Bignum Rest :=
  let p := match p with inl _ => machine | inr p => p end in
  if js_eqb p (_precision s) then (Returned tt, s)
  else if js_leb p (js_of_Z 0)
  then (Thrown ("Expected " ++ quoted "machine" ++ " or a positive number"), s)
  else
    let latex :=
      match _latexSyntax s with
      | Some _ =>
          Some {| latex_precision := p;
                  avoidExponentsInRange := Some (js_of_Z (-6), p) |}
      | None => None
      end in
    let precision := js_max p machine in
    let json := clamp_json (json_precision s) precision in
    let mode :=
      match _numericMode s with
      | ModeAuto => ModeAuto
      | ModeBignum => ModeBignum
      | mode => if js_ltb machine precision then ModeAuto else mode
      end in
    match config (_bignum s) precision with
    | Returned bignum =>
        (Returned tt,
         {| _numericMode := mode; _precision := precision;
            json_precision := json; _latexSyntax := latex;
            _bignum := bignum; rest := reset bignum (rest s) |})
    | Thrown err =>
        (Thrown err,
         {| _numericMode := mode; _precision := precision;
            json_precision := json; _latexSyntax := latex;
            _bignum := _bignum s; rest := rest s |})
    | OutOfFuel =>
        (OutOfFuel,
         {| _numericMode := mode; _precision := precision;
            json_precision := json; _latexSyntax := latex;
            _bignum := _bignum s; rest := rest s |})
    end.

(** [set numericMode(f)], for [f] one of the four modes. *)
Definition set_numericMode (f : NumericMode)
    (s : NumericSettings Bignum Rest) : NumericSettings Bignum Rest :=
  match f, _numericMode s with
  | ModeAuto, ModeAuto | ModeMachine, ModeMachine
  | ModeBignum, ModeBignum | ModeComplex, ModeComplex => s
  | _, _ =>
      let precision :=
        match f with
        | ModeComplex | ModeMachine => machine
        | _ => _precision s
        end in
      let latex :=
        match _latexSyntax s with
        | Some options =>
            if js_ltb precision (latex_precision options)
            then Some {| latex_precision := precision;
                         avoidExponentsInRange :=
                           avoidExponentsInRange options |}
            else Some options
        | None => None
        end in
      {| _numericMode := f; _precision := precision;
         json_precision := clamp_json (json_precision s) precision;
         _latexSyntax := latex; _bignum := _bignum s;
         rest := reset (_bignum s) (rest s) |}
  end.

End NumericSettings.

(** ** Tolerance ([compute-engine.ts]) *)

(** The argument of [chop]: a number, a bignum or a complex number. *)
Inductive Chopped (Decimal : Type) :=
| ChopNumber (n : JSNumber)
| ChopDecimal (n : Decimal)
| ChopComplex (re im : JSNumber).
Arguments ChopNumber {Decimal} _.
Arguments ChopDecimal {Decimal} _.
Arguments ChopComplex {Decimal} _ _.

Record Tolerance (Decimal : Type) := mkTolerance {
  _tolerance : JSNumber;
  _bignumTolerance : Decimal }.
Arguments mkTolerance {Decimal} _ _.
Arguments _tolerance {Decimal} _.
Arguments _bignumTolerance {Decimal} _.

Section Tolerance.
Context {Decimal : Type}.
(** [NUMERIC_TOLERANCE] ([numerics/numeric]); [ce.bignum(x)];
    [n.abs().lte(t)] (of the bignum library). *)
Context (NUMERIC_TOLERANCE : Q).
Context (bignum : JSNumber -> Decimal).
Context (abs_lte : Decimal -> Decimal -> bool).

(** [set tolerance(val)]. *)
Definition set_tolerance (val : JSNumber) : Tolerance Decimal :=
  let tolerance :=
    if js_isFinite val then js_max val (js_of_Z 0)
    else Finite NUMERIC_TOLERANCE in
  {| _tolerance := tolerance; _bignumTolerance := bignum tolerance |}.

(** [ce.chop(n)]. *)
Definition chop (t : Tolerance Decimal) (n : Chopped Decimal)
  : Chopped Decimal :=
  match n with
  | ChopNumber x =>
      if js_leb (js_abs x) (_tolerance t) then ChopNumber (js_of_Z 0) else n
  | ChopDecimal d =>
      if abs_lte d (_bignumTolerance t) then ChopNumber (js_of_Z 0) else n
  | ChopComplex re im =>
      if js_leb (js_abs re) (_tolerance t) && js_leb (js_abs im) (_tolerance t)
      then ChopNumber (js_of_Z 0) else n
  end.

End Tolerance.

(* ================================================================== *)
(** * Part II: properties *)
(* ================================================================== *)

(** ** Hold policies *)

Lemma shouldHold_held_position (p : Hold) (n i : nat) :
  (i < n)%nat ->
  shouldHold p (Z.of_nat n - 1) (Z.of_nat i) = held_position p n i.
Proof.
  intros Hi. destruct p; unfold shouldHold, held_position; trivial.
  - destruct (Z.eqb_spec (Z.of_nat i) 0), (Nat.eqb_spec i 0); trivial; lia.
  - destruct (Z.eqb_spec (Z.of_nat i) 0), (Nat.leb_spec 1 i),
      (Nat.leb_spec i (n - 1)); simpl; trivial; lia.
  - destruct (Z.eqb_spec (Z.of_nat i) (Z.of_nat n - 1)),
      (Nat.eqb_spec i (n - 1)); trivial; lia.
  - destruct (Z.eqb_spec (Z.of_nat i) (Z.of_nat n - 1)),
      (Nat.leb_spec i (n - 2)), (Nat.leb_spec 2 n); simpl; trivial; lia.
Qed.

Lemma imap_shift {A B : Type} (g : nat -> A -> B) (i0 : nat) (xs : list A) :
  imap ((fun j => g (i0 + j)%nat) ∘ S) xs = imap (fun j => g (S i0 + j)%nat) xs.
Proof.
  apply imap_ext. intros j y _. unfold compose.
  now replace (i0 + S j)%nat with (S i0 + j)%nat by lia.
Qed.

Lemma holdMap_loop_pure (f : Expr -> Expr) (p : Hold) (n : nat) :
  forall (xs : list Expr) (i0 : nat) (acc : list Expr),
    (i0 + length xs <= n)%nat ->
    holdMap_loop PureM p (Z.of_nat n - 1) (Z.of_nat i0) xs
      (fun x => Some (f x)) acc
    = acc ++ imap (fun j => holdMap_slot f p n (i0 + j)) xs.
Proof.
  induction xs as [|x rest IH]; intros i0 acc Hlen; simpl in *.
  - now rewrite app_nil_r.
  - assert (Hi : (i0 < n)%nat) by lia.
    replace (Z.of_nat i0 + 1) with (Z.of_nat (S i0)) by lia.
    rewrite (imap_shift (holdMap_slot f p n)). unfold holdMap_slot at 1.
    rewrite Nat.add_0_r, <- (shouldHold_held_position p n i0 Hi).
    destruct (headIs x "Hold"); [|destruct (headIs x "ReleaseHold");
      [|destruct (shouldHold p (Z.of_nat n - 1) (Z.of_nat i0))]];
      simpl; rewrite IH by lia; now rewrite <- app_assoc.
Qed.

Lemma holdMap_none_pure (f : Expr -> Expr) (n : nat) :
  forall (xs : list Expr) (i0 : nat) (acc : list Expr),
    holdMap_none PureM xs (fun x => Some (f x)) acc
    = acc ++ imap (fun j => holdMap_slot f hold_none n (i0 + j)) xs.
Proof.
  induction xs as [|x rest IH]; intros i0 acc; simpl.
  - now rewrite app_nil_r.
  - rewrite (imap_shift (holdMap_slot f hold_none n)).
    unfold holdMap_slot at 1. simpl.
    destruct (headIs x "Hold"); [|destruct (headIs x "ReleaseHold")];
      simpl; rewrite (IH (S i0)); now rewrite <- app_assoc.
Qed.

Lemma holdMap_loop_all_positions (f : Expr -> Expr) (p : Hold)
    (xs : list Expr) :
  holdMap_loop PureM p (Z.of_nat (length xs) - 1) 0 xs
    (fun x => Some (f x)) []
  = imap (holdMap_slot f p (length xs)) xs.
Proof.
  change 0 with (Z.of_nat 0).
  now rewrite (holdMap_loop_pure f p (length xs) xs 0 []) by (simpl; lia).
Qed.

Lemma holdMap_none_all_positions (f : Expr -> Expr) (xs : list Expr) :
  holdMap_none PureM xs (fun x => Some (f x)) []
  = imap (holdMap_slot f hold_none (length xs)) xs.
Proof. now rewrite (holdMap_none_pure f (length xs) xs 0 []). Qed.

Lemma canonicalOperands_imap (canonical : Expr -> Expr) (p : Hold) (n : nat) :
  forall (xs : list Expr) (i0 : nat),
    (i0 + length xs <= n)%nat ->
    canonicalOperands canonical p (Z.of_nat n - 1) (Z.of_nat i0) xs
    = imap (fun j x =>
              if held_position p n (i0 + j)
              then (if headIs x "ReleaseHold" then canonical (op1 x) else x)
              else canonical x) xs.
Proof.
  induction xs as [|x rest IH]; intros i0 Hlen; simpl in *; trivial.
  assert (Hi : (i0 < n)%nat) by lia.
  replace (Z.of_nat i0 + 1) with (Z.of_nat (S i0)) by lia.
  rewrite IH by lia. rewrite Nat.add_0_r, (shouldHold_held_position p n i0 Hi).
  f_equal.
  - now destruct (held_position p n i0).
  - apply imap_ext. intros j y _. unfold compose.
    now replace (i0 + S j)%nat with (S i0 + j)%nat by lia.
Qed.

(** C4 (as amended).  For a non-empty operand list whose flattened form has
    [n] operands: [shouldHold] holds exactly the positions of the policy
    table; under every policy but [all], [holdMap] keeps an operand whose
    head is [Hold], hands the operand of a [ReleaseHold] to the callback,
    keeps the other operands at held positions and hands the remaining ones
    to the callback; under [all] it returns the flattened operands without
    calling the callback; and [makeCanonicalFunction] canonicalises the
    operands at positions that are not held, whatever their head, and, at
    held positions, the operand of a [ReleaseHold] only. *)
Theorem hold_policy_processing
    (flattenOps : list Expr -> string -> list Expr)
    (canonical f : Expr -> Expr) (g : Expr -> option Expr)
    (p : Hold) (xs : list Expr) (h : string) :
  xs <> [] ->
  let xs' := flattenOps xs h in
  let n := length xs' in
  (forall i : nat, (i < n)%nat ->
     shouldHold p (Z.of_nat n - 1) (Z.of_nat i) = held_position p n i)
  /\ (p <> hold_all ->
      holdMap PureM flattenOps xs p h (fun x => Some (f x))
      = flattenOps (imap (holdMap_slot f p n) xs') h)
  /\ holdMap PureM flattenOps xs hold_all h g = xs'
  /\ canonicalOperands canonical p (Z.of_nat (length xs) - 1) 0 xs
     = imap (fun i x =>
               if held_position p (length xs) i
               then (if headIs x "ReleaseHold" then canonical (op1 x) else x)
               else canonical x) xs.
Proof.
  intros Hxs xs' n. repeat split.
  - intros i Hi. now apply shouldHold_held_position.
  - intros Hp. unfold holdMap.
    destruct xs as [|x0 xs0]; [easy|]. cbn [length Nat.eqb].
    fold xs'. fold n.
    destruct p; try easy; cbn [bind ret PureM]; subst n.
    + now rewrite holdMap_none_all_positions.
    + now rewrite holdMap_loop_all_positions.
    + now rewrite holdMap_loop_all_positions.
    + now rewrite holdMap_loop_all_positions.
    + now rewrite holdMap_loop_all_positions.
  - unfold holdMap. destruct xs as [|x0 xs0]; [easy|]. reflexivity.
  - change 0 with (Z.of_nat 0).
    now rewrite (canonicalOperands_imap canonical p (length xs) xs 0)
      by (simpl; lia).
Qed.

(** The policy theorem on [f(a, ReleaseHold(b), Hold(c), d)] under [rest]. *)
Lemma hold_policy_processing_witness :
  let xs := [sym "a"; _fn "ReleaseHold" [sym "b"]; _fn "Hold" [sym "c"];
             sym "d"] in
  let f := fun x => _fn "Evaluated" [x] in
  xs <> []
  /\ holdMap PureM flattenOps_model xs hold_rest "" (fun x => Some (f x))
     = [f (sym "a"); f (sym "b"); _fn "Hold" [sym "c"]; sym "d"].
Proof.
  intros xs f. split; [easy|].
  destruct (hold_policy_processing flattenOps_model f f (fun _ => None)
              hold_rest xs "") as (_ & H & _); [easy|].
  rewrite H by easy. reflexivity.
Defined.

(** C4 as stated fails: under [all], [holdMap] returns a [ReleaseHold]
    operand untouched (the wrapper is kept and the callback is not
    called), and under [none] [makeCanonicalFunction] canonicalises an
    operand whose head is [Hold]. *)
Lemma hold_policy_counterexample :
  let f := fun x => _fn "Evaluated" [x] in
  let x := _fn "ReleaseHold" [sym "a"] in
  holdMap PureM flattenOps_model [x] hold_all "" (fun y => Some (f y)) = [x]
  /\ holdMap PureM flattenOps_model [x] hold_all "" (fun y => Some (f y))
     <> imap (holdMap_slot f hold_all 1) [x]
  /\ canonicalOperands f hold_none 0 0 [_fn "Hold" [sym "a"]]
     = [f (_fn "Hold" [sym "a"])].
Proof.
  cbv zeta. repeat split. intros H. discriminate H.
Qed.

(** ** Scope restoration *)









Section ScopeRestoration.
Context (ce : EngineOps).



End ScopeRestoration.




(** ** Tensors *)

(** C10.  A tensor whose tensor form is materialised is returned as it is
    by [evaluate], [simplify] and [N], and is canonical, valid and pure. *)
Theorem materialised_tensor_is_fixed_point (ce : EngineOps)
    (t : AbstractTensor Expr) (ex : Expr) (fuel : nat) (numericMode : bool)
    (options : SimplifyOptions) (eng : Engine) :
  let this := BoxedTensor (Some t) ex in
  evaluate ce (S fuel) numericMode this eng = (Returned this, eng)
  /\ simplify ce (S fuel) options this eng = (Returned this, eng)
  /\ N ce (S fuel) this eng = (Returned this, eng)
  /\ isCanonical this = true
  /\ isValid this = true
  /\ isPure ce this = true.
Proof. cbv zeta. repeat split. Qed.

(** ** Cost-biased acceptance *)

(** The rule loop of [simplify] makes between 1 and [remaining + 1] passes,
    each of which is [cheapest] between the current expression and its
    rewriting. *)
Lemma rule_loop_iterates (ce : EngineOps) (rules : BoxedRuleSet) :
  forall (remaining : nat) (expr : Expr),
    exists passes : nat,
      (1 <= passes <= S remaining)%nat
      /\ rule_loop ce rules remaining expr
         = Nat.iter passes
             (fun e => cheapest ce e (replace ce e rules)) expr.
Proof.
  assert (Hpass : forall e, fst (rule_pass ce rules e)
                            = cheapest ce e (replace ce e rules)).
  { intros e. unfold rule_pass. now destruct (replace ce e rules). }
  induction remaining as [|remaining IH]; intros expr; cbn [rule_loop];
    specialize (Hpass expr);
    destruct (rule_pass ce rules expr) as [expr' done]; cbn [fst] in Hpass.
  - exists 1%nat. split; [lia|]. cbn. exact Hpass.
  - destruct done.
    + exists 1%nat. split; [lia|]. cbn. exact Hpass.
    + destruct (IH expr') as (passes & Hbound & Hloop).
      exists (S passes). split; [lia|].
      now rewrite Nat.iter_succ_r, <- Hpass.
Qed.

(** C6.  A candidate that is not the old expression itself is accepted,
    in its boxed form, exactly when its cost is at most 1.2 times the cost
    of the old expression; otherwise the old expression is kept; and the
    rule loop of [simplify] is a sequence of such decisions between the
    current expression and its rewriting. *)
Theorem cheapest_accepts_within_bias (ce : EngineOps)
    (oldExpr newExpr : Expr) (rules : BoxedRuleSet) (remaining : nat) :
  sameObject ce oldExpr newExpr = false ->
  let candidate := canonicalOf ce newExpr in
  ((costFunction ce candidate <= 1.2 * costFunction ce oldExpr)%Q
   /\ cheapest ce oldExpr (Some newExpr) = candidate
   \/ ~ (costFunction ce candidate <= 1.2 * costFunction ce oldExpr)%Q
      /\ cheapest ce oldExpr (Some newExpr) = oldExpr)
  /\ cheapest ce oldExpr None = oldExpr
  /\ exists passes : nat,
       (1 <= passes <= S remaining)%nat
       /\ rule_loop ce rules remaining oldExpr
          = Nat.iter passes
              (fun e => cheapest ce e (replace ce e rules)) oldExpr.
Proof.
  intros Hsame candidate. split; [|split].
  - unfold cheapest. rewrite Hsame. fold candidate.
    destruct (Qle_bool (costFunction ce candidate)
                (1.2 * costFunction ce oldExpr)) eqn:Hle.
    + left. split; [now apply Qle_bool_iff | reflexivity].
    + right. split; [|reflexivity].
      intros Hq. apply Qle_bool_iff in Hq. congruence.
  - reflexivity.
  - apply rule_loop_iterates.
Qed.

(** With the node count as cost, [x + y] (3 nodes) gives way to [z]
    (1 node), and [z] does not give way to [x + y]. *)
Lemma cheapest_accepts_within_bias_witness :
  let ce := reference_engine reference_library None in
  let sum := _fn "Add" [sym "x"; sym "y"] in
  sameObject ce sum (sym "z") = false
  /\ cheapest ce sum (Some (sym "z")) = sym "z"
  /\ cheapest ce (sym "z") (Some sum) = sym "z".
Proof.
  intros ce sum. split; [reflexivity|]. split.
  - destruct (cheapest_accepts_within_bias ce sum (sym "z") [] 0 eq_refl)
      as ([[_ H]|[H _]] & _); [exact H|].
    exfalso. apply H. vm_compute. discriminate.
  - destruct (cheapest_accepts_within_bias ce (sym "z") sum [] 0 eq_refl)
      as ([[H _]|[_ H]] & _); [|exact H].
    exfalso. vm_compute in H. now apply H.
Defined.

(** ** Threading *)



Section Threading.
Context (ce : EngineOps).



End Threading.


(** ** The canonical form of [Add] *)



(** ** The canonical form of [Power] *)

(** *** [canonicalPower] returns *)

Lemma depth_nth (xs : list Expr) (i : nat) :
  (depth (nth i xs Nothing) <= list_max (map depth xs))%nat.
Proof.
  revert i. induction xs as [|x rest IH]; intros [|i];
    cbn [nth map list_max fold_right depth Nothing]; try lia.
  specialize (IH i). unfold list_max in IH. lia.
Qed.

Lemma depth_operand (e : Expr) (xs : list Expr) (x : Expr) :
  ops e = Some xs -> In x xs -> (depth x < depth e)%nat.
Proof.
  assert (Hin : forall ys, In x ys -> (depth x <= list_max (map depth ys))%nat).
  { induction ys as [|y rest IH]; intros Hx; [contradiction|].
    cbn [map list_max fold_right]. destruct Hx as [Hx|Hx].
    - subst. lia.
    - specialize (IH Hx). unfold list_max in IH. lia. }
  destruct e as [v|s|s|h ys c|t ex]; cbn; try discriminate.
  - intros H Hx. inversion H; subst. specialize (Hin xs Hx). lia.
  - destruct ex as [| | |h ys c|]; try discriminate.
    intros H Hx. inversion H; subst. specialize (Hin xs Hx). cbn. lia.
Qed.

Lemma mapM_option_total {A B : Type} (f : A -> option B) (xs : list A) :
  (forall x, In x xs -> exists y, f x = Some y) ->
  exists ys, mapM_option f xs = Some ys.
Proof.
  induction xs as [|x rest IH]; intros H; cbn.
  - now exists [].
  - destruct (H x (or_introl eq_refl)) as [y Hy]. rewrite Hy.
    destruct IH as [ys Hys]; [intros z Hz; apply H; now right|].
    rewrite Hys. now exists (y :: ys).
Qed.

Section PowerReturns.
Context (k : NumericOps).

Lemma inv_returns (fuel : nat) :
  forall expr, (depth expr < fuel)%nat -> exists r, inv k fuel expr = Some r.
Proof.
  induction fuel as [|fuel IH]; intros expr Hd; [lia|]. cbn [inv].
  destruct (truthy (isOne k expr)); [eauto|].
  destruct (truthy (isNegativeOne k expr)); [eauto|].
  destruct (truthy (isInfinity k expr)); [eauto|].
  destruct (numericValue expr) as [[x|x|re im|a b]|] eqn:En.
  - destruct (js_isInteger x); eauto.
  - destruct (js_isInteger x); eauto.
  - eauto.
  - eauto.
  - destruct (headIs expr "Sqrt") eqn:Hs.
    + destruct (IH (op1 expr)) as [r Hr].
      * destruct expr as [v|s|s|h xs c|[t|] ex]; try discriminate.
        -- cbn in *. pose proof (depth_nth xs 0). lia.
        -- destruct ex as [| | |h xs c|]; try discriminate.
           cbn in *. pose proof (depth_nth xs 0). lia.
      * rewrite Hr. eauto.
    + destruct (headIs expr "Divide"); [eauto|].
      destruct (headIs expr "Power").
      * destruct (truthy (isNegativeOne k (op2 expr))); [eauto|].
        destruct (truthy (isNegativeOne k (canonicalNegate k (op2 expr))));
          eauto.
      * destruct (truthy (isNegativeOne k NegativeOne)); eauto.
Qed.

Lemma pow_finish_returns (cp : Expr -> Expr -> option Expr) (base : Expr)
    (exponent : Exponent) (e : option JSNumber) :
  (forall e', exists r, cp base e' = Some r) ->
  exists r, pow_finish k cp base exponent e = Some r.
Proof.
  intros Hcp. unfold pow_finish.
  destruct (match e with Some x => js_eqb x (Finite 0) | None => false end);
    [eauto|].
  destruct (match e with Some x => js_eqb x (Finite 1) | None => false end);
    [eauto|].
  destruct (if match e with Some x => js_eqb x (Finite (-1)) | None => false end
            then _ else None); [eauto|apply Hcp].
Qed.

Lemma pow_with_returns (cp : Expr -> Expr -> option Expr) (base : Expr)
    (exponent : Exponent) :
  (forall e, exists r, cp base e = Some r) ->
  exists r, pow_with k cp base exponent = Some r.
Proof.
  intros Hcp. unfold pow_with.
  destruct exponent as [x|a b|e].
  - now apply pow_finish_returns.
  - destruct (a =? 0); [eauto|]. destruct (a =? b); [eauto|].
    destruct (b =? 1); now apply pow_finish_returns.
  - destruct (numericValue e) as [[x|x|re im|a b]|];
      try now apply pow_finish_returns.
    destruct (a =? 0); [eauto|]. destruct (a =? b); [eauto|].
    destruct (b =? 1); now apply pow_finish_returns.
Qed.

Lemma power_numeric_returns (inv' : Expr -> option Expr) (base exponent : Expr) :
  (exists r, inv' base = Some r) ->
  (exists r, inv' (_fn "Sqrt" [base]) = Some r) ->
  forall o, power_numeric k inv' base exponent = Some o -> exists r, o = Some r.
Proof.
  intros [r1 H1] [r2 H2] o. unfold power_numeric.
  repeat match goal with
         | |- Some (Some _) = Some _ -> _ =>
             let H := fresh in intros H; inversion H; eauto
         | |- Some (inv' _) = Some _ -> _ =>
             let H := fresh in
             intros H; inversion H; rewrite ?H1, ?H2; eauto
         | |- None = Some _ -> _ => discriminate
         | |- (let '(_, _) := ?p in _) = _ -> _ => destruct p
         | |- context [if ?b then _ else _] => destruct b
         | |- context [match ?x with _ => _ end] => destruct x
         end.
Qed.

(** With fuel beyond the depth of the base, [canonicalPower] returns. *)
Lemma canonicalPower_returns (fuel : nat) :
  forall base exponent,
    (depth base + 3 <= fuel)%nat ->
    exists r, canonicalPower k fuel base exponent = Some r.
Proof.
  induction fuel as [|fuel IH]; intros base exponent Hd; [lia|].
  cbn [canonicalPower].
  destruct (match symbol exponent with
            | Some s => String.eqb s "ComplexInfinity"
            | None => false
            end); [eauto|].
  destruct (truthy (isZero k exponent)); [eauto|].
  destruct (truthy (isOne k exponent)); [eauto|].
  destruct (truthy (isNegativeOne k exponent));
    [apply inv_returns; lia|].
  assert (Hnum : forall o,
            match numericValue exponent, numericValue base with
            | Some _, Some _ => power_numeric k (inv k fuel) base exponent
            | _, _ => None
            end = Some o -> exists r, o = Some r).
  { intros o. destruct (numericValue exponent); [|discriminate].
    destruct (numericValue base) eqn:Eb; [|discriminate].
    assert (Hleaf : depth base = 0%nat)
      by (destruct base; try discriminate; reflexivity).
    apply power_numeric_returns; apply inv_returns; cbn; lia. }
  destruct (match numericValue exponent, numericValue base with
            | Some _, Some _ => power_numeric k (inv k fuel) base exponent
            | _, _ => None
            end) as [o|].
  { destruct (Hnum o eq_refl) as [r ->]. eauto. }
  clear Hnum.
  assert (Hop1 : headIs base "Power" = true ->
                 forall e, exists r,
                   pow_with k (canonicalPower k fuel) (op1 base) e = Some r).
  { intros Hh e. apply pow_with_returns. intros e'. apply IH.
    destruct base as [v|s|s|h xs c|[t|] ex]; try discriminate.
    - cbn in *. pose proof (depth_nth xs 0). lia.
    - destruct ex as [| | |h xs c|]; try discriminate.
      cbn in *. pose proof (depth_nth xs 0). lia. }
  assert (Hrest : exists r,
            match (if headIs base "Multiply"
                   then asSmallInteger k exponent else None) with
            | Some _ =>
                match mapM_option
                        (fun x => pow_with k (canonicalPower k fuel) x
                                    (ExpBoxed exponent))
                        (match ops base with Some xs => xs | None => [] end) with
                | Some ys => Some (_fn "Multiply" ys)
                | None => None
                end
            | None => Some (_fn "Power" [base; exponent])
            end = Some r).
  { destruct (if headIs base "Multiply" then asSmallInteger k exponent else None);
      [|eauto].
    destruct (mapM_option_total
                (fun x => pow_with k (canonicalPower k fuel) x (ExpBoxed exponent))
                (match ops base with Some xs => xs | None => [] end))
      as [ys Hys].
    { intros x Hx. apply pow_with_returns. intros e'. apply IH.
      destruct (ops base) as [xs|] eqn:Eo; [|contradiction].
      pose proof (depth_operand base xs x Eo Hx). lia. }
    rewrite Hys. eauto. }
  destruct (headIs base "Power" && truthy (isReal k (op1 base))) eqn:Hpower;
    [|exact Hrest].
  apply andb_prop in Hpower. destruct Hpower as [Hpower _].
  specialize (Hop1 Hpower).
  destruct (asSmallInteger k exponent) as [a|],
    (asSmallInteger k (op2 base)) as [b|]; try apply Hop1;
    (destruct (truthy (isNonNegative k (op1 base))); [|exact Hrest]);
    destruct (asRational k exponent) as [[an ad]|],
      (asRational k (op2 base)) as [[bn bd]|];
    try apply Hop1; exact Hrest.
Qed.

End PowerReturns.







(** ** Hashes and structural equality *)

(** Induction on expressions, with the hypothesis for every operand. *)
Lemma Expr_operands_ind (P : Expr -> Prop) :
  (forall v, P (BoxedNumber v)) ->
  (forall s, P (BoxedSymbol s)) ->
  (forall s, P (BoxedString s)) ->
  (forall h xs c, Forall P xs -> P (BoxedFunction h xs c)) ->
  (forall t ex, P ex -> P (BoxedTensor t ex)) ->
  forall e, P e.
Proof.
  intros Hn Hs Hstr Hf Ht. fix IH 1. intros [v|s|s|h xs c|t ex].
  - apply Hn.
  - apply Hs.
  - apply Hstr.
  - apply Hf. induction xs as [|x rest IHrest]; constructor.
    + apply IH.
    + exact IHrest.
  - apply Ht, IH.
Qed.

Section HashLaw.
Context (hashCode : string -> Z) (hashNumber : NumericValue -> Z).
Context (tensor_equals head_isSame : Expr -> Expr -> bool).
Context (hashNumber_same :
           forall v w, numeric_eqb v w = true -> hashNumber v = hashNumber w).

(** A left fold that reads its elements through [key] only. *)
Lemma fold_left_same_keys {A : Type} (step : Z -> Z -> Z) (key : A -> Z)
    (xs ys : list A) :
  Forall2 (fun x y => key x = key y) xs ys ->
  forall acc,
    fold_left (fun acc op => step acc (key op)) xs acc
    = fold_left (fun acc op => step acc (key op)) ys acc.
Proof.
  induction 1 as [|x y xs' ys' Hxy _ IH]; intros acc; cbn [fold_left].
  - reflexivity.
  - rewrite Hxy. apply IH.
Qed.

(** The operand loop of [isSame] relates the operands pairwise. *)
Lemma same_operands_Forall2 (same : Expr -> Expr -> bool) :
  forall xs ys,
    length xs = length ys ->
    (fix same_ops (xs ys : list Expr) : bool :=
       match xs, ys with
       | x :: xs', y :: ys' => same x y && same_ops xs' ys'
       | [], _ => true
       | _ :: _, [] => false
       end) xs ys = true ->
    Forall2 (fun x y => same x y = true) xs ys.
Proof.
  induction xs as [|x rest IH]; intros [|y ys'] Hlen Hops;
    try discriminate; constructor.
  - now apply andb_prop in Hops.
  - apply IH; [now injection Hlen | now apply andb_prop in Hops].
Qed.

(** X9.  Between function applications with named heads, symbols, strings
    and numbers, two expressions that are the same have equal hashes,
    provided that two numbers that are the same have equal hashes. *)
Lemma plain_hash_law :
  forall a, plain a = true ->
  forall b, isSame tensor_equals head_isSame a b = true ->
  hash hashCode hashNumber a = hash hashCode hashNumber b.
Proof.
  induction a as [v|s|s|h xs c IH|t ex _] using Expr_operands_ind;
    intros Hplain b Hsame.
  - destruct b; try discriminate. now apply hashNumber_same.
  - destruct b; try discriminate.
    apply String.eqb_eq in Hsame. now subst.
  - destruct b; try discriminate.
    apply String.eqb_eq in Hsame. now subst.
  - destruct h as [n|he]; [|discriminate].
    destruct b as [| | |h' ys c'|]; try discriminate.
    cbn [isSame] in Hsame.
    apply andb_prop in Hsame. destruct Hsame as [Hsame Hops].
    apply andb_prop in Hsame. destruct Hsame as [Hlen Hhead].
    destruct h' as [n'|]; [|discriminate].
    apply String.eqb_eq in Hhead. subst n'.
    apply Nat.eqb_eq in Hlen.
    apply same_operands_Forall2 in Hops; [|exact Hlen].
    cbn [hash].
    rewrite (fold_left_same_keys
               (fun acc v => to_int32 (js_xor (js_shl1 acc) v))
               (hash hashCode hashNumber) xs ys); [reflexivity|].
    cbn [plain] in Hplain. clear Hlen.
    induction Hops as [|x y xs' ys' Hxy _ IHops]; constructor.
    + inversion IH; subst. apply andb_prop in Hplain. now apply H1.
    + inversion IH; subst. apply andb_prop in Hplain. now apply IHops.
  - discriminate.
Qed.

End HashLaw.

(** A tensor hashes the name of its class, and compares with an expression
    that is not a tensor through its own expression. *)
Lemma tensor_hash_and_isSame (hashCode : string -> Z)
    (hashNumber : NumericValue -> Z)
    (tensor_equals head_isSame : Expr -> Expr -> bool)
    (t : option (AbstractTensor Expr)) (ex : Expr) (h : Head)
    (xs : list Expr) (c : bool) :
  hash hashCode hashNumber (BoxedTensor t ex) = hashCode "BoxedTensor"
  /\ isSame tensor_equals head_isSame (BoxedTensor t ex) (BoxedFunction h xs c)
     = isSame tensor_equals head_isSame ex (BoxedFunction h xs c).
Proof. split; reflexivity. Qed.

(** C2 fails on the code.  The tensor made from the expression
    [List(x, y)] is the same as the function expression [List(x, y)], and
    their hashes differ: the hash of the tensor ignores its content. *)
Theorem tensor_breaks_hash_law :
  let expression := _fn "List" [sym "x"; sym "y"] in
  let tensor := BoxedTensor None expression in
  isSame_model tensor expression = true
  /\ hash hashCode_model hashNumber_model tensor = 163716227
  /\ hash hashCode_model hashNumber_model expression = 2368567
  /\ hash hashCode_model hashNumber_model tensor
     <> hash hashCode_model hashNumber_model expression.
Proof.
  cbv zeta. split; [reflexivity|].
  assert (Ht : hash hashCode_model hashNumber_model
                 (BoxedTensor None (_fn "List" [sym "x"; sym "y"]))
               = 163716227) by (vm_compute; reflexivity).
  assert (He : hash hashCode_model hashNumber_model
                 (_fn "List" [sym "x"; sym "y"]) = 2368567)
    by (vm_compute; reflexivity).
  split; [exact Ht|]. split; [exact He|].
  rewrite Ht, He. discriminate.
Qed.

(** ** The solver *)

(** Once the root rules are cached, [harmonize] obtains these very rules
    from the cache, under the same name, and matches against them: the
    harmonisation rules are not built. *)
Lemma harmonize_after_root_rules (k : NumericOps) (ce : EngineOps)
    (eng eng1 : Engine) (rules : BoxedRuleSet) (expr : Expr) :
  cache "univariate-roots-rules" (fun _ => boxRules ce (UNIVARIATE_ROOTS k))
    eng = (Returned rules, eng1) ->
  harmonize k ce expr eng1
  = (Returned (matchRules ce expr rules [("_x", sym "_x")]), eng1).
Proof.
  unfold harmonize, cache. cbn [bind ret EvalM].
  destruct (_cache eng !! "univariate-roots-rules") as [cached|] eqn:E;
    intros H; inversion H; subst; clear H.
  - now rewrite E.
  - cbn [_cache]. now rewrite lookup_insert_eq.
Qed.

(** C1 fails on the code.  Solving [sin(x) = 0] for [x]: no root rule
    matches; [harmonize] then matches [sin(_x)] against the cached root
    rules and gives no form, where the harmonisation rules give [_x]; the
    solver has nothing to retry on. *)
Theorem harmonize_applies_root_rules :
  let k := reference_kernel_x in
  let ce := reference_engine_global in
  let roots := boxRules ce (UNIVARIATE_ROOTS k) in
  let eng1 := {| context := Some global_scope;
                 _cache := <["univariate-roots-rules" := roots]> ∅ |} in
  cache "univariate-roots-rules" (fun _ => roots) engine0
  = (Returned roots, eng1)
  /\ harmonize k ce (pat "Sin" [sym "_x"]) eng1
     = (Returned (matchRules ce (pat "Sin" [sym "_x"]) roots
                    [("_x", sym "_x")]), eng1)
  /\ matchRules ce (pat "Sin" [sym "_x"]) roots [("_x", sym "_x")] = []
  /\ matchRules ce (pat "Sin" [sym "_x"])
       (boxRules ce (HARMONIZATION_RULES k)) [("_x", sym "_x")]
     = [sym "_x"]
  /\ fst (findUnivariateRoots k ce 4 (_fn "Sin" [sym "x"]) "x" engine0)
     = Returned [].
Proof.
  intros k ce roots eng1.
  assert (Hcache : cache "univariate-roots-rules" (fun _ => roots) engine0
                   = (Returned roots, eng1)) by reflexivity.
  split; [exact Hcache|]. split.
  { exact (harmonize_after_root_rules k ce engine0 eng1 roots _ Hcache). }
  split; [vm_compute; reflexivity|]. split; vm_compute; reflexivity.
Qed.


(** ** The tensor form of an expression *)

Section TensorFacts.
Context {D V : Type}.
Context (getExpressionDatatype : Expr -> D).
Context (getSupertype : D -> D -> D).
Context (cast : Expr -> D -> option V).

Lemma visit_axis_recorded (pre dims' : list nat) (d : nat)
    (st : InfoState D) :
  (0 < d)%nat -> info_valid st = true ->
  recorded pre (d :: dims') (info_shape st) ->
  exists shape,
    visit_axis d (length pre) st
    = {| info_shape := shape; info_dtype := info_dtype st;
         info_valid := true |}
    /\ recorded (pre ++ [d]) dims' shape.
Proof.
  intros Hd Hvalid (ds1 & ds2 & Hdims & Hshape). unfold visit_axis, sparse_at.
  rewrite Hshape, Hvalid. destruct ds1 as [|d0 ds1'].
  - rewrite app_nil_r.
    rewrite (lookup_ge_None_2 (map Some pre) (length pre))
      by (rewrite length_map; lia).
    exists (map Some (pre ++ [d])). split.
    + assert (Hset : sparse_set (map Some pre) (length pre) (Nat.max 0 d)
                     = map Some (pre ++ [d])).
      { unfold sparse_set. rewrite length_map, Nat.ltb_irrefl, Nat.sub_diag.
        now rewrite map_app. }
      destruct (1 <? d)%nat; now rewrite Hset.
    + exists [], dims'. now rewrite app_nil_r.
  - cbn in Hdims. injection Hdims as <- Hrest.
    assert (Hat : map Some (pre ++ d :: ds1') !! length pre = Some (Some d)).
    { rewrite list_lookup_fmap, lookup_app_r by lia.
      now rewrite Nat.sub_diag. }
    rewrite Hat. exists (map Some (pre ++ d :: ds1')). split.
    + destruct (1 <? d)%nat eqn:Hone.
      * now rewrite Nat.eqb_refl.
      * f_equal. unfold sparse_set. rewrite Nat.max_id.
        assert (Hlt : (length pre <? length (map Some (pre ++ d :: ds1')))%nat
                      = true).
        { apply Nat.ltb_lt. rewrite length_map, length_app. cbn. lia. }
        rewrite Hlt. now apply list_insert_id.
    + exists ds1', ds2. split; [exact Hrest|]. now rewrite <- app_assoc.
Qed.

Lemma info_visit_rectangular (head : string) :
  forall (dims pre : list nat) (t : list Expr) (st : InfoState D),
    rectangular head dims t = true ->
    info_valid st = true ->
    recorded pre dims (info_shape st) ->
    info_visit (info_item getExpressionDatatype getSupertype head) t
      (length pre) st
    = Returned
        {| info_shape := map Some (pre ++ dims);
           info_dtype :=
             fold_left (widen getExpressionDatatype getSupertype)
               (leaves dims t) (info_dtype st);
           info_valid := true |}.
Proof.
  induction dims as [|d dims' IH]; intros pre t st Hrect Hvalid Hrec;
    [discriminate|].
  cbn [rectangular] in Hrect.
  apply andb_prop in Hrect. destruct Hrect as [Hrect Hitems].
  apply andb_prop in Hrect. destruct Hrect as [Hlen Hd].
  apply Nat.eqb_eq in Hlen. apply Nat.ltb_lt in Hd.
  destruct (visit_axis_recorded pre dims' d st Hd Hvalid Hrec)
    as (shape1 & Haxis & Hrec1).
  unfold info_visit. destruct t as [|x0 t0] eqn:Et; [cbn in Hlen; lia|].
  rewrite <- Et in *. rewrite Hlen, Haxis.
  assert (Hne : t <> []) by (rewrite Et; discriminate).
  clear Et x0 t0 Haxis Hlen Hrec Hvalid.
  (* the loop over the items *)
  assert (Hloop : forall items shape dtype,
             forallb
               (fun item =>
                  match dims' with
                  | [] => negb (headIs item head)
                  | _ =>
                      headIs item head
                      && match item with
                         | BoxedFunction _ xs _ => rectangular head dims' xs
                         | _ => false
                         end
                  end) items = true ->
             recorded (pre ++ [d]) dims' shape ->
             visit_items
               (info_item getExpressionDatatype getSupertype head (length pre))
               (fun st => negb (info_valid st)) items
               {| info_shape := shape; info_dtype := dtype;
                  info_valid := true |}
             = Returned
                 {| info_shape :=
                      match items with
                      | [] => shape
                      | _ => map Some (pre ++ d :: dims')
                      end;
                    info_dtype :=
                      fold_left (widen getExpressionDatatype getSupertype)
                        (leaves (d :: dims') items) dtype;
                    info_valid := true |}).
  { induction items as [|item rest IHitems]; intros shape dtype Hall Hrec.
    - cbn. now destruct dims'.
    - cbn [forallb] in Hall. apply andb_prop in Hall.
      destruct Hall as [Hitem Hrest]. cbn [visit_items].
      destruct dims' as [|d' dims''].
      + (* the last axis: the items widen the datatype *)
        apply negb_true_iff in Hitem.
        destruct Hrec as (ds1 & ds2 & Hnil & Hshape).
        symmetry in Hnil. apply app_eq_nil in Hnil. destruct Hnil; subst.
        rewrite app_nil_r in *.
        assert (Hstep : info_item getExpressionDatatype getSupertype head
                          (length pre) item
                          {| info_shape := map Some (pre ++ [d]);
                             info_dtype := dtype; info_valid := true |}
                        = Returned
                            {| info_shape := map Some (pre ++ [d]);
                               info_dtype :=
                                 widen getExpressionDatatype getSupertype
                                   dtype item;
                               info_valid := true |}).
        { destruct item; cbn [info_item]; rewrite Hitem; reflexivity. }
        rewrite Hstep. cbn [info_valid negb].
        rewrite (IHitems _ _ Hrest)
          by (exists [], []; split; [reflexivity | now rewrite app_nil_r]).
        cbn [leaves fold_left]. now destruct rest.
      + (* an outer axis: every item is visited on the next axis *)
        apply andb_prop in Hitem. destruct Hitem as [Hhead Hsub].
        destruct item as [| | |h xs c|]; try discriminate.
        cbn [info_item]. rewrite Hhead.
        replace (S (length pre)) with (length (pre ++ [d]))
          by (rewrite length_app; cbn; lia).
        rewrite (IH (pre ++ [d]) xs
                   {| info_shape := shape; info_dtype := dtype;
                      info_valid := true |} Hsub eq_refl Hrec).
        cbn [info_valid negb info_dtype].
        rewrite <- app_assoc. cbn [app].
        rewrite (IHitems _ _ Hrest)
          by (exists (d' :: dims''), []; split;
              [now rewrite app_nil_r | now rewrite <- app_assoc]).
        f_equal. f_equal.
        * now destruct rest.
        * cbn [leaves flat_map]. now rewrite fold_left_app. }
  rewrite (Hloop t shape1 (info_dtype st) Hitems Hrec1).
  destruct t; [contradiction|]. reflexivity.
Qed.

Lemma mapM_option_app {A B : Type} (f : A -> option B) (xs ys : list A) :
  mapM_option f (xs ++ ys)
  = match mapM_option f xs, mapM_option f ys with
    | Some xs', Some ys' => Some (xs' ++ ys')
    | _, _ => None
    end.
Proof.
  induction xs as [|x rest IH]; cbn [app mapM_option].
  - now destruct (mapM_option f ys).
  - rewrite IH. destruct (f x); [|reflexivity].
    now destruct (mapM_option f rest), (mapM_option f ys).
Qed.

Lemma mapM_option_length {A B : Type} (f : A -> option B) :
  forall (xs : list A) (ys : list B),
    mapM_option f xs = Some ys -> length ys = length xs.
Proof.
  induction xs as [|x rest IH]; intros ys H; cbn in H.
  - now inversion H.
  - destruct (f x); [|discriminate].
    destruct (mapM_option f rest) as [ys'|]; [|discriminate].
    inversion H. cbn. now rewrite (IH ys').
Qed.

(** The visit of [expressionAsTensor] on a full array: the items of the
    last axis are cast in row-major order; [isValid] is kept exactly when
    every one of them can be cast. *)
Lemma data_visit_rectangular (head : string) (dtype : D) :
  forall (dims : list nat) (t : list Expr) (data : list V) (valid : bool),
    rectangular head dims t = true ->
    exists data' leave,
      visit_items (data_item cast head dtype) (fun st => snd st) t
        (data, valid, false)
      = Returned
          (data',
           valid && match mapM_option (fun x => cast x dtype) (leaves dims t) with
                    | Some _ => true
                    | None => false
                    end,
           leave)
      /\ forall vs,
           mapM_option (fun x => cast x dtype) (leaves dims t) = Some vs ->
           data' = data ++ vs /\ leave = false.
Proof.
  induction dims as [|d dims' IH]; intros t data valid Hrect; [discriminate|].
  cbn [rectangular] in Hrect.
  apply andb_prop in Hrect. destruct Hrect as [_ Hitems].
  revert data valid. induction t as [|item rest IHitems]; intros data valid.
  - exists data, false. cbn [visit_items]. split.
    + destruct dims'; cbn; now rewrite andb_true_r.
    + intros vs Hvs. destruct dims'; cbn in Hvs; inversion Hvs;
        now rewrite app_nil_r.
  - cbn [forallb] in Hitems. apply andb_prop in Hitems.
    destruct Hitems as [Hitem Hrest]. specialize (IHitems Hrest).
    cbn [visit_items]. destruct dims' as [|d' dims''].
    + apply negb_true_iff in Hitem.
      assert (Hstep : data_item cast head dtype item (data, valid, false)
                      = match cast item dtype with
                        | None => Returned (data, false, true)
                        | Some v => Returned (data ++ [v], valid, false)
                        end).
      { destruct item; cbn [data_item]; rewrite Hitem; reflexivity. }
      rewrite Hstep. cbn [leaves mapM_option] in *.
      destruct (cast item dtype) as [v|]; cbn [snd].
      * destruct (IHitems (data ++ [v]) valid) as (data' & leave & Hrun & Hok).
        exists data', leave. rewrite Hrun. split.
        { now destruct (mapM_option (fun x => cast x dtype) rest). }
        intros vs Hvs.
        destruct (mapM_option (fun x => cast x dtype) rest) as [vs'|];
          [|discriminate].
        inversion Hvs; subst. destruct (Hok vs' eq_refl) as [-> ->].
        now rewrite <- app_assoc.
      * exists data, true. split; [now rewrite andb_false_r | discriminate].
    + apply andb_prop in Hitem. destruct Hitem as [Hhead Hsub].
      destruct item as [| | |h xs c|]; try discriminate.
      cbn [data_item]. rewrite Hhead.
      destruct (IH xs data valid Hsub) as (data1 & leave1 & Hrun1 & Hok1).
      cbn [bind ret OutcomeM]. rewrite Hrun1. cbn [snd].
      destruct (IHitems data1
                  (valid && match mapM_option (fun x => cast x dtype)
                                    (leaves (d' :: dims'') xs) with
                            | Some _ => true
                            | None => false
                            end))
        as (data' & leave & Hrun & Hok).
      exists data', leave. rewrite Hrun.
      change (leaves (d :: d' :: dims'') (BoxedFunction h xs c :: rest))
        with (leaves (d' :: dims'') xs ++ leaves (d :: d' :: dims'') rest).
      rewrite mapM_option_app. split.
      * destruct (mapM_option (fun x => cast x dtype)
                    (leaves (d' :: dims'') xs)),
          (mapM_option (fun x => cast x dtype)
             (leaves (d :: d' :: dims'') rest)), valid; reflexivity.
      * intros vs Hvs.
        destruct (mapM_option (fun x => cast x dtype)
                    (leaves (d' :: dims'') xs)) as [vs1|]; [|discriminate].
        destruct (mapM_option (fun x => cast x dtype)
                    (leaves (d :: d' :: dims'') rest)) as [vs2|];
          [|discriminate].
        inversion Hvs; subst. destruct (Hok1 vs1 eq_refl) as [-> _].
        destruct (Hok vs2 eq_refl) as [-> ->]. now rewrite <- app_assoc.
Qed.

Lemma leaves_length (head : string) :
  forall (dims : list nat) (t : list Expr),
    rectangular head dims t = true ->
    length (leaves dims t) = fold_right Nat.mul 1%nat dims.
Proof.
  induction dims as [|d dims' IH]; intros t Hrect; [discriminate|].
  cbn [rectangular] in Hrect.
  apply andb_prop in Hrect. destruct Hrect as [Hrect Hitems].
  apply andb_prop in Hrect. destruct Hrect as [Hlen _].
  apply Nat.eqb_eq in Hlen. subst d. cbn [fold_right].
  destruct dims' as [|d' dims'']; [cbn; lia|].
  induction t as [|item rest IHt]; [reflexivity|].
  cbn [forallb] in Hitems. apply andb_prop in Hitems.
  destruct Hitems as [Hitem Hrest]. apply andb_prop in Hitem.
  destruct Hitem as [_ Hsub].
  destruct item as [| | |h xs c|]; try discriminate.
  change (leaves (length (BoxedFunction h xs c :: rest) :: d' :: dims'')
            (BoxedFunction h xs c :: rest))
    with (leaves (d' :: dims'') xs
          ++ leaves (length rest :: d' :: dims'') rest).
  rewrite length_app, (IH xs Hsub), (IHt Hrest). cbn [length]. lia.
Qed.

Lemma widen_fold_defined (items : list Expr) (dtype : option D) :
  items <> [] ->
  exists found,
    fold_left (widen getExpressionDatatype getSupertype) items dtype
    = Some found.
Proof.
  revert dtype. induction items as [|item rest IH]; intros dtype Hne;
    [contradiction|].
  cbn [fold_left]. destruct rest as [|item' rest'].
  - cbn. unfold widen. eauto.
  - now apply IH.
Qed.

(** The datatype, the shape and the data of a full array. *)
Lemma full_array_tensor_data (head : string) (dims : list nat)
    (rows : list Expr) :
  rectangular head dims rows = true ->
  let items := leaves dims rows in
  exists dtype,
    fold_left (widen getExpressionDatatype getSupertype) items None
    = Some dtype
    /\ length items = fold_right Nat.mul 1%nat dims
    /\ expressionTensorInfo getExpressionDatatype getSupertype head rows
       = Returned (Some (map Some dims, Some dtype))
    /\ expressionAsTensor getExpressionDatatype getSupertype cast head rows
       = Returned
           match mapM_option (fun x => cast x dtype) items with
           | Some data =>
               Some {| td_shape := map Some dims; td_data := data;
                       td_dtype := dtype |}
           | None => None
           end.
Proof.
  intros Hrect items.
  assert (Hlen : length items = fold_right Nat.mul 1%nat dims)
    by now apply (leaves_length head).
  assert (Hne : items <> []).
  { assert (Hpos : forall ds t, rectangular head ds t = true ->
                     (0 < fold_right Nat.mul 1 ds)%nat).
    { induction ds as [|d ds' IHds]; intros t Ht; [discriminate|].
      cbn [rectangular] in Ht. apply andb_prop in Ht. destruct Ht as [Ht Hit].
      apply andb_prop in Ht. destruct Ht as [Hl Hd].
      apply Nat.eqb_eq in Hl. apply Nat.ltb_lt in Hd. cbn [fold_right].
      destruct ds' as [|d' ds'']; [cbn; lia|].
      destruct t as [|item rest]; [cbn in Hl; lia|].
      cbn [forallb] in Hit. apply andb_prop in Hit. destruct Hit as [Hit _].
      apply andb_prop in Hit. destruct Hit as [_ Hsub].
      destruct item; try discriminate. specialize (IHds _ Hsub). nia. }
    specialize (Hpos dims rows Hrect). intros E. rewrite E in Hlen.
    cbn in Hlen. lia. }
  destruct (widen_fold_defined items None Hne) as [dtype Hdtype].
  exists dtype. split; [exact Hdtype|]. split; [exact Hlen|].
  assert (Hinfo : expressionTensorInfo getExpressionDatatype getSupertype
                    head rows
                  = Returned (Some (map Some dims, Some dtype))).
  { unfold expressionTensorInfo.
    pose proof (info_visit_rectangular head dims [] rows
                  {| info_shape := []; info_dtype := None;
                     info_valid := true |} Hrect eq_refl) as Hvisit.
    cbn [length app info_shape info_dtype] in Hvisit.
    rewrite Hvisit by (exists [], dims; split; reflexivity).
    cbn. fold items. now rewrite Hdtype. }
  assert (Hdata : expressionAsTensor getExpressionDatatype getSupertype cast
                    head rows
                  = Returned
                      match mapM_option (fun x => cast x dtype) items with
                      | Some data =>
                          Some {| td_shape := map Some dims; td_data := data;
                                  td_dtype := dtype |}
                      | None => None
                      end).
  { unfold expressionAsTensor. rewrite Hinfo. cbn [bind ret OutcomeM].
    destruct (data_visit_rectangular head dtype dims rows [] true Hrect)
      as (data' & leave & Hrun & Hok).
    rewrite Hrun. fold items in Hok |- *. cbn [andb].
    assert (Hrows : rows <> []).
    { intros ->. apply Hne. subst items. now destruct dims as [|? [|]]. }
    destruct rows; [contradiction|].
    destruct (mapM_option (fun x => cast x dtype) items) as [vs|];
      [|reflexivity].
    destruct (Hok vs eq_refl) as [-> _]. reflexivity. }
  split; [exact Hinfo | exact Hdata].
Qed.

(** X1.  On a full array of dimensions [dims], [expressionTensorInfo] finds the
    shape [dims] and the common datatype of the items, and
    [expressionAsTensor] gives the items cast in row-major order, as many
    as the product of the dimensions, or [undefined] when an item cannot
    be cast. *)
Theorem expressionAsTensor_full_array (head : string) (dims : list nat)
    (rows : list Expr) :
  rectangular head dims rows = true ->
  let items := leaves dims rows in
  exists dtype,
    fold_left (widen getExpressionDatatype getSupertype) items None
    = Some dtype
    /\ length items = fold_right Nat.mul 1%nat dims
    /\ expressionTensorInfo getExpressionDatatype getSupertype head rows
       = Returned (Some (map Some dims, Some dtype))
    /\ expressionAsTensor getExpressionDatatype getSupertype cast head rows
       = Returned
           match mapM_option (fun x => cast x dtype) items with
           | Some data =>
               Some {| td_shape := map Some dims; td_data := data;
                       td_dtype := dtype |}
           | None => None
           end
    /\ forall tensorData,
         expressionAsTensor getExpressionDatatype getSupertype cast head rows
         = Returned (Some tensorData) ->
         td_shape tensorData = map Some dims
         /\ length (td_data tensorData) = fold_right Nat.mul 1%nat dims.
Proof.
  intros Hrect items.
  destruct (full_array_tensor_data head dims rows Hrect)
    as (dtype & Hdtype & Hlen & Hinfo & Hdata).
  fold items in Hdtype, Hlen, Hdata.
  exists dtype. split; [exact Hdtype|]. split; [exact Hlen|].
  split; [exact Hinfo|]. split; [exact Hdata|].
  intros tensorData Hsome. rewrite Hdata in Hsome.
  destruct (mapM_option (fun x => cast x dtype) items) as [vs|] eqn:Ecast;
    [|discriminate].
  inversion Hsome; subst. cbn. split; [reflexivity|].
  rewrite <- Hlen. now apply (mapM_option_length (fun x => cast x dtype)).
Qed.

End TensorFacts.

Section TensorGetter.
Context {D : Type}.
Context (getExpressionDatatype : Expr -> D).
Context (getSupertype : D -> D -> D).
Context (cast : Expr -> D -> option Expr).
Context (makeTensor : TensorData D Expr -> AbstractTensor Expr).

(** X2.  The getter [tensor] returns the tensor that is there; on a tensor made
    from an empty list it raises [Invalid tensor]; on a tensor made from a
    full array it raises [Invalid tensor] when an item cannot be cast to
    the common datatype, and otherwise makes the tensor from the shape, the
    cast items and the datatype, and keeps it in the receiver. *)
Theorem BoxedTensor_tensor_on_demand :
  (forall (tensor : AbstractTensor Expr) (expression : Expr),
     BoxedTensor_tensor getExpressionDatatype getSupertype cast makeTensor
       (Some tensor) expression
     = Returned (tensor, BoxedTensor (Some tensor) expression))
  /\ (forall (head : string) (c : bool),
        BoxedTensor_tensor getExpressionDatatype getSupertype cast makeTensor
          None (BoxedFunction head [] c)
        = Thrown "Invalid tensor")
  /\ (forall (head : string) (dims : list nat) (rows : list Expr) (c : bool),
        rectangular head dims rows = true ->
        exists dtype,
          fold_left (widen getExpressionDatatype getSupertype)
            (leaves dims rows) None = Some dtype
          /\ BoxedTensor_tensor getExpressionDatatype getSupertype cast
               makeTensor None (BoxedFunction head rows c)
             = match mapM_option (fun x => cast x dtype) (leaves dims rows) with
               | Some data =>
                   let tensor :=
                     makeTensor {| td_shape := map Some dims; td_data := data;
                                   td_dtype := dtype |} in
                   Returned
                     (tensor,
                      BoxedTensor (Some tensor) (BoxedFunction head rows c))
               | None => Thrown "Invalid tensor"
               end).
Proof.
  split; [reflexivity|]. split; [reflexivity|].
  intros head dims rows c Hrect.
  destruct (full_array_tensor_data getExpressionDatatype getSupertype
              cast head dims rows Hrect)
    as (dtype & Hdtype & _ & _ & Hdata).
  exists dtype. split; [exact Hdtype|].
  unfold BoxedTensor_tensor. rewrite Hdata. cbn [bind OutcomeM].
  now destruct (mapM_option (fun x => cast x dtype) (leaves dims rows)).
Qed.

End TensorGetter.

(** The tensor of [[1, 2], [3, 4]] has the shape [2, 2] and the four
    numbers as data; no tensor can be made of rows whose items cannot be
    cast. *)
Lemma BoxedTensor_tensor_on_demand_witness :
  let rows := [_fn "List" [num 1; num 2]; _fn "List" [num 3; num 4]] in
  let tensor := {| shape := [2; 2]%nat; data := [num 1; num 2; num 3; num 4] |} in
  rectangular "List" [2; 2]%nat rows = true
  /\ BoxedTensor_tensor reference_datatype reference_supertype reference_cast
       reference_makeTensor None (_fn "List" rows)
     = Returned (tensor, BoxedTensor (Some tensor) (_fn "List" rows))
  /\ BoxedTensor_tensor reference_datatype reference_supertype
       (fun _ _ => None) reference_makeTensor None (_fn "List" rows)
     = Thrown "Invalid tensor".
Proof.
  intros rows tensor. split; [reflexivity|].
  destruct (BoxedTensor_tensor_on_demand reference_datatype
              reference_supertype reference_cast reference_makeTensor)
    as (_ & _ & Hfull).
  destruct (Hfull "List" [2; 2]%nat rows true eq_refl) as (dtype & Hd & Hrun).
  destruct (BoxedTensor_tensor_on_demand reference_datatype
              reference_supertype (fun _ _ => @None Expr) reference_makeTensor)
    as (_ & _ & Hnone).
  destruct (Hnone "List" [2; 2]%nat rows true eq_refl) as (dtype' & Hd' & Hrun').
  split.
  - unfold _fn at 1. rewrite Hrun. inversion Hd; subst dtype. reflexivity.
  - unfold _fn at 1. rewrite Hrun'. reflexivity.
Defined.

(** [[x, y], [z, t]] with a symbol among the numbers: the datatype is
    [expression]. *)
Lemma expressionAsTensor_full_array_witness :
  let rows := [_fn "List" [num 1; sym "y"]; _fn "List" [num 3; num 4]] in
  rectangular "List" [2; 2]%nat rows = true
  /\ expressionAsTensor reference_datatype reference_supertype reference_cast
       "List" rows
     = Returned (Some {| td_shape := [Some 2; Some 2]%nat;
                         td_data := [num 1; sym "y"; num 3; num 4];
                         td_dtype := "expression" |}).
Proof.
  intros rows. split; [reflexivity|].
  destruct (expressionAsTensor_full_array reference_datatype
              reference_supertype reference_cast "List" [2; 2]%nat rows
              eq_refl) as (dtype & Hd & _ & _ & Hrun & _).
  rewrite Hrun. inversion Hd; subst dtype. reflexivity.
Defined.

Section RaggedRows.
Context {D V : Type}.
Context (getExpressionDatatype : Expr -> D).
Context (getSupertype : D -> D -> D).
Context (cast : Expr -> D -> option V).

(** Items that are not visited widen the datatype and leave the shape. *)
Lemma info_items_last_axis (head : string) (axis : nat) :
  forall (items : list Expr) (shape : list (option nat)) (dtype : option D),
    forallb (fun x => negb (headIs x head)) items = true ->
    visit_items (info_item getExpressionDatatype getSupertype head axis)
      (fun st => negb (info_valid st)) items
      {| info_shape := shape; info_dtype := dtype; info_valid := true |}
    = Returned
        {| info_shape := shape;
           info_dtype :=
             fold_left (widen getExpressionDatatype getSupertype) items dtype;
           info_valid := true |}.
Proof.
  induction items as [|item rest IH]; intros shape dtype Hall; [reflexivity|].
  cbn [forallb] in Hall. apply andb_prop in Hall. destruct Hall as [Hitem Hrest].
  apply negb_true_iff in Hitem. cbn [visit_items].
  assert (Hstep : info_item getExpressionDatatype getSupertype head axis item
                    {| info_shape := shape; info_dtype := dtype;
                       info_valid := true |}
                  = Returned
                      {| info_shape := shape;
                         info_dtype :=
                           widen getExpressionDatatype getSupertype dtype item;
                         info_valid := true |}).
  { destruct item; cbn [info_item]; rewrite Hitem; reflexivity. }
  rewrite Hstep. cbn [info_valid negb]. now rewrite IH.
Qed.

(** X3.  A row of one item is not compared with the length recorded for its
    axis.  After a row of [n >= 2] items a row of one item is accepted: the
    shape is [2, n] and the data has [n + 1] items; before it, the row of
    [n] items is rejected. *)
Theorem expressionTensorInfo_row_of_one_item (head : string)
    (xs : list Expr) (y : Expr) (c1 c2 : bool) :
  (2 <= length xs)%nat ->
  forallb (fun x => negb (headIs x head)) (xs ++ [y]) = true ->
  let long := BoxedFunction head xs c1 in
  let short := BoxedFunction head [y] c2 in
  (exists dtype,
     fold_left (widen getExpressionDatatype getSupertype) (xs ++ [y]) None
     = Some dtype
     /\ expressionTensorInfo getExpressionDatatype getSupertype head
          [long; short]
        = Returned (Some ([Some 2%nat; Some (length xs)], Some dtype))
     /\ expressionAsTensor getExpressionDatatype getSupertype cast head
          [long; short]
        = Returned
            match mapM_option (fun x => cast x dtype) (xs ++ [y]) with
            | Some data =>
                Some {| td_shape := [Some 2%nat; Some (length xs)];
                        td_data := data; td_dtype := dtype |}
            | None => None
            end)
  /\ expressionTensorInfo getExpressionDatatype getSupertype head
       [short; long]
     = Returned None
  /\ expressionAsTensor getExpressionDatatype getSupertype cast head
       [short; long]
     = Returned None.
Proof.
  intros Hn Hleaves long short.
  assert (Hxs : forallb (fun x => negb (headIs x head)) xs = true
                /\ headIs y head = false).
  { rewrite forallb_app in Hleaves. apply andb_prop in Hleaves.
    destruct Hleaves as [H1 H2]. cbn in H2. rewrite andb_true_r in H2.
    now apply negb_true_iff in H2. }
  destruct Hxs as [Hxs Hy].
  assert (Hlong : forall c, headIs (BoxedFunction head xs c) head = true)
    by (intros c; apply String.eqb_refl).
  assert (Hshort : forall c, headIs (BoxedFunction head [y] c) head = true)
    by (intros c; apply String.eqb_refl).
  assert (Hrect : rectangular head [length xs] xs = true).
  { cbn [rectangular]. rewrite Nat.eqb_refl, Hxs.
    assert (H : (0 <? length xs)%nat = true) by (apply Nat.ltb_lt; lia).
    now rewrite H. }
  destruct (widen_fold_defined getExpressionDatatype getSupertype
              (xs ++ [y]) None) as [dtype Hdtype];
    [now destruct xs|].
  assert (Hinfo : expressionTensorInfo getExpressionDatatype getSupertype head
                    [long; short]
                  = Returned (Some ([Some 2%nat; Some (length xs)], Some dtype))).
  { unfold expressionTensorInfo, info_visit. cbn [visit_items length].
    change (visit_axis 2 0
              {| info_shape := []; info_dtype := @None D; info_valid := true |})
      with {| info_shape := [Some 2%nat]; info_dtype := @None D;
              info_valid := true |}.
    unfold long at 1. cbn [info_item]. rewrite Hlong.
    pose proof (info_visit_rectangular getExpressionDatatype getSupertype
                  head [length xs] [2%nat] xs
                  {| info_shape := [Some 2%nat]; info_dtype := None;
                     info_valid := true |} Hrect eq_refl) as Hvisit.
    cbn [length app info_shape info_dtype map leaves] in Hvisit.
    rewrite Hvisit by (exists [], [length xs]; split; reflexivity).
    cbn [info_valid negb].
    unfold short at 1. cbn [info_item]. rewrite Hshort.
    unfold info_visit.
    change (visit_axis (length [y]) 1
              {| info_shape := [Some 2%nat; Some (length xs)];
                 info_dtype :=
                   fold_left (widen getExpressionDatatype getSupertype) xs None;
                 info_valid := true |})
      with {| info_shape := [Some 2%nat; Some (Nat.max (length xs) 1)];
              info_dtype :=
                fold_left (widen getExpressionDatatype getSupertype) xs None;
              info_valid := true |}.
    rewrite Nat.max_l by lia.
    rewrite (info_items_last_axis head 1 [y])
      by (cbn [forallb]; now rewrite Hy).
    cbn [bind ret OutcomeM info_valid negb info_shape info_dtype].
    rewrite <- Hdtype, fold_left_app. reflexivity. }
  split.
  { exists dtype. split; [exact Hdtype|]. split; [exact Hinfo|].
    unfold expressionAsTensor. rewrite Hinfo. cbn [bind ret OutcomeM].
    cbn [visit_items]. unfold long at 1. cbn [data_item]. rewrite Hlong.
    destruct (data_visit_rectangular cast head dtype [length xs] xs [] true
                Hrect) as (data1 & leave1 & Hrun1 & Hok1).
    cbn [leaves] in Hrun1, Hok1. rewrite Hrun1. cbn [bind ret OutcomeM snd].
    unfold short at 1. cbn [data_item]. rewrite Hshort.
    destruct (data_visit_rectangular cast head dtype [1%nat] [y] data1
                (true && match mapM_option (fun x => cast x dtype) xs with
                         | Some _ => true
                         | None => false
                         end))
      as (data2 & leave2 & Hrun2 & Hok2).
    { cbn. now rewrite Hy. }
    cbn [leaves] in Hrun2, Hok2. rewrite Hrun2. cbn [bind ret OutcomeM snd].
    rewrite mapM_option_app.
    destruct (mapM_option (fun x => cast x dtype) xs) as [vs|];
      [|reflexivity].
    destruct (Hok1 vs eq_refl) as [-> _]. cbn [andb app] in *.
    destruct (mapM_option (fun x => cast x dtype) [y]) as [v|];
      [|reflexivity].
    destruct (Hok2 v eq_refl) as [-> _]. reflexivity. }
  assert (Hinfo' : expressionTensorInfo getExpressionDatatype getSupertype
                     head [short; long] = Returned None).
  { unfold expressionTensorInfo, info_visit. cbn [visit_items length].
    unfold short at 1. cbn [info_item]. rewrite Hshort.
    pose proof (info_visit_rectangular getExpressionDatatype getSupertype
                  head [1%nat] [2%nat] [y]
                  {| info_shape := [Some 2%nat]; info_dtype := None;
                     info_valid := true |}) as Hvisit.
    cbn [length app info_shape info_dtype map leaves] in Hvisit.
    change (visit_axis 2 0
              {| info_shape := []; info_dtype := @None D; info_valid := true |})
      with {| info_shape := [Some 2%nat]; info_dtype := @None D;
              info_valid := true |}.
    rewrite Hvisit;
      [|cbn; now rewrite Hy | reflexivity
       |exists [], [1%nat]; split; reflexivity].
    cbn [info_valid negb].
    unfold long at 1. cbn [info_item]. rewrite Hlong.
    unfold info_visit.
    destruct xs as [|x0 [|x1 xs']]; try (cbn in Hn; lia).
    cbn [forallb] in Hxs. apply andb_prop in Hxs. destruct Hxs as [Hx0 _].
    apply negb_true_iff in Hx0.
    change (visit_axis (length (x0 :: x1 :: xs')) 1
              {| info_shape := [Some 2%nat; Some 1%nat];
                 info_dtype :=
                   fold_left (widen getExpressionDatatype getSupertype) [y]
                     None;
                 info_valid := true |})
      with {| info_shape := [Some 2%nat; Some 1%nat];
              info_dtype :=
                fold_left (widen getExpressionDatatype getSupertype) [y] None;
              info_valid := false |}.
    cbn [visit_items].
    assert (Hstep : forall st,
               info_item getExpressionDatatype getSupertype head 1 x0 st
               = Returned
                   {| info_shape := info_shape st;
                      info_dtype :=
                        widen getExpressionDatatype getSupertype
                          (info_dtype st) x0;
                      info_valid := info_valid st |}).
    { intros st. destruct x0; cbn [info_item]; rewrite Hx0; reflexivity. }
    rewrite Hstep. reflexivity. }
  split; [exact Hinfo'|].
  unfold expressionAsTensor. now rewrite Hinfo'.
Qed.

End RaggedRows.

(** [[1, 2, 3], [4]] is taken for an array of shape [2, 3] with four
    items. *)
Lemma expressionTensorInfo_row_of_one_item_witness :
  let xs := [num 1; num 2; num 3] in
  (2 <= length xs)%nat
  /\ expressionAsTensor reference_datatype reference_supertype reference_cast
       "List" [_fn "List" xs; _fn "List" [num 4]]
     = Returned (Some {| td_shape := [Some 2; Some 3]%nat;
                         td_data := [num 1; num 2; num 3; num 4];
                         td_dtype := "float64" |})
  /\ expressionAsTensor reference_datatype reference_supertype reference_cast
       "List" [_fn "List" [num 4]; _fn "List" xs]
     = Returned None.
Proof.
  intros xs. split; [cbn; lia|].
  destruct (expressionTensorInfo_row_of_one_item reference_datatype
              reference_supertype reference_cast "List" xs (num 4) true true)
    as ((dtype & Hd & _ & Hrun) & _ & Hrev); [cbn; lia | reflexivity|].
  split; [|exact Hrev].
  unfold _fn. rewrite Hrun. inversion Hd; subst dtype. reflexivity.
Defined.

(** ** Scopes, limits and caches of the engine *)

Lemma Engine_eta (eng : Engine) :
  {| context := context eng; _cache := _cache eng |} = eng.
Proof. now destruct eng. Qed.

(** X4.  [pushScope(scope)] raises when there is no current scope, leaving
    the engine as it is.  Otherwise the new scope is a child of the current
    one, and each of the time, iteration and recursion limits of the engine
    becomes the limit that [scope] gives, and stays what it was when
    [scope] gives none; [pushScope()] is the case of no argument. *)
Theorem pushScope_limits (scope : option Scope) (eng : Engine) :
  pushScope eng = pushScope_with None eng
  /\ (context eng = None ->
      pushScope_with scope eng = (Thrown "No parent scope available", eng))
  /\ (context eng <> None ->
      exists eng',
        pushScope_with scope eng = (Returned tt, eng')
        /\ _cache eng' = _cache eng
        /\ (exists child, context eng' = Some child
                          /\ parentScope child = context eng)
        /\ engine_timeLimit eng'
           = match asked scope scope_time with
             | Some t => t
             | None => engine_timeLimit eng
             end
        /\ engine_iterationLimit eng'
           = match asked scope scope_iteration with
             | Some n => n
             | None => engine_iterationLimit eng
             end
        /\ engine_recursionLimit eng'
           = match asked scope scope_recursion with
             | Some n => n
             | None => engine_recursionLimit eng
             end).
Proof.
  split; [reflexivity|]. split.
  - intros Hnone. unfold pushScope_with. now rewrite Hnone.
  - intros Hsome. unfold pushScope_with.
    destruct (context eng) as [ctx|] eqn:Ectx; [|contradiction].
    eexists. split; [reflexivity|]. split; [reflexivity|].
    split; [eexists; split; reflexivity|].
    unfold engine_timeLimit, engine_iterationLimit, engine_recursionLimit.
    cbn [context]. rewrite Ectx.
    destruct ctx as [ct cm cr ci ca cp].
    destruct scope as [[t m r i]|]; cbn; repeat split;
      try destruct t; try destruct r; try destruct i;
      try destruct ct; try destruct cr; try destruct ci; reflexivity.
Qed.

(** In a scope that limits the iterations to 16, [pushScope()] keeps the
    limit and [pushScope({ iterationLimit: 4 })] sets it to 4. *)
Lemma pushScope_limits_witness :
  let eng := {| context := Some lexical_scope; _cache := ∅ |} in
  context eng <> None
  /\ engine_iterationLimit (snd (pushScope eng)) = 16%nat
  /\ engine_iterationLimit
       (snd (pushScope_with
               (Some {| scope_time := None; scope_memory := None;
                        scope_recursion := None;
                        scope_iteration := Some 4%nat |}) eng))
     = 4%nat.
Proof.
  intros eng. split; [discriminate|].
  destruct (pushScope_limits None eng) as (Hpush & _ & H).
  destruct H as (eng' & Hrun & _ & _ & _ & Hiter & _); [discriminate|].
  split.
  - rewrite Hpush, Hrun. exact Hiter.
  - destruct (pushScope_limits
                (Some {| scope_time := None; scope_memory := None;
                         scope_recursion := None;
                         scope_iteration := Some 4%nat |}) eng)
      as (_ & _ & H).
    destruct H as (eng'' & Hrun' & _ & _ & _ & Hiter' & _); [discriminate|].
    rewrite Hrun'. exact Hiter'.
Defined.

(** X5.  [popScope()] undoes [pushScope(scope)]: the engine is back in the
    state it had before the two calls.  On an engine without a scope both
    raise. *)
Theorem pushScope_popScope_round_trip (scope : option Scope) (eng : Engine) :
  (context eng <> None ->
   bind EvalM (pushScope_with scope) (fun _ => popScope) eng
   = (Returned tt, eng))
  /\ (context eng = None ->
      pushScope_with scope eng = (Thrown "No parent scope available", eng)
      /\ popScope eng = (Thrown "No scope available", eng)).
Proof.
  split.
  - intros Hsome. cbn [bind EvalM]. unfold pushScope_with, popScope.
    destruct (context eng) as [ctx|] eqn:Ectx; [|contradiction].
    cbn [context parentScope _cache]. rewrite <- Ectx.
    now rewrite Engine_eta.
  - intros Hnone. unfold pushScope_with, popScope. now rewrite Hnone.
Qed.


(** ** Errors are inert *)

(** Induction on expressions, with the hypothesis for every operand and
    for a head that is an expression. *)
Lemma Expr_head_operands_ind (P : Expr -> Prop) :
  (forall v, P (BoxedNumber v)) ->
  (forall s, P (BoxedSymbol s)) ->
  (forall s, P (BoxedString s)) ->
  (forall (n : string) xs c, Forall P xs -> P (BoxedFunction n xs c)) ->
  (forall he xs c, P he -> Forall P xs -> P (BoxedFunction (HExpr he) xs c)) ->
  (forall t ex, P ex -> P (BoxedTensor t ex)) ->
  forall e, P e.
Proof.
  intros Hn Hs Hstr Hf Hfe Ht. fix IH 1. intros [v|s|s|h xs c|t ex].
  - apply Hn.
  - apply Hs.
  - apply Hstr.
  - assert (Hxs : Forall P xs).
    { induction xs as [|x rest IHrest]; constructor.
      - apply IH.
      - exact IHrest. }
    destruct h as [n|he].
    + now apply Hf.
    + apply Hfe; [apply IH | exact Hxs].
  - apply Ht, IH.
Qed.

Lemma operands_valid_iff (xs : list Expr) :
  Forall (fun x => isValid x = false <-> Erroneous x) xs ->
  forallb isValid xs = false <-> exists x, In x xs /\ Erroneous x.
Proof.
  induction 1 as [|x rest Hx _ IH].
  - split; [discriminate | intros (x & [] & _)].
  - cbn [forallb]. rewrite andb_false_iff, Hx, IH. split.
    + intros [H|(y & Hy & He)].
      * exists x. split; [now left | exact H].
      * exists y. split; [now right | exact He].
    + intros (y & [<-|Hy] & He); [now left|].
      right. now exists y.
Qed.

(** [isValid] is false exactly on the erroneous expressions. *)
Lemma isValid_false_iff (e : Expr) : isValid e = false <-> Erroneous e.
Proof.
  induction e as [v|s|s|n xs c IH|he xs c IHhe IH|t ex IH]
    using Expr_head_operands_ind.
  - split; [discriminate | inversion 1].
  - split; [discriminate | inversion 1].
  - split; [discriminate | inversion 1].
  - cbn [isValid]. rewrite andb_false_iff, (operands_valid_iff xs IH). split.
    + intros [Hhead|(x & Hx & He)].
      * apply negb_false_iff, String.eqb_eq in Hhead. subst.
        apply erroneous_here.
      * now apply (erroneous_operand n xs c x).
    + inversion 1; subst.
      * left. now apply negb_false_iff, String.eqb_eq.
      * right. eauto.
  - cbn [isValid]. rewrite andb_false_iff, (operands_valid_iff xs IH), IHhe.
    split.
    + intros [Hhead|(x & Hx & He)].
      * now apply erroneous_head.
      * now apply (erroneous_operand (HExpr he) xs c x).
    + inversion 1; subst; [now left | right; eauto].
  - destruct t as [t|]; cbn [isValid].
    + split; [discriminate | inversion 1].
    + rewrite IH. split; [apply erroneous_tensor | now inversion 1].
Qed.

(** X7.  A function expression in which an error is met
    ([isValid] is false) is returned as it is by [evaluate], [N] and
    [simplify]: no operand is processed, no handler is called, and the
    state of the engine is not changed.  The expressions made by
    [ce.error] are of this kind. *)
Theorem erroneous_expression_is_inert (ce : EngineOps) (h : Head)
    (xs : list Expr) (c : bool) (fuel : nat) (numericMode : bool)
    (options : SimplifyOptions) (eng : Engine) :
  let this := BoxedFunction h xs c in
  Erroneous this ->
  isValid this = false
  /\ evaluate ce (S fuel) numericMode this eng = (Returned this, eng)
  /\ N ce (S fuel) this eng = (Returned this, eng)
  /\ simplify ce (S fuel) options this eng = (Returned this, eng).
Proof.
  intros this Herr. apply isValid_false_iff in Herr. subst this.
  split; [exact Herr|]. unfold N. cbn [evaluate simplify].
  unfold BoxedFunction_evaluate, BoxedFunction_simplify.
  now rewrite Herr.
Qed.

(** [f(x, Error("unexpected"))] is erroneous, whatever [f] is. *)
Lemma erroneous_expression_is_inert_witness :
  let ce := reference_engine reference_library (Some global_scope) in
  let err := ce_error (fun x => x) (inl "unexpected") None in
  Erroneous (_fn "Add" [sym "x"; err])
  /\ evaluate ce 1 false (_fn "Add" [sym "x"; err]) engine0
     = (Returned (_fn "Add" [sym "x"; err]), engine0).
Proof.
  intros ce err.
  assert (H : Erroneous (_fn "Add" [sym "x"; err])).
  { apply (erroneous_operand "Add" _ true err); [right; now left|].
    apply erroneous_here. }
  split; [exact H|].
  exact (proj1 (proj2 (erroneous_expression_is_inert ce "Add" [sym "x"; err]
                         true 0 false no_options engine0 H))).
Defined.

(** ** The cost of a simplified expression *)

(** X8.  When [simplify] returns on a valid canonical function expression
    with a named head, the result is the expression itself or an
    expression whose cost is at most 1.2 times the cost of the expression. *)
Theorem simplify_cost_bound (ce : EngineOps) (fuel : nat)
    (options : SimplifyOptions) (n : string) (xs : list Expr)
    (eng eng' : Engine) (result : Expr) :
  let this := BoxedFunction n xs true in
  isValid this = true ->
  simplify ce (S fuel) options this eng = (Returned result, eng') ->
  result = this
  \/ (costFunction ce result <= 1.2 * costFunction ce this)%Q.
Proof.
  intros this Hvalid Hrun.
  assert (Hcheap : forall e, cheapest ce this (Some e) = this
                             \/ (costFunction ce (cheapest ce this (Some e))
                                 <= 1.2 * costFunction ce this)%Q).
  { intros e. unfold cheapest. destruct (sameObject ce this e); [now left|].
    destruct (Qle_bool _ _) eqn:Hle; [|now left].
    right. now apply Qle_bool_iff. }
  subst this. cbn [simplify] in Hrun. unfold BoxedFunction_simplify in Hrun.
  rewrite Hvalid in Hrun. cbn [negb isCanonical] in Hrun.
  destruct (if match opt_recursive options with Some b => b | None => true end
            then expand ce (BoxedFunction n xs true) else None)
    as [expanded|].
  - cbn [bind ret EvalM] in Hrun.
    destruct (simplify ce fuel _ expanded eng) as [[e| |] eng1];
      inversion Hrun; subst. apply Hcheap.
  - cbn [bind ret EvalM] in Hrun.
    match type of Hrun with
    | (let (_, _) := ?X in _) = _ => destruct X as [[tail| |] eng1]
    end; try discriminate Hrun.
    match type of Hrun with
    | (let (_, _) := ?X in _) = _ => destruct X as [[handled| |] eng2]
    end; try discriminate Hrun.
    match type of Hrun with
    | (let (_, _) := ?X in _) = _ => destruct X as [[rules| |] eng3]
    end; try discriminate Hrun.
    unfold get_iterationLimit in Hrun. inversion Hrun; subst. apply Hcheap.
Qed.

(** The reference engine has no rule and no handler to simplify [x + 1]:
    the expression is returned, after the standard rules have been cached. *)
Lemma simplify_cost_bound_witness :
  let ce := reference_engine_global in
  let this := _fn "Add" [sym "x"; num 1] in
  let eng' := {| context := Some global_scope;
                 _cache := <["standard-simplification-rules" := []]> ∅ |} in
  isValid this = true
  /\ simplify ce 3 no_options this engine0 = (Returned this, eng')
  /\ (this = this
      \/ (costFunction ce this <= 1.2 * costFunction ce this)%Q).
Proof.
  intros ce this eng'. split; [reflexivity|].
  assert (Hrun : simplify ce 3 no_options this engine0 = (Returned this, eng'))
    by (vm_compute; reflexivity).
  split; [exact Hrun|].
  exact (simplify_cost_bound ce 2 no_options "Add" [sym "x"; num 1]
           engine0 eng' this eq_refl Hrun).
Defined.

(** ** More on hashes and structural equality *)

(** [hashNumber_model] and [hashCode_model] on [f(x, 2)], which is the same
    as [f(x, 2.0)] boxed without the canonical flag. *)
Lemma plain_hash_law_witness :
  let a := BoxedFunction "f" [sym "x"; num 2] true in
  let b := BoxedFunction "f" [sym "x"; BoxedNumber (NMachine (Finite (4 # 2)))]
             false in
  plain a = true
  /\ isSame_model a b = true
  /\ hash hashCode_model hashNumber_model a
     = hash hashCode_model hashNumber_model b.
Proof.
  intros a b. split; [reflexivity|]. split; [reflexivity|].
  apply (plain_hash_law hashCode_model hashNumber_model
           (fun _ _ => false) (fun _ _ => false)
           (fun v w _ => eq_refl) a eq_refl b eq_refl).
Defined.

Lemma numeric_eqb_refl (v : NumericValue) : numeric_eqb v v = true.
Proof.
  assert (Hjs : forall x, jsnumber_eqb x x = true).
  { intros [q| | |]; cbn; trivial. now apply Qeq_bool_iff. }
  destruct v; cbn; rewrite ?Hjs, ?Z.eqb_refl; reflexivity.
Qed.

(** An expression without tensors and without expressions as heads is the
    same as itself, also when it is met as another object. *)
Lemma isSame_plain_refl (tensor_equals head_isSame : Expr -> Expr -> bool) :
  forall a, plain a = true -> isSame tensor_equals head_isSame a a = true.
Proof.
  induction a as [v|s|s|h xs c IH|t ex _] using Expr_operands_ind;
    intros Hplain; cbn [isSame].
  - apply numeric_eqb_refl.
  - apply String.eqb_refl.
  - apply String.eqb_refl.
  - destruct h as [n|he]; [|discriminate]. cbn [plain] in Hplain.
    rewrite Nat.eqb_refl, String.eqb_refl. cbn [andb].
    induction xs as [|x rest IHrest]; [reflexivity|].
    cbn [forallb] in Hplain. apply andb_prop in Hplain.
    destruct Hplain as [Hx Hrest]. inversion IH; subst.
    rewrite (H1 Hx). cbn [andb]. now apply IHrest.
  - discriminate.
Qed.

(** X10.  [isSame] is not symmetric between a tensor and a function
    expression: a tensor is the same as the function expression it was
    made from, but no function expression is the same as a tensor. *)
Theorem isSame_tensor_not_symmetric
    (tensor_equals head_isSame : Expr -> Expr -> bool)
    (h : string) (xs : list Expr) (c : bool)
    (t : option (AbstractTensor Expr)) :
  let f := BoxedFunction h xs c in
  plain f = true ->
  isSame tensor_equals head_isSame (BoxedTensor t f) f = true
  /\ isSame tensor_equals head_isSame f (BoxedTensor t f) = false
  /\ forall rhs, (forall t' ex, rhs <> BoxedTensor t' ex) ->
       isSame tensor_equals head_isSame (BoxedTensor t f) rhs
       = isSame tensor_equals head_isSame f rhs.
Proof.
  intros f Hplain. split; [|split].
  - change (isSame tensor_equals head_isSame (BoxedTensor t f) f)
      with (isSame tensor_equals head_isSame f f).
    now apply isSame_plain_refl.
  - reflexivity.
  - intros rhs Hrhs. destruct rhs; try reflexivity.
    now contradiction (Hrhs _tensor rhs).
Qed.

(** The tensor made from [List(x, y)]. *)
Lemma isSame_tensor_not_symmetric_witness :
  let f := _fn "List" [sym "x"; sym "y"] in
  plain f = true
  /\ isSame_model (BoxedTensor None f) f = true
  /\ isSame_model f (BoxedTensor None f) = false.
Proof.
  intros f. split; [reflexivity|].
  destruct (isSame_tensor_not_symmetric (fun _ _ => false) (fun _ _ => false)
              "List" [sym "x"; sym "y"] true None eq_refl) as (H1 & H2 & _).
  split; [exact H1 | exact H2].
Defined.

(** ** Termination of the shortcuts for powers *)

(** X11.  [canonicalPower], [ce.pow] and [ce.inv] return on every base and
    exponent: the calls that they make to one another are nested no deeper
    than the depth of the base plus 3. *)
Theorem power_shortcuts_return (k : NumericOps) (fuel : nat)
    (base exponent : Expr) (e : Exponent) :
  (depth base + 3 <= fuel)%nat ->
  (exists r, canonicalPower k fuel base exponent = Some r)
  /\ (exists r, pow k fuel base e = Some r)
  /\ (exists r, inv k fuel base = Some r).
Proof.
  intros Hfuel. split; [|split].
  - now apply canonicalPower_returns.
  - unfold pow. apply pow_with_returns. intros e'.
    now apply canonicalPower_returns.
  - apply inv_returns. lia.
Qed.

(** [(x y)^2] has depth 1: four nested calls are enough. *)
Lemma power_shortcuts_return_witness :
  let k := reference_kernel ["x"] in
  let base := _fn "Multiply" [sym "x"; sym "y"] in
  (depth base + 3 <= 4)%nat
  /\ (exists r, canonicalPower k 4 base (num 2) = Some r)
  /\ canonicalPower k 4 base (num 2)
     = Some (_fn "Multiply" [_fn "Power" [sym "x"; num 2];
                             _fn "Power" [sym "y"; num 2]]).
Proof.
  intros k base. split; [cbn; lia|]. split; [|reflexivity].
  apply (power_shortcuts_return k 4 base (num 2) (ExpNumber (Finite 2))).
  cbn; lia.
Defined.

(** ** Pattern matching of function expressions *)

Section MatchFacts.
Context (leaf_match : Expr -> option Expr -> option BoxedSubstitution).

(** The operand loop of [match] reads the subject at the positions of the
    operands of the pattern only. *)
Lemma match_operands_prefix (rhsTail surplus : list Expr) :
  forall (xs : list Expr) (i : nat) (result : BoxedSubstitution),
    (i + length xs <= length rhsTail)%nat ->
    (fix operands (xs : list Expr) (i : nat) (result : BoxedSubstitution)
       : option BoxedSubstitution :=
       match xs with
       | [] => Some result
       | x :: rest =>
           match match_ leaf_match x ((rhsTail ++ surplus) !! i) with
           | None => None
           | Some m => operands rest (S i) (m ∪ result)
           end
       end) xs i result
    = (fix operands (xs : list Expr) (i : nat) (result : BoxedSubstitution)
         : option BoxedSubstitution :=
         match xs with
         | [] => Some result
         | x :: rest =>
             match match_ leaf_match x (rhsTail !! i) with
             | None => None
             | Some m => operands rest (S i) (m ∪ result)
             end
         end) xs i result.
Proof.
  induction xs as [|x rest IH]; intros i result Hlen; [reflexivity|].
  cbn [length] in Hlen. rewrite lookup_app_l by lia.
  destruct (match_ leaf_match x (rhsTail !! i)); [|reflexivity].
  apply IH. lia.
Qed.

(** X12.  [match] does not compare the numbers of operands: the operands
    of the subject beyond those of the pattern are not looked at, so that a
    pattern matches every subject that extends a subject it matches, with
    the same substitution; a pattern without operands matches every
    function with the same head.  A subject that is not a function
    expression (a tensor included) is not matched. *)
Theorem match_ignores_surplus_operands (h : Head) (lhsTail : list Expr)
    (c : bool) :
  let this := BoxedFunction h lhsTail c in
  (forall (h' : Head) (rhsTail surplus : list Expr) (c1 c2 : bool),
     (length lhsTail <= length rhsTail)%nat ->
     match_ leaf_match this (Some (BoxedFunction h' (rhsTail ++ surplus) c1))
     = match_ leaf_match this (Some (BoxedFunction h' rhsTail c2)))
  /\ (forall (name : string) (rhsTail : list Expr) (c1 c2 : bool),
        match_ leaf_match (BoxedFunction name [] c1)
          (Some (BoxedFunction name rhsTail c2))
        = Some ∅)
  /\ (forall rhs,
        (forall h' ys c', rhs <> Some (BoxedFunction h' ys c')) ->
        match_ leaf_match this rhs = None).
Proof.
  intros this. split; [|split].
  - intros h' rhsTail surplus c1 c2 Hlen. cbn [match_ this].
    destruct (match h, h' with
              | HName a, HName b => if String.eqb a b then Some ∅ else None
              | HExpr a, HExpr b => match_ leaf_match a (Some b)
              | _, _ => None
              end) as [result|]; [|reflexivity].
    apply match_operands_prefix. cbn. lia.
  - intros name rhsTail c1 c2. cbn [match_]. now rewrite String.eqb_refl.
  - intros rhs Hrhs. cbn [match_ this].
    destruct rhs as [[| | |h' ys c'|]|]; try reflexivity.
    now contradiction (Hrhs h' ys c').
Qed.

End MatchFacts.

(** The pattern [f(_a)] matches [f(1)] and, with the same substitution,
    [f(1, 2, 3)]. *)
Lemma match_ignores_surplus_operands_witness :
  let pattern := pat "f" [sym "_a"] in
  (length [sym "_a"] <= length [num 1])%nat
  /\ match_ leaf_match_model pattern (Some (_fn "f" [num 1; num 2; num 3]))
     = Some {[ "_a" := num 1 ]}.
Proof.
  intros pattern. split; [cbn; lia|].
  destruct (match_ignores_surplus_operands leaf_match_model "f" [sym "_a"]
              false) as (H & _).
  change (match_ leaf_match_model pattern (Some (_fn "f" [num 1; num 2; num 3])))
    with (match_ leaf_match_model (BoxedFunction "f" [sym "_a"] false)
            (Some (BoxedFunction "f" ([num 1] ++ [num 2; num 3]) true))).
  rewrite (H "f" [num 1] [num 2; num 3] true true) by (cbn; lia).
  vm_compute. reflexivity.
Defined.

(** ** Identifiers *)

Lemma map_get_set_eq {V : Type} (m : list (string * V)) (key : string) (v : V) :
  map_get (map_set m key v) key = Some v.
Proof.
  unfold map_get. induction m as [|[k w] rest IH]; cbn.
  - now rewrite String.eqb_refl.
  - destruct (String.eqb k key) eqn:E; cbn; rewrite E; [reflexivity|exact IH].
Qed.

Lemma map_get_set_ne {V : Type} (m : list (string * V)) (key other : string)
    (v : V) :
  other <> key -> map_get (map_set m key v) other = map_get m other.
Proof.
  intros Hne. unfold map_get. induction m as [|[k w] rest IH]; cbn.
  - apply String.eqb_neq in Hne. now rewrite String.eqb_sym, Hne.
  - destruct (String.eqb k key) eqn:E; cbn.
    + apply String.eqb_eq in E. subst k.
      apply String.eqb_neq in Hne. now rewrite String.eqb_sym, Hne.
    + destruct (String.eqb k other); [reflexivity | exact IH].
Qed.

Lemma map_get_map_values {V : Type} (f : V -> V) (m : list (string * V))
    (key : string) :
  map_get (map (fun entry => (fst entry, f (snd entry))) m) key
  = option_map f (map_get m key).
Proof.
  unfold map_get. induction m as [|[k w] rest IH]; cbn; [reflexivity|].
  destruct (String.eqb k key); [reflexivity | exact IH].
Qed.

Lemma Identifiers_eta (st : Identifiers) :
  {| current := current st; strict := strict st |} = st.
Proof. now destruct st. Qed.

Lemma ids_get_define_eq (context : IdentifierScope) (name : string)
    (def : BoxedDefinition) :
  name <> EmptyString -> ids_get (ids_define context name def) name = Some def.
Proof.
  intros Hname. unfold ids_get, ids_define. cbn [ids].
  destruct name as [|a name']; [contradiction|]. cbn [String.length Nat.eqb].
  apply map_get_set_eq.
Qed.

Lemma ids_get_define_ne (context : IdentifierScope) (name other : string)
    (def : BoxedDefinition) :
  other <> name ->
  ids_get (ids_define context name def) other = ids_get context other.
Proof.
  intros Hne. unfold ids_get, ids_define. cbn [ids].
  destruct (String.length name =? 0)%nat.
  - now destruct (ids context).
  - rewrite map_get_set_ne by exact Hne. now destruct (ids context).
Qed.

(** The lookups read a scope through its entry for the name and through
    the scope that encloses it. *)
Lemma lookupFunction_from_ext (head : string) (s1 s2 : IdentifierScope) :
  ids_get s1 head = ids_get s2 head -> enclosing s1 = enclosing s2 ->
  lookupFunction_from head s1 = lookupFunction_from head s2.
Proof.
  intros Hget Henc. destruct s1, s2. cbn in *. now rewrite Hget, Henc.
Qed.

Lemma lookupSymbol_from_ext (symbol : string) (s1 s2 : IdentifierScope) :
  ids_get s1 symbol = ids_get s2 symbol -> enclosing s1 = enclosing s2 ->
  lookupSymbol_from symbol s1 = lookupSymbol_from symbol s2.
Proof.
  intros Hget Henc. destruct s1, s2. cbn in *. now rewrite Hget, Henc.
Qed.

Lemma lookupFunction_from_unfold (head : string) (scope : IdentifierScope) :
  lookupFunction_from head scope
  = match ids_get scope head with
    | Some (OfFunction def) => Some def
    | _ =>
        match enclosing scope with
        | Some parent => lookupFunction_from head parent
        | None => None
        end
    end.
Proof. now destruct scope. Qed.

Lemma lookupSymbol_from_unfold (symbol : string) (scope : IdentifierScope) :
  lookupSymbol_from symbol scope
  = match ids_get scope symbol with
    | Some (OfSymbol def) => Some def
    | _ =>
        match enclosing scope with
        | Some parent => lookupSymbol_from symbol parent
        | None => None
        end
    end.
Proof. now destruct scope. Qed.

(** [lookupSymbol] by name, in either mode. *)
Lemma ce_lookupSymbol_by_name (st : Identifiers) (symbol : string) :
  symbol <> EmptyString ->
  ce_lookupSymbol st symbol None None
  = match current st with
    | Some context => lookupSymbol_from symbol context
    | None => None
    end.
Proof.
  intros Hne. unfold ce_lookupSymbol.
  destruct (strict st); cbn [negb]; [|reflexivity].
  destruct (current st); [|reflexivity].
  destruct symbol; [contradiction | reflexivity].
Qed.

Section DefinitionFacts.
Context {SymbolDefinition FunctionDefinition' : Type}.
Context (boxSymbolDefinition : string -> SymbolDefinition -> BoxedSymbolDefinition).
Context (makeFunctionDefinition : string -> FunctionDefinition' -> FunctionDefinition).

(** X13.  In an engine with a current scope, a function (a symbol) that
    has just been defined under a name that is not empty is what
    [lookupFunction] ([lookupSymbol]) finds for the name; the definitions
    that the lookups find for the other names are not changed. *)
Theorem define_then_lookup (st : Identifiers) :
  current st <> None ->
  (forall (name : string) (def : FunctionDefinition'),
     let boxedDef := makeFunctionDefinition name def in
     def_name boxedDef = name -> name <> EmptyString ->
     exists st',
       _defineFunction makeFunctionDefinition name def st
       = (Returned boxedDef, st')
       /\ ce_lookupFunction st' name None = Some boxedDef
       /\ forall other, other <> name -> other <> EmptyString ->
            ce_lookupFunction st' other None = ce_lookupFunction st other None
            /\ ce_lookupSymbol st' other None None
               = ce_lookupSymbol st other None None)
  /\ (forall (name : string) (def : SymbolDefinition),
        let boxedDef := boxSymbolDefinition name def in
        symbol_name boxedDef = name -> name <> EmptyString ->
        exists st',
          _defineSymbol boxSymbolDefinition name def st
          = (Returned boxedDef, st')
          /\ ce_lookupSymbol st' name None None = Some boxedDef
          /\ forall other, other <> name -> other <> EmptyString ->
               ce_lookupFunction st' other None
               = ce_lookupFunction st other None
               /\ ce_lookupSymbol st' other None None
                  = ce_lookupSymbol st other None None).
Proof.
  intros Hcontext. destruct (current st) as [context|] eqn:Ecur;
    [|contradiction].
  split.
  - intros name def boxedDef Hname Hne.
    unfold _defineFunction. rewrite Ecur. fold boxedDef. rewrite Hname.
    eexists. split; [reflexivity|]. split.
    + cbn [ce_lookupFunction current]. rewrite lookupFunction_from_unfold.
      now rewrite ids_get_define_eq.
    + intros other Hother Hnonempty. split.
      * cbn [ce_lookupFunction current]. rewrite Ecur.
        apply lookupFunction_from_ext; [|reflexivity].
        now apply ids_get_define_ne.
      * rewrite !ce_lookupSymbol_by_name by exact Hnonempty.
        cbn [current]. rewrite Ecur.
        apply lookupSymbol_from_ext; [|reflexivity].
        now apply ids_get_define_ne.
  - intros name def boxedDef Hname Hne.
    unfold _defineSymbol. rewrite Ecur. fold boxedDef. rewrite Hname.
    eexists. split; [reflexivity|]. split.
    + rewrite ce_lookupSymbol_by_name by exact Hne. cbn [current].
      rewrite lookupSymbol_from_unfold. now rewrite ids_get_define_eq.
    + intros other Hother Hnonempty. split.
      * cbn [ce_lookupFunction current]. rewrite Ecur.
        apply lookupFunction_from_ext; [|reflexivity].
        now apply ids_get_define_ne.
      * rewrite !ce_lookupSymbol_by_name by exact Hnonempty.
        cbn [current]. rewrite Ecur.
        apply lookupSymbol_from_ext; [|reflexivity].
        now apply ids_get_define_ne.
Qed.

(** X14.  Definitions are scoped.  In a scope that has just been pushed,
    the lookups find what they found before; after definitions in that
    scope, [popScope] gives back the engine as it was before [pushScope]. *)
Theorem definitions_are_scoped (st : Identifiers) :
  current st <> None ->
  exists inner,
    pushScope_ids st = (Returned tt, inner)
    /\ (forall head scope, scope <> None ->
          ce_lookupFunction inner head scope = ce_lookupFunction st head scope)
    /\ (forall head, ce_lookupFunction inner head None
                     = ce_lookupFunction st head None)
    /\ (forall symbol wikidata,
          ce_lookupSymbol inner symbol wikidata None
          = ce_lookupSymbol st symbol wikidata None)
    /\ (forall name def,
          bind IdsM (_defineFunction makeFunctionDefinition name def)
            (fun _ => popScope_ids) inner
          = (Returned tt, st))
    /\ (forall name def,
          bind IdsM (_defineSymbol boxSymbolDefinition name def)
            (fun _ => popScope_ids) inner
          = (Returned tt, st))
    /\ (forall name def name' def',
          bind IdsM (_defineSymbol boxSymbolDefinition name def)
            (fun _ =>
          bind IdsM (_defineFunction makeFunctionDefinition name' def')
            (fun _ => popScope_ids)) inner
          = (Returned tt, st)).
Proof.
  intros Hcontext. destruct (current st) as [context|] eqn:Ecur;
    [|contradiction].
  unfold pushScope_ids. rewrite Ecur. eexists. split; [reflexivity|].
  assert (Hback : {| current := Some context; strict := strict st |} = st)
    by (rewrite <- Ecur; apply Identifiers_eta).
  split; [|split; [|split; [|split; [|split]]]].
  - intros head [scope|] Hscope; [|contradiction].
    unfold ce_lookupFunction. cbn [current]. now rewrite Ecur.
  - intros head. unfold ce_lookupFunction. cbn [current]. rewrite Ecur.
    destruct head as [head|]; [|reflexivity].
    now rewrite lookupFunction_from_unfold.
  - intros symbol wikidata. unfold ce_lookupSymbol. cbn [current strict].
    rewrite Ecur. destruct (strict st); cbn [negb].
    + destruct (String.length symbol =? 0)%nat; [reflexivity|].
      rewrite lookupSymbol_from_unfold. cbn [ids_get ids enclosing].
      destruct wikidata as [w|]; [|reflexivity].
      destruct (String.length w =? 0)%nat; reflexivity.
    + now rewrite lookupSymbol_from_unfold.
  - intros name def. cbn. now rewrite Hback.
  - intros name def. cbn. now rewrite Hback.
  - intros name def name' def'. cbn. now rewrite Hback.
Qed.

(** X15.  A symbol defined under a name replaces a function defined under
    the same name in the same scope, which [lookupFunction] then looks for
    in the enclosing scopes; defined in an inner scope, it leaves the
    function of an enclosing scope to [lookupFunction], while
    [lookupSymbol] finds the symbol. *)
Theorem symbol_and_function_of_one_name (st : Identifiers) (name : string)
    (def : SymbolDefinition) :
  let boxedDef := boxSymbolDefinition name def in
  symbol_name boxedDef = name -> name <> EmptyString ->
  forall context, current st = Some context ->
  (exists st',
     _defineSymbol boxSymbolDefinition name def st = (Returned boxedDef, st')
     /\ ce_lookupSymbol st' name None None = Some boxedDef
     /\ ce_lookupFunction st' name None
        = match enclosing context with
          | Some parent => lookupFunction_from name parent
          | None => None
          end)
  /\ (exists st',
        bind IdsM pushScope_ids
          (fun _ => _defineSymbol boxSymbolDefinition name def) st
        = (Returned boxedDef, st')
        /\ ce_lookupSymbol st' name None None = Some boxedDef
        /\ ce_lookupFunction st' name None = ce_lookupFunction st name None).
Proof.
  intros boxedDef Hname Hne context Ecur. split.
  - unfold _defineSymbol. rewrite Ecur. fold boxedDef. rewrite Hname.
    eexists. split; [reflexivity|]. split.
    + rewrite ce_lookupSymbol_by_name by exact Hne. cbn [current].
      rewrite lookupSymbol_from_unfold. now rewrite ids_get_define_eq.
    + cbn [ce_lookupFunction current]. rewrite lookupFunction_from_unfold.
      now rewrite ids_get_define_eq.
  - cbn [bind IdsM]. unfold pushScope_ids, _defineSymbol. rewrite Ecur.
    cbn [current]. fold boxedDef. rewrite Hname.
    eexists. split; [reflexivity|]. split.
    + rewrite ce_lookupSymbol_by_name by exact Hne. cbn [current].
      rewrite lookupSymbol_from_unfold. now rewrite ids_get_define_eq.
    + cbn [ce_lookupFunction current]. rewrite Ecur.
      rewrite lookupFunction_from_unfold.
      now rewrite ids_get_define_eq.
Qed.

End DefinitionFacts.
Lemma reset_definition_idempotent (def : BoxedDefinition) :
  reset_definition (reset_definition def) = reset_definition def.
Proof.
  destruct def as [d|d]; cbn; [|reflexivity].
  destruct (symbol_constant d) eqn:E; cbn; now rewrite ?E.
Qed.

Lemma forget_definition_idempotent (def : BoxedDefinition) :
  forget_definition (forget_definition def) = forget_definition def.
Proof. now destruct def. Qed.

(** X16.  [resetContext] does nothing without a scope.  With one, it keeps
    the names of the current scope, their order, the assumptions and the
    enclosing scopes; the symbols that are not constants lose their value,
    the constants keep theirs and the functions lose their handlers; a
    second [resetContext] changes nothing more. *)
Theorem resetContext_effects (st : Identifiers) :
  (current st = None -> resetContext st = (Returned tt, st))
  /\ (forall context, current st = Some context ->
      exists context',
        resetContext st
        = (Returned tt, {| current := Some context'; strict := strict st |})
        /\ enclosing context' = enclosing context
        /\ scope_assumptions context' = scope_assumptions context
        /\ option_map (map fst) (ids context')
           = option_map (map fst) (ids context)
        /\ (forall name,
              ids_get context' name
              = match ids_get context name with
                | Some (OfSymbol def) =>
                    Some (OfSymbol (if symbol_constant def then def
                                    else without_value def))
                | Some (OfFunction def) =>
                    Some (OfFunction (without_handlers def))
                | None => None
                end)
        /\ resetContext {| current := Some context'; strict := strict st |}
           = (Returned tt,
              {| current := Some context'; strict := strict st |})).
Proof.
  split.
  - intros Hnone. unfold resetContext. now rewrite Hnone.
  - intros context Ecur. unfold resetContext at 1. rewrite Ecur.
    eexists. split; [reflexivity|]. cbn [enclosing scope_assumptions ids].
    split; [reflexivity|]. split; [reflexivity|]. split; [|split].
    + destruct (ids context) as [m|]; [|reflexivity]. cbn. f_equal.
      rewrite map_map. now apply map_ext.
    + intros name. unfold ids_get. cbn [ids].
      destruct (ids context) as [m|]; [|reflexivity].
      rewrite map_get_map_values.
      destruct (map_get m name) as [[d|d]|]; cbn; try reflexivity.
      now destruct (symbol_constant d).
    + assert (Htwice : forall m : list (string * BoxedDefinition),
                 map (fun entry => (fst entry, reset_definition (snd entry)))
                   (map (fun entry => (fst entry, reset_definition (snd entry)))
                      m)
                 = map (fun entry => (fst entry, reset_definition (snd entry)))
                     m).
      { intros m. rewrite map_map. apply map_ext. intros [k d]. cbn.
        now rewrite reset_definition_idempotent. }
      unfold resetContext. cbn [current strict ids scope_assumptions enclosing].
      destruct (ids context) as [m|]; [now rewrite Htwice | reflexivity].
Qed.

Section ForgetFacts.
Context (symbols : Expr -> list string).

Lemma map_get_map_at {V : Type} (f : V -> V) (m : list (string * V))
    (symbol name : string) :
  map_get (map (fun entry =>
                  if String.eqb (fst entry) symbol
                  then (fst entry, f (snd entry)) else entry) m) name
  = if String.eqb name symbol then option_map f (map_get m name)
    else map_get m name.
Proof.
  unfold map_get. induction m as [|[k w] rest IH]; cbn.
  - now destruct (String.eqb name symbol).
  - destruct (String.eqb k symbol) eqn:Eks; cbn;
      destruct (String.eqb k name) eqn:Ekn.
    + apply String.eqb_eq in Eks, Ekn. subst.
      now rewrite String.eqb_refl.
    + exact IH.
    + apply String.eqb_eq in Ekn. subst k. now rewrite Eks.
    + exact IH.
Qed.

(** The entry of [name] after the names of a list have been forgotten. *)
Lemma forget_names_get (names : list string) :
  forall (context : IdentifierScope) (name : string),
    ids_get (fold_left (forget_name symbols) names context) name
    = if existsb (String.eqb name) names
      then option_map forget_definition (ids_get context name)
      else ids_get context name.
Proof.
  induction names as [|s rest IH]; intros context name; [reflexivity|].
  cbn [fold_left existsb]. rewrite IH.
  assert (Hone : ids_get (forget_name symbols context s) name
                 = if String.eqb name s
                   then option_map forget_definition (ids_get context name)
                   else ids_get context name).
  { unfold ids_get, forget_name. cbn [ids].
    destruct (ids context) as [m|]; [apply map_get_map_at|].
    now destruct (String.eqb name s). }
  rewrite Hone.
  destruct (String.eqb name s), (existsb (String.eqb name) rest);
    cbn [orb]; try reflexivity.
  destruct (ids_get context name) as [def|]; [|reflexivity].
  cbn. now rewrite forget_definition_idempotent.
Qed.

Lemma forget_names_enclosing (names : list string) :
  forall context,
    enclosing (fold_left (forget_name symbols) names context)
    = enclosing context.
Proof.
  induction names as [|s rest IH]; intros context; [reflexivity|].
  cbn [fold_left]. now rewrite IH.
Qed.

Lemma map_get_in_keys {V : Type} (m : list (string * V)) (name : string) :
  existsb (String.eqb name) (map fst m) = false -> map_get m name = None.
Proof.
  unfold map_get. induction m as [|[k w] rest IH]; cbn; [reflexivity|].
  intros H. apply orb_false_iff in H. destruct H as [Hk Hrest].
  rewrite String.eqb_sym, Hk. now apply IH.
Qed.

(** X17.  [forget] raises without a scope.  With one, [forget(name)]
    touches the definition of [name] in the current scope only: a symbol
    loses its value, constant or not, a function loses its handlers; the
    assumptions that mention the name are dropped.  [forget()] does so for
    every name of the current scope and drops every assumption.  The
    enclosing scopes are not changed. *)
Theorem forget_effects (st : Identifiers) :
  (current st = None ->
   forall what, forget symbols what st = (Thrown "No scope available", st))
  /\ (forall context, current st = Some context ->
      (forall symbol,
         exists context',
           forget symbols (ForgetName symbol) st
           = (Returned tt,
              {| current := Some context'; strict := strict st |})
           /\ enclosing context' = enclosing context
           /\ (forall name,
                 ids_get context' name
                 = if String.eqb name symbol
                   then option_map forget_definition (ids_get context name)
                   else ids_get context name)
           /\ (forall assumption,
                 In assumption (scope_assumptions context')
                 <-> In assumption (scope_assumptions context)
                     /\ ~ In symbol (symbols (fst assumption))))
      /\ (exists context',
            forget symbols ForgetAll st
            = (Returned tt,
               {| current := Some context'; strict := strict st |})
            /\ enclosing context' = enclosing context
            /\ scope_assumptions context' = []
            /\ forall name,
                 ids_get context' name
                 = option_map forget_definition (ids_get context name))).
Proof.
  split.
  - intros Hnone what. unfold forget. now rewrite Hnone.
  - intros context Ecur. split.
    + intros symbol. unfold forget. rewrite Ecur.
      eexists. split; [reflexivity|]. split; [reflexivity|]. split.
      * intros name. unfold ids_get, forget_name. cbn [ids].
        destruct (ids context) as [m|]; [apply map_get_map_at|].
        now destruct (String.eqb name symbol).
      * intros assumption. cbn [forget_name scope_assumptions].
        rewrite List.filter_In, negb_true_iff. split.
        -- intros [Hin Hno]. split; [exact Hin|]. intros Hsym.
           assert (Hex : existsb (String.eqb symbol) (symbols (fst assumption))
                         = true).
           { apply existsb_exists. exists symbol.
             split; [exact Hsym | apply String.eqb_refl]. }
           congruence.
        -- intros [Hin Hno]. split; [exact Hin|].
           destruct (existsb (String.eqb symbol) (symbols (fst assumption)))
             eqn:Hex; [|reflexivity].
           apply existsb_exists in Hex. destruct Hex as (s & Hs & Heq).
           apply String.eqb_eq in Heq. subst s. contradiction.
    + unfold forget. rewrite Ecur. eexists. split; [reflexivity|].
      cbn [enclosing scope_assumptions ids].
      split; [|split; [reflexivity|]].
      * destruct (ids context); [apply forget_names_enclosing | reflexivity].
      * intros name. destruct (ids context) as [m|] eqn:Eids.
        -- change (ids_get (fold_left (forget_name symbols) (map fst m) context)
                     name
                   = option_map forget_definition (ids_get context name)).
           rewrite forget_names_get.
           destruct (existsb (String.eqb name) (map fst m)) eqn:Ekeys;
             [reflexivity|].
           unfold ids_get. rewrite Eids.
           now rewrite (map_get_in_keys m name Ekeys).
        -- unfold ids_get. cbn [ids]. now rewrite Eids.
Qed.

End ForgetFacts.
Section DeclareFacts.
Context {Argument SymbolDefinition FunctionDefinition' : Type}.
Context (boxSymbolDefinition : string -> SymbolDefinition -> BoxedSymbolDefinition).
Context (makeFunctionDefinition : string -> FunctionDefinition' -> FunctionDefinition).
Context (isValidIdentifier : string -> bool).
Context (validateIdentifier : string -> string).
Context (parseFunctionSignature : string -> string * option (list string)).
Context (isSymbolDefinition : Argument -> option SymbolDefinition).
Context (isFunctionDefinition : Argument -> option FunctionDefinition').
Context (ce_domain : Argument -> Outcome Expr).
Context (dom_isValid dom_isFunction : Expr -> bool).
Context (definition_of_signature : Expr -> FunctionDefinition').
Context (definition_of_domain : Expr -> SymbolDefinition).
Context (update : BoxedSymbolDefinition -> SymbolDefinition -> BoxedSymbolDefinition).

(** X18.  [declare] raises, and changes nothing, for a name written with
    arguments and for a name that the current scope already binds to a
    function or to a symbol whose domain was not inferred; it does nothing
    for [Nothing].  A name that an enclosing scope binds can be declared in
    a scope pushed on it, where [lookupFunction] then finds the new
    function. *)
Theorem declare_guards (st : Identifiers) (arg1 id : string) (arg2 : Argument) :
  let declare :=
    declare boxSymbolDefinition makeFunctionDefinition isValidIdentifier
      validateIdentifier parseFunctionSignature isSymbolDefinition
      isFunctionDefinition ce_domain dom_isValid dom_isFunction
      definition_of_signature definition_of_domain update in
  (forall args, parseFunctionSignature arg1 = (id, Some args) ->
     declare arg1 arg2 st = (Thrown (unexpected_arguments arg1), st))
  /\ (parseFunctionSignature arg1 = ("Nothing", None) ->
      declare arg1 arg2 st = (Returned tt, st))
  /\ (parseFunctionSignature arg1 = (id, None) -> id <> "Nothing" ->
      forall context def,
        current st = Some context -> ids_get context id = Some def ->
        match def with
        | OfSymbol d => symbol_inferredDomain d = false
        | OfFunction _ => True
        end ->
        declare arg1 arg2 st = (Thrown (already_declared id), st))
  /\ (parseFunctionSignature arg1 = (id, None) -> id <> "Nothing" ->
      id <> EmptyString -> isValidIdentifier id = true ->
      current st <> None ->
      forall def,
        isSymbolDefinition arg2 = None ->
        isFunctionDefinition arg2 = Some def ->
        def_name (makeFunctionDefinition id def) = id ->
        exists st',
          bind IdsM pushScope_ids (fun _ => declare arg1 arg2) st
          = (Returned tt, st')
          /\ ce_lookupFunction st' id None
             = Some (makeFunctionDefinition id def)
          /\ popScope_ids st' = (Returned tt, st)).
Proof.
  intros declare'. subst declare'. split; [|split; [|split]].
  - intros args Hparse. unfold declare. now rewrite Hparse.
  - intros Hparse. unfold declare. now rewrite Hparse.
  - intros Hparse Hid context def Ecur Hget Hkind. unfold declare.
    rewrite Hparse. apply String.eqb_neq in Hid. rewrite Hid, Ecur, Hget.
    destruct def as [d|d]; [now rewrite Hkind | reflexivity].
  - intros Hparse Hid Hne Hvalid Hcontext def Hsym Hfun Hname.
    destruct (current st) as [context|] eqn:Ecur; [|contradiction].
    cbn [bind IdsM]. unfold pushScope_ids. rewrite Ecur.
    unfold declare. rewrite Hparse. apply String.eqb_neq in Hid.
    rewrite Hid. cbn [current ids_get ids]. rewrite Hsym, Hfun.
    cbn [bind ret IdsM]. unfold defineFunction. cbn [current].
    rewrite Hvalid.
    destruct id as [|a id']; [contradiction|]. cbn [String.length Nat.eqb orb negb].
    unfold _defineFunction. cbn [current strict]. rewrite Hname.
    eexists. split; [reflexivity|]. split.
    + cbn [ce_lookupFunction current]. rewrite lookupFunction_from_unfold.
      now rewrite ids_get_define_eq.
    + unfold popScope_ids. cbn [current strict enclosing ids_define].
      rewrite <- Ecur. now rewrite Identifiers_eta.
Qed.

End DeclareFacts.

(** After [x] is defined as a symbol, [lookupSymbol] finds it and
    [lookupFunction] still finds [f]. *)
Lemma define_then_lookup_witness :
  current identifiers0 <> None
  /\ symbol_name (reference_symbol "x" (Some (num 1))) = "x"
  /\ exists st',
       _defineSymbol reference_symbol "x" (Some (num 1)) identifiers0
       = (Returned (reference_symbol "x" (Some (num 1))), st')
       /\ ce_lookupSymbol st' "x" None None
          = Some (reference_symbol "x" (Some (num 1)))
       /\ ce_lookupFunction st' "f" None = Some (reference_function "f" None).
Proof.
  split; [discriminate|]. split; [reflexivity|].
  destruct (define_then_lookup reference_symbol reference_function identifiers0)
    as [_ H]; [discriminate|].
  destruct (H "x" (Some (num 1)) eq_refl) as (st' & Hrun & Hfound & Hothers);
    [discriminate|].
  exists st'. split; [exact Hrun|]. split; [exact Hfound|].
  destruct (Hothers "f") as [Hf _]; [discriminate | discriminate|].
  rewrite Hf. reflexivity.
Defined.

(** A function [g] defined in a pushed scope is gone after [popScope]. *)
Lemma definitions_are_scoped_witness :
  current identifiers0 <> None
  /\ bind IdsM pushScope_ids
       (fun _ =>
     bind IdsM (_defineFunction reference_function "g" None)
       (fun _ => popScope_ids)) identifiers0
     = (Returned tt, identifiers0).
Proof.
  split; [discriminate|].
  destruct (definitions_are_scoped reference_symbol reference_function
              identifiers0) as (inner & Hpush & _ & _ & _ & Hpop & _);
    [discriminate|].
  cbn [bind IdsM]. rewrite Hpush. exact (Hpop "g" None).
Defined.

(** A symbol [f] defined in a pushed scope leaves the function [f] of the
    global scope to [lookupFunction]; defined in the global scope, it
    replaces the function. *)
Lemma symbol_and_function_of_one_name_witness :
  symbol_name (reference_symbol "f" None) = "f"
  /\ (exists st',
        bind IdsM pushScope_ids
          (fun _ => _defineSymbol reference_symbol "f" None) identifiers0
        = (Returned (reference_symbol "f" None), st')
        /\ ce_lookupSymbol st' "f" None None = Some (reference_symbol "f" None)
        /\ ce_lookupFunction st' "f" None = Some (reference_function "f" None))
  /\ (exists st',
        _defineSymbol reference_symbol "f" None identifiers0
        = (Returned (reference_symbol "f" None), st')
        /\ ce_lookupFunction st' "f" None = None).
Proof.
  split; [reflexivity|].
  destruct (symbol_and_function_of_one_name reference_symbol identifiers0
              "f" None eq_refl ltac:(discriminate) _ eq_refl)
    as [Hsame Hinner].
  split.
  - destruct Hinner as (st' & Hrun & Hsym & Hfun). exists st'.
    split; [exact Hrun|]. split; [exact Hsym|]. rewrite Hfun. reflexivity.
  - destruct Hsame as (st' & Hrun & _ & Hfun). exists st'.
    split; [exact Hrun | exact Hfun].
Defined.

(** [declare("f", ...)] in the scope where [f] is a function, and in a
    scope pushed on it. *)
Lemma declare_guards_witness :
  let declare :=
    declare (Argument := option Handler + option Expr)
      reference_symbol reference_function (fun _ => true) (fun _ => "valid")
      (fun arg1 => (arg1, None))
      (fun a => match a with inr value => Some value | inl _ => None end)
      (fun a => match a with inl handler => Some handler | inr _ => None end)
      (fun _ => Thrown "Expected a valid domain")
      (fun _ => false) (fun _ => false) (fun _ => None) (fun _ => None)
      (fun def _ => def) in
  declare "f" (inl None) identifiers0
  = (Thrown (already_declared "f"), identifiers0)
  /\ exists st',
       bind IdsM pushScope_ids (fun _ => declare "f" (inl None)) identifiers0
       = (Returned tt, st')
       /\ popScope_ids st' = (Returned tt, identifiers0).
Proof.
  intros declare'.
  destruct (declare_guards (Argument := option Handler + option Expr)
              reference_symbol reference_function (fun _ => true)
              (fun _ => "valid") (fun arg1 => (arg1, None))
              (fun a => match a with inr value => Some value | inl _ => None end)
              (fun a => match a with inl handler => Some handler | inr _ => None end)
              (fun _ => Thrown "Expected a valid domain")
              (fun _ => false) (fun _ => false) (fun _ => None) (fun _ => None)
              (fun def _ => def) identifiers0 "f" "f" (inl None))
    as (_ & _ & Hagain & Hinner).
  split.
  - apply (Hagain eq_refl ltac:(discriminate) _
             (OfFunction (reference_function "f" None)) eq_refl eq_refl I).
  - destruct (Hinner eq_refl ltac:(discriminate) ltac:(discriminate) eq_refl
                ltac:(discriminate) None eq_refl eq_refl eq_refl)
      as (st' & Hrun & _ & Hpop).
    exists st'. split; [exact Hrun | exact Hpop].
Defined.

(** ** Canonical function expressions *)

Section CanonicalizationFacts.
Context (k : NumericOps) (ce : EngineOps).
Context (checkNumericArgs : list Expr -> string + nat -> list Expr).
Context (adjustArguments : FunctionDefinition -> list Expr -> option (list Expr)).
Context (sort_by_order : list Expr -> list Expr).

Lemma numeric_head_cases (head : string) :
  numeric_head head
  = (String.eqb head "Add" || String.eqb head "Multiply"
     || String.eqb head "Negate" || String.eqb head "Square"
     || String.eqb head "Sqrt" || String.eqb head "Exp"
     || String.eqb head "Ln" || String.eqb head "Divide"
     || String.eqb head "Power").
Proof.
  unfold numeric_head. cbn [existsb]. rewrite orb_false_r.
  now rewrite !orb_assoc.
Qed.

Lemma makeNumericFunction_other (fuel : nat) (head : string)
    (semiOps : list Expr) :
  numeric_head head = false ->
  makeNumericFunction k ce checkNumericArgs fuel head semiOps = Returned None.
Proof.
  rewrite numeric_head_cases. intros H.
  repeat (apply orb_false_iff in H; destruct H as [H ?]).
  unfold makeNumericFunction.
  repeat match goal with E : String.eqb head _ = false |- _ =>
           rewrite E; clear E end.
  reflexivity.
Qed.

(** X19.  [makeNumericFunction] returns [null] for the heads other than
    [Add], [Multiply], [Negate], [Square], [Sqrt], [Exp], [Ln], [Divide]
    and [Power], and for these only; for these heads, when an operand is
    not valid once the operands have been checked, the result is the
    function of the checked operands, which is canonical and not valid. *)
Theorem makeNumericFunction_heads (fuel : nat) (head : string)
    (semiOps : list Expr) :
  let makeNumericFunction :=
    makeNumericFunction k ce checkNumericArgs fuel head semiOps in
  (makeNumericFunction = Returned None <-> numeric_head head = false)
  /\ (numeric_head head = true ->
      forall expected,
        expected = (if String.eqb head "Add" || String.eqb head "Multiply"
                    then inl head
                    else if String.eqb head "Divide" || String.eqb head "Power"
                    then inr 2%nat else inr 1%nat) ->
        let ops := checkNumericArgs (ce_canonical ce semiOps) expected in
        forallb isValid ops = false ->
        makeNumericFunction = Returned (Some (_fn head ops))
        /\ isCanonical (_fn head ops) = true
        /\ isValid (_fn head ops) = false).
Proof.
  intros run. subst run.
  assert (Hnames : numeric_head head = true ->
                   In head ["Add"; "Multiply"; "Negate"; "Square"; "Sqrt";
                            "Exp"; "Ln"; "Divide"; "Power"]).
  { intros H. apply existsb_exists in H. destruct H as (name & Hin & Heq).
    apply String.eqb_eq in Heq. now subst. }
  split; [split|].
  - intros Hnull. destruct (numeric_head head) eqn:Hnum; [|reflexivity].
    specialize (Hnames eq_refl). cbn [In] in Hnames.
    unfold makeNumericFunction in Hnull.
    repeat (destruct Hnames as [<-|Hnames]; [cbn in Hnull|]);
      try contradiction;
      repeat match type of Hnull with
             | (if ?b then _ else _) = _ => destruct b; try discriminate Hnull
             | match ?l with _ => _ end = _ =>
                 destruct l; try discriminate Hnull
             | within_fuel ?r = _ => destruct r; try discriminate Hnull
             end.
  - apply makeNumericFunction_other.
  - intros Hnum expected -> ops Hvalid. subst ops.
    split; [|split; [reflexivity|]].
    + specialize (Hnames Hnum). cbn [In] in Hnames.
      unfold makeNumericFunction.
      repeat (destruct Hnames as [<-|Hnames];
              [cbn in Hvalid |- *; now rewrite Hvalid|]).
      contradiction.
    + cbn [isValid _fn]. rewrite Hvalid. apply andb_false_r.
Qed.



End CanonicalizationFacts.



(** [Add] with an operand in error is canonical and not valid. *)
Lemma makeNumericFunction_heads_witness :
  let err := ce_error (fun x => x) (inl "missing") None in
  numeric_head "Add" = true
  /\ makeNumericFunction (reference_kernel [])
       (reference_engine canonical_library (Some global_scope))
       (fun xs _ => xs) 3 "Add" [sym "x"; err]
     = Returned (Some (_fn "Add" [sym "x"; mark_canonical err])).
Proof.
  intros err. split; [reflexivity|].
  destruct (makeNumericFunction_heads (reference_kernel [])
              (reference_engine canonical_library (Some global_scope))
              (fun xs _ => xs) 3 "Add" [sym "x"; err]) as [_ H].
  destruct (H eq_refl (inl "Add") eq_refl eq_refl) as [Hrun _].
  rewrite Hrun. reflexivity.
Defined.

(** ** Indexing sets *)

Section IndexingSetFacts.
Context (k : NumericOps) (MAX_ITERATION : Z).

(** X22.  [normalizeIndexingSet] gives an index exactly when it is given an
    indexing set.  When the range is not finite the upper bound is the
    lower bound plus [MAX_ITERATION].  A tuple is finite exactly when its
    third operand is neither [Nothing] nor infinite and is a small integer,
    which is then the upper bound; so a tuple of fewer than three operands
    is never finite, while an indexing set that is not a tuple is reported
    finite, with the bounds [1] and [1 + MAX_ITERATION]. *)
Theorem normalizeIndexingSet_range (limits : option Expr) :
  let '(index, lower, upper, isFinite) :=
    normalizeIndexingSet k MAX_ITERATION limits in
  (index = None <-> limits = None)
  /\ (isFinite = false -> upper = (lower + MAX_ITERATION)%Z)
  /\ (forall l, limits = Some l -> tuple_head l = true ->
        index = Some (index_name (op1 l))
        /\ lower = match asSmallInteger k (op2 l) with
                   | Some n => n
                   | None => 1%Z
                   end
        /\ (isFinite = true <->
            isNothing (op3 l) = false
            /\ truthy (isInfinity k (op3 l)) = false
            /\ asSmallInteger k (op3 l) = Some upper)
        /\ (forall h xs c, l = BoxedFunction h xs c -> (length xs < 3)%nat ->
            isFinite = false))
  /\ (forall l, limits = Some l -> tuple_head l = false ->
        index = Some (index_name l)
        /\ (lower, upper, isFinite) = (1, 1 + MAX_ITERATION, true)%Z).
Proof.
  destruct limits as [l|]; cbn [normalizeIndexingSet].
  2:{ split; [tauto|]. split; [discriminate|].
      split; intros l' Hl; discriminate Hl. }
  destruct (tuple_head l) eqn:Etuple.
  2:{ split; [split; discriminate|]. split; [discriminate|].
      split; intros l' Hl; injection Hl as <-; intros Ht;
        [congruence | now split]. }
  assert (Hshort : forall h xs c, l = BoxedFunction h xs c ->
                     (length xs < 3)%nat -> isNothing (op3 l) = true).
  { intros h xs c -> Hlen. cbn [op3].
    rewrite nth_overflow by lia. reflexivity. }
  destruct (isNothing (op3 l)) eqn:Enothing; cbn [orb].
  { split; [split; discriminate|]. split; [reflexivity|].
    split; intros l' Hl; injection Hl as <-; intros Ht; [|congruence].
    split; [reflexivity|]. split; [reflexivity|].
    split; [|reflexivity].
    rewrite Enothing. split; [discriminate | now intros [? _]]. }
  destruct (truthy (isInfinity k (op3 l))) eqn:Einf.
  { split; [split; discriminate|]. split; [reflexivity|].
    split; intros l' Hl; injection Hl as <-; intros Ht; [|congruence].
    split; [reflexivity|]. split; [reflexivity|].
    rewrite Enothing, Einf. split.
    - split; [discriminate | now intros (_ & ? & _)].
    - intros h xs c Hl Hlen. discriminate (Hshort h xs c Hl Hlen). }
  destruct (asSmallInteger k (op3 l)) as [u|] eqn:Eupper.
  - split; [split; discriminate|]. split; [discriminate|].
    split; intros l' Hl; injection Hl as <-; intros Ht; [|congruence].
    split; [reflexivity|]. split; [reflexivity|].
    rewrite Enothing, Einf, Eupper.
    split; [split; [now repeat split | reflexivity]|].
    intros h xs c Hl Hlen. discriminate (Hshort h xs c Hl Hlen).
  - split; [split; discriminate|]. split; [reflexivity|].
    split; intros l' Hl; injection Hl as <-; intros Ht; [|congruence].
    split; [reflexivity|]. split; [reflexivity|].
    rewrite Enothing, Einf, Eupper. split.
    + split; [discriminate | now intros (_ & _ & ?)].
    + intros h xs c Hl Hlen. discriminate (Hshort h xs c Hl Hlen).
Qed.

End IndexingSetFacts.

(** ** Summations *)

Section SummationFacts.
Context {Argument SymbolDefinition FunctionDefinition' : Type}.
Context (boxSymbolDefinition : string -> SymbolDefinition -> BoxedSymbolDefinition).
Context (makeFunctionDefinition : string -> FunctionDefinition' -> FunctionDefinition).
Context (isValidIdentifier : string -> bool).
Context (validateIdentifier : string -> string).
Context (parseFunctionSignature : string -> string * option (list string)).
Context (isSymbolDefinition : Argument -> option SymbolDefinition).
Context (isFunctionDefinition : Argument -> option FunctionDefinition').
Context (ce_domain : Argument -> Outcome Expr).
Context (dom_isValid dom_isFunction : Expr -> bool).
Context (definition_of_signature : Expr -> FunctionDefinition').
Context (definition_of_domain : Expr -> SymbolDefinition).
Context (update : BoxedSymbolDefinition -> SymbolDefinition -> BoxedSymbolDefinition).
Context (integers : Argument).
Context (canonical_list : list Expr -> list Expr).
Context (canonical : Expr -> Expr).
Context (isFinite : Expr -> option bool).
Context (domain_of : Expr -> option Expr).
Context (checkIntegers : Expr -> Expr).
Context (Symbols : Expr).
Context (reboxed : Expr -> Expr).




End SummationFacts.


(** ** Numeric settings *)

Lemma js_eqb_refl (a : JSNumber) : a <> NaN -> js_eqb a a = true.
Proof.
  destruct a; cbn; try reflexivity; [|congruence].
  intros _. apply Qeq_bool_iff. reflexivity.
Qed.

Lemma js_leb_refl (a : JSNumber) : a <> NaN -> js_leb a a = true.
Proof.
  intros Ha. unfold js_leb. rewrite (js_eqb_refl a Ha). apply orb_true_r.
Qed.

Lemma js_ltb_false_leb (a b : JSNumber) :
  a <> NaN -> b <> NaN -> js_ltb a b = false -> js_leb b a = true.
Proof.
  unfold js_leb.
  destruct a as [x| | |], b as [y| | |]; cbn; try congruence; intros _ _ H.
  apply negb_false_iff, Qle_bool_iff in H.
  destruct (Qle_bool x y) eqn:E; [|reflexivity]. cbn.
  apply Qle_bool_iff in E. apply Qeq_bool_iff. now apply Qle_antisym.
Qed.

Lemma js_leb_max (a b : JSNumber) :
  a <> NaN -> b <> NaN -> js_leb b (js_max a b) = true.
Proof.
  intros Ha Hb. unfold js_max.
  destruct (js_ltb a b) eqn:E.
  - destruct a, b; try congruence; now apply js_leb_refl.
  - pose proof (js_ltb_false_leb a b Ha Hb E) as H.
    destruct a, b; try congruence; exact H.
Qed.

Lemma js_ltb_lt (x y : Q) : (x < y)%Q -> js_ltb (Finite x) (Finite y) = true.
Proof.
  intros H. cbn. apply negb_true_iff.
  destruct (Qle_bool y x) eqn:E; [|reflexivity].
  apply Qle_bool_iff in E. exfalso. now apply (Qlt_not_le _ _ H).
Qed.

Lemma js_ltb_le (x y : Q) : (y <= x)%Q -> js_ltb (Finite x) (Finite y) = false.
Proof.
  intros H. cbn. apply negb_false_iff. now apply Qle_bool_iff.
Qed.

Lemma js_eqb_lt (x y : Q) : (x < y)%Q -> js_eqb (Finite x) (Finite y) = false.
Proof.
  intros H. cbn. destruct (Qeq_bool x y) eqn:E; [|reflexivity].
  apply Qeq_bool_iff in E. rewrite E in H. now apply Qlt_irrefl in H.
Qed.

Lemma js_leb_le (x y : Q) : (x <= y)%Q -> js_leb (Finite x) (Finite y) = true.
Proof.
  intros H. apply js_ltb_false_leb; [discriminate | discriminate|].
  now apply js_ltb_le.
Qed.

Lemma js_leb_lt (x y : Q) : (y < x)%Q -> js_leb (Finite x) (Finite y) = false.
Proof.
  intros H. unfold js_leb. rewrite js_ltb_le by now apply Qlt_le_weak.
  cbn [orb]. cbn. destruct (Qeq_bool x y) eqn:E; [|reflexivity].
  apply Qeq_bool_iff in E. rewrite E in H. now apply Qlt_irrefl in H.
Qed.

Lemma js_leb_finite (x y : Q) :
  js_leb (Finite x) (Finite y) = true -> (x <= y)%Q.
Proof.
  intros H. destruct (Qlt_le_dec y x) as [Hlt|Hle]; [|exact Hle].
  now rewrite (js_leb_lt x y Hlt) in H.
Qed.

Section NumericSettingsFacts.
Context {Bignum Rest : Type}.
Context (machine_digits : Z).
Context (config : Bignum -> JSNumber -> Outcome Bignum).
Context (reset : Bignum -> Rest -> Rest).

Lemma machine_defined : machine machine_digits <> NaN.
Proof. discriminate. Qed.

(** X24.  In an engine whose precision is at least the machine precision
    (the constructor makes it so), the setters of [precision] and
    [numericMode] keep it so, for a precision that is a number, and the
    precision that is read is never below the machine precision.  Setting
    the numeric mode to [machine] or [complex] makes the precision read the
    machine precision, and never reconfigures the bignum constructor.
    Setting a precision above the machine precision, when it is not the
    precision that is stored, leaves the modes [machine] and [complex] for
    [auto], and that precision is read afterwards.  Setting the precision
    that is stored does nothing: in the mode [machine], where the machine
    precision is read whatever is stored, the mode and the precision read
    stay what they were.  A precision that is not positive is refused and
    nothing changes. *)
Theorem precision_settings (s : NumericSettings Bignum Rest) :
  let machine := machine machine_digits in
  let get_precision := get_precision machine_digits in
  let set_precision := set_precision machine_digits config reset in
  let set_numericMode := set_numericMode machine_digits reset in
  (0 < machine_digits)%Z ->
  js_leb machine (_precision s) = true ->
  (forall p o s',
     p <> inr NaN -> set_precision p s = (o, s') ->
     js_leb machine (_precision s') = true
     /\ js_leb machine (get_precision s') = true)
  /\ (forall f,
        js_leb machine (_precision (set_numericMode f s)) = true
        /\ _numericMode (set_numericMode f s) = f
        /\ _bignum (set_numericMode f s) = _bignum s
        /\ (f = ModeMachine \/ f = ModeComplex ->
            get_precision (set_numericMode f s) = machine))
  /\ (forall x o s',
        (inject_Z machine_digits < x)%Q ->
        js_eqb (Finite x) (_precision s) = false ->
        set_precision (inr (Finite x)) s = (o, s') ->
        (_numericMode s' = ModeAuto \/ _numericMode s' = ModeBignum)
        /\ get_precision s' = Finite x)
  /\ set_precision (inr (_precision s)) s = (Returned tt, s)
  /\ (_numericMode s = ModeMachine -> get_precision s = machine)
  /\ (forall x,
        (x <= 0)%Q ->
        set_precision (inr (Finite x)) s
        = (Thrown ("Expected " ++ quoted "machine" ++ " or a positive number"),
           s)).
Proof.
  intros machine' get' setp setm Hdigits Hinv. subst machine' get' setp setm.
  assert (Hstored : _precision s <> NaN).
  { intros E. rewrite E in Hinv. discriminate Hinv. }
  assert (Hpositive : (0 < inject_Z machine_digits)%Q).
  { change 0%Q with (inject_Z 0). now rewrite <- Zlt_Qlt. }
  split; [|split; [|split; [|split; [|split]]]].
  - intros p o s' Hp H. unfold set_precision in H.
    set (p' := match p with inl _ => machine machine_digits | inr p0 => p0 end)
      in H.
    assert (Hp' : p' <> NaN).
    { subst p'. destruct p as [[]|p0]; [discriminate | congruence]. }
    assert (Hget : forall s1 : NumericSettings Bignum Rest,
              js_leb (machine machine_digits) (_precision s1) = true ->
              js_leb (machine machine_digits) (get_precision machine_digits s1)
              = true).
    { intros s1 H1. unfold get_precision.
      destruct (_numericMode s1); try exact H1;
        apply js_leb_refl, machine_defined. }
    destruct (js_eqb p' (_precision s)).
    { injection H as <- <-. split; [exact Hinv | now apply Hget]. }
    destruct (js_leb p' (js_of_Z 0)).
    { injection H as <- <-. split; [exact Hinv | now apply Hget]. }
    pose proof (js_leb_max p' (machine machine_digits) Hp' machine_defined)
      as Hmax.
    destruct (config (_bignum s) (js_max p' (machine machine_digits)));
      injection H as <- <-; (split; [exact Hmax | now apply Hget]).
  - intros f. unfold set_numericMode.
    destruct f, (_numericMode s) eqn:Emode; cbn [_precision _numericMode _bignum];
      unfold get_precision; cbn [_numericMode]; rewrite ?Emode;
      repeat split; try exact Hinv; try reflexivity;
      try (apply js_leb_refl, machine_defined);
      try (intros [E|E]; discriminate E).
  - intros x o s' Hx Hne H. unfold set_precision in H. rewrite Hne in H.
    unfold js_of_Z in H.
    rewrite js_leb_lt in H
      by (now apply Qlt_trans with (inject_Z machine_digits)).
    assert (Hmax : js_max (Finite x) (machine machine_digits) = Finite x).
    { unfold js_max, machine, js_of_Z.
      now rewrite js_ltb_le by now apply Qlt_le_weak. }
    rewrite Hmax in H.
    unfold machine, js_of_Z in H. rewrite (js_ltb_lt _ _ Hx) in H.
    unfold get_precision.
    destruct (config (_bignum s) (Finite x)); injection H as <- <-;
      cbn [_numericMode _precision]; destruct (_numericMode s); auto.
  - unfold set_precision. now rewrite js_eqb_refl.
  - intros Emode. unfold get_precision. now rewrite Emode.
  - intros x Hx. unfold set_precision.
    destruct (_precision s) as [q| | |] eqn:Eprecision; try discriminate Hinv;
      [|cbn [js_eqb]; unfold js_of_Z; now rewrite js_leb_le].
    apply js_leb_finite in Hinv.
    rewrite js_eqb_lt.
    + unfold js_of_Z. now rewrite js_leb_le.
    + apply Qle_lt_trans with 0%Q; [exact Hx|].
      now apply Qlt_le_trans with (inject_Z machine_digits).
Qed.

End NumericSettingsFacts.

(** An engine made in the mode [machine] stores the precision 100 and
    reads 15: setting the precision to 100 changes nothing. *)
Lemma precision_settings_witness :
  let s := mkSettings (Bignum := JSNumber) (Rest := nat)
             ModeMachine (js_of_Z 100) None None (js_of_Z 100) 0%nat in
  (0 < 15)%Z
  /\ js_leb (machine 15) (_precision s) = true
  /\ set_precision 15 (fun _ p => Returned p) (fun _ n => S n)
       (inr (js_of_Z 100)) s = (Returned tt, s)
  /\ get_precision 15 s = js_of_Z 15.
Proof.
  intros s. split; [lia|]. split; [reflexivity|].
  destruct (precision_settings 15 (fun _ p => Returned p) (fun _ n => S n) s)
    as (_ & _ & _ & Hsame & Hread & _); [lia | reflexivity|].
  split; [exact Hsame | exact (Hread eq_refl)].
Defined.

(** ** Tolerance *)

Section ToleranceFacts.
Context {Decimal : Type}.
Context (NUMERIC_TOLERANCE : Q).
Context (bignum : JSNumber -> Decimal).
Context (abs_lte : Decimal -> Decimal -> bool).

(** X25.  Whatever it is given, the setter of [tolerance] leaves a
    tolerance that is a finite number and not negative, provided
    [NUMERIC_TOLERANCE] is not negative: a negative number gives 0, and a
    value that is not a finite number gives [NUMERIC_TOLERANCE].  With
    such a tolerance [chop] returns its argument or the number 0, it
    returns 0 for 0, it leaves [NaN] alone, and chopping twice is
    chopping once. *)
Theorem tolerance_chop (val : JSNumber) :
  let t := set_tolerance NUMERIC_TOLERANCE bignum val in
  let chop := chop abs_lte t in
  (0 <= NUMERIC_TOLERANCE)%Q ->
  (exists q, _tolerance t = Finite q /\ (0 <= q)%Q)
  /\ _bignumTolerance t = bignum (_tolerance t)
  /\ (forall q, val = Finite q -> (q < 0)%Q -> _tolerance t = js_of_Z 0)
  /\ (js_isFinite val = false -> _tolerance t = Finite NUMERIC_TOLERANCE)
  /\ (forall n, chop n = ChopNumber (js_of_Z 0) \/ chop n = n)
  /\ chop (ChopNumber (js_of_Z 0)) = ChopNumber (js_of_Z 0)
  /\ chop (ChopNumber NaN) = ChopNumber NaN
  /\ (forall n, chop (chop n) = chop n).
Proof.
  intros t chop' Hdefault. subst chop'.
  assert (Htol : exists q, _tolerance t = Finite q /\ (0 <= q)%Q).
  { subst t. unfold set_tolerance. cbn [_tolerance].
    destruct val as [q| | |]; cbn [js_isFinite]; eauto.
    unfold js_max, js_of_Z.
    destruct (Qlt_le_dec q (inject_Z 0)) as [Hlt|Hle].
    - rewrite (js_ltb_lt _ _ Hlt). eexists. split; [reflexivity|].
      apply Qle_refl.
    - rewrite (js_ltb_le _ _ Hle). eauto. }
  destruct Htol as (tol & Etol & Htol).
  assert (Hzero : chop abs_lte t (ChopNumber (js_of_Z 0))
                  = ChopNumber (js_of_Z 0)).
  { cbn [chop]. now destruct (js_leb _ _). }
  split; [eauto|]. split; [reflexivity|].
  split; [|split; [|split; [|split; [|split]]]].
  - intros q -> Hq. subst t. unfold set_tolerance. cbn [_tolerance js_isFinite].
    unfold js_max, js_of_Z. now rewrite (js_ltb_lt q (inject_Z 0) Hq).
  - intros Hval. subst t. unfold set_tolerance. cbn [_tolerance].
    now rewrite Hval.
  - intros [x|d|re im]; cbn [chop].
    + destruct (js_leb _ _); auto.
    + destruct (abs_lte _ _); auto.
    + destruct (_ && _); auto.
  - exact Hzero.
  - cbn [chop js_abs]. rewrite Etol. reflexivity.
  - intros [x|d|re im]; cbn [chop].
    + destruct (js_leb (js_abs x) (_tolerance t)) eqn:E; [exact Hzero|].
      cbn [chop]. now rewrite E.
    + destruct (abs_lte d (_bignumTolerance t)) eqn:E; [exact Hzero|].
      cbn [chop]. now rewrite E.
    + destruct (js_leb (js_abs re) (_tolerance t)
                && js_leb (js_abs im) (_tolerance t)) eqn:E; [exact Hzero|].
      cbn [chop]. now rewrite E.
Qed.

End ToleranceFacts.

(** The tolerance set from [-1] is 0: only 0 is chopped. *)
Lemma tolerance_chop_witness :
  let t := set_tolerance (Decimal := JSNumber) (1 # 10000000000)
             (fun x => x) (js_of_Z (-1)) in
  (0 <= 1 # 10000000000)%Q
  /\ _tolerance t = js_of_Z 0
  /\ chop (fun a b => js_leb (js_abs a) b) t (ChopNumber (js_of_Z 0))
     = ChopNumber (js_of_Z 0).
Proof.
  intros t.
  assert (Hdefault : (0 <= 1 # 10000000000)%Q) by discriminate.
  split; [exact Hdefault|].
  destruct (tolerance_chop (Decimal := JSNumber) (1 # 10000000000)
              (fun x => x) (fun a b => js_leb (js_abs a) b) (js_of_Z (-1))
              Hdefault)
    as (_ & _ & Hnegative & _ & _ & Hzero & _).
  split; [|exact Hzero].
  apply (Hnegative (inject_Z (-1)) eq_refl). reflexivity.
Defined.
